(** * The TensorFlow public-API generator (generator2/generator/generator.py)

    A shallow embedding of the aggregation, linking, docstring-resolution,
    view-selection and rendering code of [generator.py], followed by the
    properties of the specification that were checked against it.

    Conventions of the embedding:
    - Python [str] is [string]; the string methods the generator calls are
      in module [PyStr], with Python's results on every input.
    - Python [int] is [Z]; an f-string field holding an int is [pretty].
    - [dict] and [collections.defaultdict(set)] are [gmap]s with string
      keys; a [set] is a [gset].  The sets of generated imports are mutated
      through aliases ([dict.copy] is shallow), so they live in a store of
      set objects and the dictionaries hold references to them.
    - Iterating a Python [set] yields its elements in an order the language
      leaves unspecified (and that changes with the string hash seed); the
      iteration order is an explicit parameter of the embedding.
    - Exceptions are the left summand of a sum type.
    - The file system is a map from paths to file contents.  Opening a
      file for writing binds its path to the empty content, and reading
      a path that is not bound raises [FileNotFoundError].  Directories
      are not part of the map: creating one is taken to succeed, except
      that [generate_proxy_api_files] cannot create the empty path;
      other failures of the operating system are not modelled. *)

From Stdlib Require Import Ascii.
From Stdlib Require OrderedTypeEx.
From stdpp Require Import base strings gmap sets list pretty sorting.

(** ** Python string methods *)

Module PyStr.

Fixpoint take (n : nat) (s : string) : string :=
  match n, s with
  | S n, String a s => String a (take n s)
  | _, _ => ""
  end.

Fixpoint drop (n : nat) (s : string) : string :=
  match n, s with
  | S n, String _ s => drop n s
  | _, _ => s
  end.

(** Position of the first, respectively last, occurrence of a character. *)
Fixpoint index_of (c : ascii) (s : string) : option nat :=
  match s with
  | "" => None
  | String a s => if decide (a = c) then Some 0 else S <$> index_of c s
  end.

Fixpoint rindex_of (c : ascii) (s : string) : option nat :=
  match s with
  | "" => None
  | String a s =>
      match rindex_of c s with
      | Some i => Some (S i)
      | None => if decide (a = c) then Some 0 else None
      end
  end.

(** [s.find(c)] and [s.rfind(c)] for a one-character needle: the index,
    or [-1]. *)
Definition find (c : ascii) (s : string) : Z :=
  from_option Z.of_nat (-1)%Z (index_of c s).

Definition rfind (c : ascii) (s : string) : Z :=
  from_option Z.of_nat (-1)%Z (rindex_of c s).

(** A slice bound: negative bounds count from the end, and every bound is
    clipped to [0 .. len]. *)
Definition clip (len : nat) (i : Z) : nat :=
  if (i <? 0)%Z then Z.to_nat (Z.of_nat len + i) else Z.to_nat i `min` len.

(** [s[a:b]], [s[a:]] and [s[:b]]. *)
Definition slice (s : string) (a b : Z) : string :=
  let a' := clip (String.length s) a in
  let b' := clip (String.length s) b in
  take (b' - a') (drop a' s).

Definition slice_from (s : string) (a : Z) : string :=
  drop (clip (String.length s) a) s.

Definition slice_to (s : string) (b : Z) : string :=
  take (clip (String.length s) b) s.

Fixpoint startswith (s p : string) {struct p} : bool :=
  match p, s with
  | "", _ => true
  | String b p, String a s => bool_decide (a = b) && startswith s p
  | String _ _, "" => false
  end.

Definition endswith (s x : string) : bool :=
  bool_decide (String.length x ≤ String.length s
               ∧ drop (String.length s - String.length x) s = x).

Definition removeprefix (s p : string) : string :=
  if startswith s p then drop (String.length p) s else s.

Definition removesuffix (s x : string) : string :=
  if endswith s x then take (String.length s - String.length x) s else s.

(** [s.strip(c)] for a one-character set of characters to strip. *)
Fixpoint lstrip (c : ascii) (s : string) : string :=
  match s with
  | String a s' => if decide (a = c) then lstrip c s' else s
  | "" => ""
  end.

Fixpoint rstrip (c : ascii) (s : string) : string :=
  match s with
  | "" => ""
  | String a s' =>
      let r := rstrip c s' in
      if decide (a = c) then
        match r with "" => "" | _ => String a r end
      else String a r
  end.

Definition strip (c : ascii) (s : string) : string := rstrip c (lstrip c s).

(** [s.replace(c, d)] for one-character arguments. *)
Fixpoint replace_char (c d : ascii) (s : string) : string :=
  match s with
  | "" => ""
  | String a s => String (if decide (a = c) then d else a) (replace_char c d s)
  end.

(** [s.replace(old, new)]: the occurrences of [old] are found from left
    to right and do not overlap; [skip] counts the characters of a
    replaced occurrence still to be dropped. *)
Fixpoint replace_go (old new : string) (skip : nat) (s : string) : string :=
  match s with
  | "" => ""
  | String a s' =>
      match skip with
      | S k => replace_go old new k s'
      | 0 =>
          if startswith (String a s') old
          then new +:+ replace_go old new (String.length old - 1) s'
          else String a (replace_go old new 0 s')
      end
  end.

Fixpoint intersperse (new : string) (s : string) : string :=
  match s with
  | "" => new
  | String a s' => new +:+ String a (intersperse new s')
  end.

Definition replace (old new : string) (s : string) : string :=
  match old with
  | "" => intersperse new s
  | _ => replace_go old new 0 s
  end.

(** [sub in s]. *)
Fixpoint contains (s sub : string) : bool :=
  startswith s sub
  || match s with "" => false | String _ s' => contains s' sub end.

End PyStr.



(** ** Data model *)

(** Modelled from the spec: the records of the [exported_api] module, which
    [generator.py] imports and which is not part of the sources at hand.
    A Symbol has an owning file path, a source line number, a local name
    and the ordered lists of its version-1 and version-2 public names; a
    Doc has the file and line where it was declared, the module names it
    is bound to (in the order the generator iterates them) and the
    docstring. *)
Record ExportedSymbol := {
  file_name : string;
  line_no : Z;
  symbol_name : string;
  v1_apis : list string;
  v2_apis : list string;
}.

Record ExportedDoc := {
  doc_file_name : string;
  doc_line_no : Z;
  doc_modules : list string;
  docstring : string;
}.

(** The frozen dataclass [_Entrypoint]; equality is by value of the three
    fields. *)
Record _Entrypoint := {
  module : string;
  name : string;
  exported_symbol : ExportedSymbol;
}.

Global Instance ExportedSymbol_eq_dec : EqDecision ExportedSymbol.
Proof. solve_decision. Defined.

Global Instance ExportedSymbol_countable : Countable ExportedSymbol.
Proof.
  refine (inj_countable'
    (λ s, (file_name s, line_no s, symbol_name s, v1_apis s, v2_apis s))
    (λ t, let '(f, l, n, a1, a2) := t in
          {| file_name := f; line_no := l; symbol_name := n;
             v1_apis := a1; v2_apis := a2 |}) _).
  by intros [].
Defined.

Global Instance _Entrypoint_eq_dec : EqDecision _Entrypoint.
Proof. solve_decision. Defined.

Global Instance _Entrypoint_countable : Countable _Entrypoint.
Proof.
  refine (inj_countable'
    (λ e, (module e, name e, exported_symbol e))
    (λ t, let '(m, n, s) := t in
          {| module := m; name := n; exported_symbol := s |}) _).
  by intros [].
Defined.

(** Exceptions the generator raises or lets escape. *)
Inductive exn :=
  | DocExportedTwiceError (msg : string)
  | KeyError (key : string)
  | IndexError
  | FileNotFoundError (path : string).

Global Instance exn_ret : MRet (sum exn) := λ A x, inr x.
Global Instance exn_bind : MBind (sum exn) := λ A B f m,
  match m with inl e => inl e | inr x => f x end.

(** A loop whose body may raise. *)
Fixpoint for_each {A S : Type} (body : S → A → exn + S) (s : S) (l : list A)
  : exn + S :=
  match l with
  | [] => inr s
  | x :: l => s' ← body s x; for_each body s' l
  end.

(** ** The store of import sets

    [generated_imports_by_module] is a [defaultdict(set)]: a dictionary from
    module names to references to set objects.  [dd_getitem] is its
    [__getitem__] (a missing key is bound to a new empty set), [set_add] and
    [set_remove] are the methods of the set object behind a reference. *)

Abbreviation loc := nat (only parsing).
Abbreviation store := (list (gset string)) (only parsing).
Abbreviation import_dict := (gmap string nat) (only parsing).

Definition set_at (σ : store) (l : loc) : gset string := default ∅ (σ !! l).

Definition dd_getitem (d : import_dict) (k : string) (σ : store)
  : loc * import_dict * store :=
  match d !! k with
  | Some l => (l, d, σ)
  | None => (length σ, <[k := length σ]> d, σ ++ [∅])
  end.

Definition set_add (l : loc) (x : string) (σ : store) : store :=
  alter (λ X, {[x]} ∪ X) l σ.

Definition set_remove (l : loc) (x : string) (σ : store) : exn + store :=
  if decide (x ∈ set_at σ l) then inr (alter (λ X, X ∖ {[x]}) l σ)
  else inl (KeyError x).

(** The import set a dictionary shows under a key (empty when unbound). *)
Definition imports_of (d : import_dict) (σ : store) (k : string) : gset string :=
  from_option (set_at σ) ∅ (d !! k).

(** ** Aggregation: [get_public_api] *)

Definition _get_import_path
    (file : string) (file_prefixes_to_strip : list string)
    (module_prefix : string) : string :=
  let module_import_path := file in
  let module_import_path :=
    foldl PyStr.removeprefix module_import_path file_prefixes_to_strip in
  let module_import_path := PyStr.removesuffix module_import_path ".py" in
  let module_import_path := PyStr.removesuffix module_import_path "__init__" in
  let module_import_path := PyStr.strip "/" module_import_path in
  let module_import_path := PyStr.replace_char "/" "." module_import_path in
  module_prefix +:+ module_import_path.

Definition _should_skip_file
    (file : string) (file_prefixes_to_strip packages_to_ignore : list string)
    (module_prefix : string) : bool :=
  let import_path := _get_import_path file file_prefixes_to_strip module_prefix in
  existsb (λ package, PyStr.startswith import_path package) packages_to_ignore.

(** The body of the loop of [add_exported_symbols]: the entrypoint a public
    name of symbol [s] gives rise to. *)
Definition entrypoint_of
    (output_package : string) (s : ExportedSymbol) (api_name : string)
  : _Entrypoint :=
  let index_of_last_dot := PyStr.rfind "." api_name in
  let index_of_first_dot := PyStr.find "." api_name in
  let module := output_package in
  let module :=
    if (index_of_first_dot + 1 <? index_of_last_dot)%Z
    then module +:+ "." +:+
         PyStr.slice api_name (index_of_first_dot + 1) index_of_last_dot
    else module in
  let name := PyStr.slice_from api_name (index_of_last_dot + 1) in
  {| module := module; name := name; exported_symbol := s |}.

(** The entrypoints a dictionary shows under a key (none when unbound). *)
Definition entrypoints_at
    (entrypoints_by_module : gmap string (gset _Entrypoint)) (k : string)
  : gset _Entrypoint :=
  default ∅ (entrypoints_by_module !! k).

(** [entrypoints_by_module[module].add(e)] on a [defaultdict(set)]. *)
Definition add_entrypoint
    (entrypoints_by_module : gmap string (gset _Entrypoint)) (e : _Entrypoint)
  : gmap string (gset _Entrypoint) :=
  <[module e := {[e]} ∪ entrypoints_at entrypoints_by_module (module e)]>
    entrypoints_by_module.

Definition add_exported_symbols
    (output_package : string) (api_names : list string) (s : ExportedSymbol)
    (entrypoints_by_module : gmap string (gset _Entrypoint))
  : gmap string (gset _Entrypoint) :=
  foldl (λ ebm api_name, add_entrypoint ebm (entrypoint_of output_package s api_name))
        entrypoints_by_module api_names.

(** The loop over [ea.symbols]; the state is the pair of the version-1 and
    version-2 dictionaries. *)
Definition aggregate_symbols
    (symbols : list ExportedSymbol)
    (file_prefixes_to_strip packages_to_ignore : list string)
    (output_package module_prefix : string)
  : gmap string (gset _Entrypoint) * gmap string (gset _Entrypoint) :=
  foldl (λ '(v1, v2) s,
           if _should_skip_file (file_name s) file_prefixes_to_strip
                packages_to_ignore module_prefix
           then (v1, v2)
           else (add_exported_symbols output_package (v1_apis s) s v1,
                 add_exported_symbols output_package (v2_apis s) s v2))
        (∅, ∅) symbols.

(** [generated_imports_by_module[parent].add(module)]. *)
Definition add_import (parent module : string) (g : import_dict * store)
  : import_dict * store :=
  let '(l, d, σ) := dd_getitem g.1 parent g.2 in (d, set_add l module σ).

(** The [while i != -1] loop of [add_generated_imports]; every round
    shortens [module], so [String.length module] rounds are enough. *)
Fixpoint link_ancestors (fuel : nat) (module : string) (i : Z)
    (g : import_dict * store) : import_dict * store :=
  match fuel with
  | 0 => g
  | S fuel =>
      if decide (i = (-1)%Z) then g
      else
        let parent := PyStr.slice_to module i in
        let g := add_import parent module g in
        let module := parent in
        link_ancestors fuel module (PyStr.rfind "." module) g
  end.

(** The order in which a [for] loop visits the keys of a dictionary. *)
Definition dict_keys {V} (m : gmap string V) : list string := (map_to_list m).*1.

Definition add_generated_imports
    (entrypoints_by_module : gmap string (gset _Entrypoint))
    (g : import_dict * store) : import_dict * store :=
  foldl (λ g module,
           let i := PyStr.rfind "." module in
           if decide (i = (-1)%Z) then g
           else link_ancestors (String.length module) module i g)
        g (dict_keys entrypoints_by_module).

(** The message of [DocExportedTwiceError]. *)
Definition doc_exported_twice_msg (d : ExportedDoc) (m : string) : string :=
  "Docstring at " +:+ doc_file_name d +:+ ":" +:+ pretty (doc_line_no d)
  +:+ " is registered for " +:+ m
  +:+ ", which already has a registered docstring.".

Definition register_doc (docs_by_module : gmap string string) (d : ExportedDoc)
  : exn + gmap string string :=
  for_each (λ docs m,
              if decide (m ∈ dom docs)
              then inl (DocExportedTwiceError (doc_exported_twice_msg d m))
              else inr (<[m := docstring d]> docs))
           docs_by_module (doc_modules d).

Definition register_docs (docs : list ExportedDoc) : exn + gmap string string :=
  for_each register_doc ∅ docs.

(** The [PublicAPI] dataclass.  The two dictionaries of generated imports
    hold references into the store returned along with it. *)
Record PublicAPI := {
  v1_entrypoints_by_module : gmap string (gset _Entrypoint);
  v2_entrypoints_by_module : gmap string (gset _Entrypoint);
  v1_generated_imports_by_module : import_dict;
  v2_generated_imports_by_module : import_dict;
  docs_by_module : gmap string string;
}.

(** [get_public_api]; [symbols] and [docs] are [ea.symbols] and [ea.docs]
    after the mapping files were read. *)
Definition get_public_api
    (symbols : list ExportedSymbol) (docs : list ExportedDoc)
    (file_prefixes_to_strip packages_to_ignore : list string)
    (output_package module_prefix : string)
  : exn + (PublicAPI * store) :=
  let '(v1_entrypoints, v2_entrypoints) :=
    aggregate_symbols symbols file_prefixes_to_strip packages_to_ignore
      output_package module_prefix in
  let '(v1_generated_imports, σ) :=
    add_generated_imports v1_entrypoints (∅, []) in
  let '(v2_generated_imports, σ) :=
    add_generated_imports v2_entrypoints (∅, σ) in
  docs ← register_docs docs;
  mret ({| v1_entrypoints_by_module := v1_entrypoints;
           v2_entrypoints_by_module := v2_entrypoints;
           v1_generated_imports_by_module := v1_generated_imports;
           v2_generated_imports_by_module := v2_generated_imports;
           docs_by_module := docs |}, σ).

(** ** Rendering *)

Definition nl : string := String "010"%char "".
Definition dq : string := String "034"%char "".

(** [_GENERATED_FILE_HEADER % docstring] *)
Definition _GENERATED_FILE_HEADER (docstring : string) : string :=
  "# This file is MACHINE GENERATED! Do not edit." +:+ nl +:+
  "# Generated by: tensorflow/python/tools/api/generator2/generator/generator.py script."
  +:+ nl +:+
  dq +:+ dq +:+ dq +:+ docstring +:+ nl +:+
  dq +:+ dq +:+ dq +:+ nl +:+
  nl +:+
  "import sys as _sys" +:+ nl +:+
  nl.

(** [_LAZY_LOADING_MODULE_TEXT_TEMPLATE % module_imports] *)
Definition _LAZY_LOADING_MODULE_TEXT_TEMPLATE (module_imports : string) : string :=
  nl +:+
  "# Inform pytype that this module is dynamically populated (b/111239204)." +:+ nl +:+
  "_HAS_DYNAMIC_ATTRIBUTES = True" +:+ nl +:+
  "_PUBLIC_APIS = {" +:+ nl +:+
  module_imports +:+ nl +:+
  "}" +:+ nl.

(** [_DEPRECATION_FOOTER % (module, public_apis, deprecation, has_lite)] *)
Definition _DEPRECATION_FOOTER
    (relative_module public_apis deprecation has_lite : string) : string :=
  nl +:+
  "from tensorflow.python.util import module_wrapper as _module_wrapper" +:+ nl +:+
  nl +:+
  "if not isinstance(_sys.modules[__name__], _module_wrapper.TFModuleWrapper):" +:+ nl +:+
  "  _sys.modules[__name__] = _module_wrapper.TFModuleWrapper(" +:+ nl +:+
  "      _sys.modules[__name__], " +:+ dq +:+ relative_module +:+ dq +:+
  ", public_apis=" +:+ public_apis +:+ ", deprecation=" +:+ deprecation +:+ "," +:+ nl +:+
  "      has_lite=" +:+ has_lite +:+ ")" +:+ nl.

(** [sep.join(l)] *)
Fixpoint join (sep : string) (l : list string) : string :=
  match l with
  | [] => ""
  | [x] => x
  | x :: l => x +:+ sep +:+ join sep l
  end.

(** [sorted(l, key=key)]: a stable sort by the order of Python strings. *)
Fixpoint insert_sorted {A} (key : A → string) (x : A) (l : list A) : list A :=
  match l with
  | [] => [x]
  | y :: l' =>
      if String.ltb (key y) (key x) then y :: insert_sorted key x l'
      else x :: y :: l'
  end.

Definition sorted {A} (key : A → string) (l : list A) : list A :=
  foldr (insert_sorted key) [] l.

(** [os.path.join(a, b)] of [posixpath]. *)
Definition path_join (a b : string) : string :=
  if PyStr.startswith b "/" then b
  else if bool_decide (a = "") || PyStr.endswith a "/" then a +:+ b
  else a +:+ "/" +:+ b.

(** [_Entrypoint.get_import] *)
Definition get_import
    (self : _Entrypoint) (file_prefixes_to_strip : list string)
    (module_prefix : string) (use_lazy_loading : bool) : string :=
  let module_import_path :=
    _get_import_path (file_name (exported_symbol self))
      file_prefixes_to_strip module_prefix in
  let alias := "" in
  let symbol_name := symbol_name (exported_symbol self) in
  let alias :=
    if bool_decide (name self ≠ symbol_name) then " as " +:+ name self else alias in
  if negb use_lazy_loading then
    "from " +:+ module_import_path +:+ " import"
    +:+ " " +:+ symbol_name +:+ alias +:+ " # line:"
    +:+ " " +:+ pretty (line_no (exported_symbol self))
  else
    "  '" +:+ name self +:+ "': ('" +:+ module_import_path +:+ "',"
    +:+ " '" +:+ symbol_name +:+ "'), # line:"
    +:+ " " +:+ pretty (line_no (exported_symbol self)).

(** [symbols_by_module[k]] on a [defaultdict(set)] of entrypoints: a
    missing key is bound to a new empty set. *)
Definition ep_getitem
    (symbols_by_module : gmap string (gset _Entrypoint)) (k : string)
  : gset _Entrypoint * gmap string (gset _Entrypoint) :=
  match symbols_by_module !! k with
  | Some X => (X, symbols_by_module)
  | None => (∅, <[k := ∅]> symbols_by_module)
  end.

Definition _get_module_docstring
    (docs_by_module : gmap string string) (module : string) : string :=
  match docs_by_module !! module with
  | Some doc => doc
  | None =>
      let module := PyStr.replace "tensorflow" "tf" module in
      "Public API for " +:+ module +:+ " namespace"
  end.

(** The truth value of an [Optional[str]] or [str] used as a condition. *)
Definition truthy (s : option string) : bool :=
  match s with Some s => bool_decide (s ≠ "") | None => false end.

(** The text one generated import contributes to the content, without the
    newline that ends it. *)
Definition generated_import_entry
    (output_package : string) (use_lazy_loading : bool)
    (subpackage_rewrite : option string) (imp : string) : string :=
  let imp :=
    if truthy subpackage_rewrite
    then PyStr.replace output_package (default "" subpackage_rewrite) imp
    else imp in
  let last_dot := PyStr.rfind "." imp in
  if use_lazy_loading then
    "  '" +:+ PyStr.slice_from imp (last_dot + 1) +:+ "': ('', '" +:+ imp +:+ "'),"
  else
    "from " +:+ PyStr.slice_to imp last_dot +:+ " import "
    +:+ PyStr.slice_from imp (last_dot + 1).

(** The four fields of the wrapper descriptor, or [None] when
    [_get_module_wrapper] returns the empty string. *)
Definition wrapper_fields
    (module output_dir output_package : string) (api_version : Z)
    (symbols_by_module : gmap string (gset _Entrypoint))
    (use_lazy_loading : bool) : option (string * string * string * string) :=
  if bool_decide (api_version ≠ 1%Z) && negb use_lazy_loading then None
  else
    let deprecated := "False" in
    let has_lite := "False" in
    let public_apis_name := "None" in
    let deprecated :=
      if bool_decide (api_version = 1%Z)
         && negb (PyStr.endswith (PyStr.strip "/" output_dir) "compat/v1")
      then "True" else deprecated in
    let has_lite :=
      if bool_decide ("lite" ∈ dom symbols_by_module) && use_lazy_loading
      then "True" else has_lite in
    let public_apis_name :=
      if use_lazy_loading then "_PUBLIC_APIS" else public_apis_name in
    Some (PyStr.strip "." (PyStr.removeprefix module output_package),
          public_apis_name, deprecated, has_lite).

Definition _get_module_wrapper
    (module output_dir output_package : string) (api_version : Z)
    (symbols_by_module : gmap string (gset _Entrypoint))
    (use_lazy_loading : bool) : string :=
  match wrapper_fields module output_dir output_package api_version
          symbols_by_module use_lazy_loading with
  | None => ""
  | Some (relative_module, public_apis_name, deprecated, has_lite) =>
      _DEPRECATION_FOOTER relative_module public_apis_name deprecated has_lite
  end.

(** The path of the file [_gen_init_files] writes for a module. *)
Definition module_file_path
    (output_dir output_package root_file_name module : string) : string :=
  let module_relative_to_package :=
    PyStr.slice_from module (Z.of_nat (String.length output_package) + 1) in
  let module_path :=
    path_join output_dir (PyStr.replace_char "." "/" module_relative_to_package) in
  path_join module_path
    (if bool_decide (module_relative_to_package = "")
     then root_file_name else "__init__.py").

(** The files written so far: path to content. *)
Abbreviation files := (gmap string string) (only parsing).

(** What the generator reads and updates while it renders: the two
    dictionaries of the view, the store of import sets, and the files. *)
Record gen_state := {
  st_symbols : gmap string (gset _Entrypoint);
  st_imports : import_dict;
  st_store : store;
  st_files : files;
}.

Section generator.

(** The order in which a [for] loop visits a set of strings, respectively
    of entrypoints. *)
Variable iter_modules : gset string → list string.
Variable iter_entrypoints : gset _Entrypoint → list _Entrypoint.

(** [_get_imports_for_module]; the two subscriptions may bind [module] in
    the dictionaries, which are returned with the content. *)
Definition _get_imports_for_module
    (module output_package : string)
    (symbols_by_module : gmap string (gset _Entrypoint))
    (generated_imports_by_module : import_dict) (σ : store)
    (file_prefixes_to_strip : list string) (module_prefix : string)
    (use_lazy_loading : bool) (subpackage_rewrite : option string)
  : string * gmap string (gset _Entrypoint) * import_dict * store :=
  let content := "" in
  let '(entrypoints, symbols_by_module) := ep_getitem symbols_by_module module in
  let symbol_imports := iter_entrypoints entrypoints in
  let symbol_imports :=
    sorted (λ s, file_name (exported_symbol s)) symbol_imports in
  let '(l, generated_imports_by_module, σ) :=
    dd_getitem generated_imports_by_module module σ in
  let content :=
    foldl (λ content imp,
             content +:+ generated_import_entry output_package use_lazy_loading
                           subpackage_rewrite imp +:+ nl)
          content (iter_modules (set_at σ l)) in
  let content :=
    foldl (λ content s,
             content +:+ get_import s file_prefixes_to_strip module_prefix
                           use_lazy_loading +:+ nl)
          content symbol_imports in
  (content, symbols_by_module, generated_imports_by_module, σ).

(** The footer that replaces [# __all__ PLACEHOLDER] in the root template. *)
Definition root_module_footer (underscore_elements : list string) : string :=
  nl +:+
  "_names_with_underscore = ["
  +:+ join ", " (sorted id ((λ s, "'" +:+ s +:+ "'") <$> underscore_elements))
  +:+ "]" +:+ nl +:+
  "__all__ = [_s for _s in dir() if not _s.startswith('_')]" +:+ nl +:+
  "__all__.extend([_s for _s in _names_with_underscore])" +:+ nl +:+
  "          ".

(** The body of the loop of [_gen_init_files] for one module. *)
Definition gen_init_file
    (output_dir output_package : string) (api_version : Z)
    (docs_by_module : gmap string string) (root_template_path : string)
    (file_prefixes_to_strip : list string) (use_lazy_loading : bool)
    (module_prefix : string) (subpackage_rewrite : option string)
    (root_file_name : string)
    (st : gen_state) (module : string) : exn + gen_state :=
  if bool_decide (String.length module < String.length output_package) then inr st
  else
    let module_file_path :=
      module_file_path output_dir output_package root_file_name module in
    (* open(module_file_path, 'w') *)
    let fs := <[module_file_path := ""]> (st_files st) in
    let '(module_imports, symbols_by_module, generated_imports_by_module, σ) :=
      _get_imports_for_module module output_package
        (st_symbols st) (st_imports st) (st_store st)
        file_prefixes_to_strip module_prefix use_lazy_loading subpackage_rewrite in
    let module_imports :=
      if use_lazy_loading then _LAZY_LOADING_MODULE_TEXT_TEMPLATE module_imports
      else module_imports in
    if bool_decide (module = output_package) && truthy (Some root_template_path) then
      match fs !! root_template_path with
      | None => inl (FileNotFoundError root_template_path)
      | Some content =>
          let content :=
            PyStr.replace "# API IMPORTS PLACEHOLDER" module_imports content in
          let '(entrypoints, symbols_by_module) :=
            ep_getitem symbols_by_module module in
          let underscore_elements :=
            name <$> filter (λ s, PyStr.startswith (name s) "_" = true)
                       (iter_entrypoints entrypoints) in
          let '(l, generated_imports_by_module, σ) :=
            dd_getitem generated_imports_by_module module σ in
          let underscore_elements :=
            foldl (λ underscore_elements i,
                     let module_name :=
                       PyStr.slice_from i (PyStr.rfind "." i + 1) in
                     if PyStr.startswith module_name "_"
                     then underscore_elements ++ [module_name]
                     else underscore_elements)
                  underscore_elements (iter_modules (set_at σ l)) in
          let content :=
            PyStr.replace "# __all__ PLACEHOLDER"
              (root_module_footer underscore_elements) content in
          let content :=
            PyStr.replace "# WRAPPER_PLACEHOLDER"
              (_get_module_wrapper module output_dir output_package api_version
                 symbols_by_module use_lazy_loading) content in
          inr {| st_symbols := symbols_by_module;
                 st_imports := generated_imports_by_module;
                 st_store := σ;
                 st_files := <[module_file_path := content]> fs |}
      end
    else
      let content :=
        _GENERATED_FILE_HEADER (_get_module_docstring docs_by_module module)
        +:+ module_imports
        +:+ _get_module_wrapper module output_dir output_package api_version
              symbols_by_module use_lazy_loading in
      inr {| st_symbols := symbols_by_module;
             st_imports := generated_imports_by_module;
             st_store := σ;
             st_files := <[module_file_path := content]> fs |}.

(** [_gen_init_files]: the modules are the keys of both dictionaries at the
    time of the call. *)
Definition _gen_init_files
    (output_dir output_package : string) (api_version : Z)
    (docs_by_module : gmap string string) (root_template_path : string)
    (file_prefixes_to_strip : list string) (use_lazy_loading : bool)
    (module_prefix : string) (subpackage_rewrite : option string)
    (root_file_name : string) (st : gen_state) : exn + gen_state :=
  let modules := dom (st_symbols st) in
  let modules := modules ∪ dom (st_imports st) in
  for_each
    (gen_init_file output_dir output_package api_version docs_by_module
       root_template_path file_prefixes_to_strip use_lazy_loading module_prefix
       subpackage_rewrite root_file_name)
    st (iter_modules modules).

(** [f'{output_package}.compat.v{compat_version}'] *)
Definition compat_version_package (output_package : string) (compat_version : Z)
  : string :=
  output_package +:+ ".compat.v" +:+ pretty compat_version.

(** The first loop over [compat_versions] of [gen_nested_compat_files]:
    the edges to the versioned compat packages are removed from the import
    set of the compat module.  [set.remove] raises [KeyError] on a missing
    element. *)
Definition remove_compat_edges
    (output_package : string) (compat_versions : list Z)
    (nested_generated_imports_by_module : import_dict) (σ : store)
  : exn + (import_dict * store) :=
  let compat_module := output_package +:+ ".compat" in
  for_each
    (λ '(d, σ) compat_version,
       let '(l, d, σ) := dd_getitem d compat_module σ in
       σ ← set_remove l (compat_version_package output_package compat_version) σ;
       mret (d, σ))
    (nested_generated_imports_by_module, σ) compat_versions.

(** The last loop of [gen_nested_compat_files]: the edges are added back. *)
Definition restore_compat_edges
    (output_package : string) (compat_versions : list Z)
    (nested_generated_imports_by_module : import_dict) (σ : store)
  : import_dict * store :=
  let compat_module := output_package +:+ ".compat" in
  foldl
    (λ '(d, σ) compat_version,
       let '(l, d, σ) := dd_getitem d compat_module σ in
       (d, set_add l (compat_version_package output_package compat_version) σ))
    (nested_generated_imports_by_module, σ) compat_versions.

(** The entrypoint dictionary of the nested view: a copy of
    [symbols_by_module] without the keys other than the output package and
    its compat module. *)
Definition nested_compat_symbols
    (output_package : string)
    (symbols_by_module : gmap string (gset _Entrypoint))
  : gmap string (gset _Entrypoint) :=
  let nested_compat_symbols_by_module := symbols_by_module in
  let compat_module := output_package +:+ ".compat" in
  let modules_to_remove :=
    filter (λ module, module ≠ output_package ∧ module ≠ compat_module)
      (dict_keys symbols_by_module) in
  foldl (λ nested module, delete module nested)
    nested_compat_symbols_by_module modules_to_remove.

(** [gen_nested_compat_files].  The two copies are shallow: the copy of
    the generated imports holds the same references as the original, so
    the removal and the restoration act on the shared set objects; keys
    bound in the copies are lost with them.  The result is the store and
    the files after the call. *)
Definition gen_nested_compat_files
    (output_dir output_package : string) (api_version : Z)
    (symbols_by_module : gmap string (gset _Entrypoint))
    (generated_imports_by_module : import_dict)
    (docs_by_module : gmap string string) (root_template_path : string)
    (file_prefixes_to_strip : list string) (use_lazy_loading : bool)
    (compat_versions : list Z) (module_prefix : string)
    (σ : store) (fs : files) : exn + (store * files) :=
  let nested_compat_symbols_by_module :=
    nested_compat_symbols output_package symbols_by_module in
  let nested_generated_imports_by_module := generated_imports_by_module in
  let compat_module := output_package +:+ ".compat" in
  '(nested_generated_imports_by_module, σ) ←
    remove_compat_edges output_package compat_versions
      nested_generated_imports_by_module σ;
  st ← _gen_init_files output_dir output_package api_version docs_by_module
         root_template_path file_prefixes_to_strip use_lazy_loading module_prefix
         (Some (compat_module +:+ ".v" +:+ pretty api_version)) "__init__.py"
         {| st_symbols := nested_compat_symbols_by_module;
            st_imports := nested_generated_imports_by_module;
            st_store := σ; st_files := fs |};
  let '(_, σ) :=
    restore_compat_edges output_package compat_versions
      (st_imports st) (st_store st) in
  mret (σ, st_files st).

(** The dictionaries [gen_public_api] selects for a version: version 1
    selects the version-1 dictionaries, every other version the version-2
    ones.  The selected names alias the dictionaries of the public API, so
    what a call binds in them is written back with [set_view]. *)
Definition view_of (api : PublicAPI) (version : Z)
  : gmap string (gset _Entrypoint) * import_dict :=
  if bool_decide (version = 1%Z)
  then (v1_entrypoints_by_module api, v1_generated_imports_by_module api)
  else (v2_entrypoints_by_module api, v2_generated_imports_by_module api).

Definition set_view (api : PublicAPI) (version : Z)
    (entrypoints : gmap string (gset _Entrypoint)) (imports : import_dict)
  : PublicAPI :=
  if bool_decide (version = 1%Z)
  then {| v1_entrypoints_by_module := entrypoints;
          v2_entrypoints_by_module := v2_entrypoints_by_module api;
          v1_generated_imports_by_module := imports;
          v2_generated_imports_by_module := v2_generated_imports_by_module api;
          docs_by_module := docs_by_module api |}
  else {| v1_entrypoints_by_module := v1_entrypoints_by_module api;
          v2_entrypoints_by_module := entrypoints;
          v1_generated_imports_by_module := v1_generated_imports_by_module api;
          v2_generated_imports_by_module := imports;
          docs_by_module := docs_by_module api |}.

(** The first loop of [gen_public_api]: for every compat version the edge
    from the compat package to the versioned compat package is added to
    the version-2 and to the version-1 generated imports. *)
Definition inject_compat_edges
    (output_package : string) (compat_api_versions : list Z)
    (api : PublicAPI) (σ : store) : PublicAPI * store :=
  foldl
    (λ '(api, σ) compat_version,
       let compat_package := output_package +:+ ".compat" in
       let compat_version_package :=
         compat_package +:+ ".v" +:+ pretty compat_version in
       let '(l, v2, σ) :=
         dd_getitem (v2_generated_imports_by_module api) compat_package σ in
       let σ := set_add l compat_version_package σ in
       let '(l, v1, σ) :=
         dd_getitem (v1_generated_imports_by_module api) compat_package σ in
       let σ := set_add l compat_version_package σ in
       ({| v1_entrypoints_by_module := v1_entrypoints_by_module api;
           v2_entrypoints_by_module := v2_entrypoints_by_module api;
           v1_generated_imports_by_module := v1;
           v2_generated_imports_by_module := v2;
           docs_by_module := docs_by_module api |}, σ))
    (api, σ) compat_api_versions.

(** [compat_init_templates[index] if compat_init_templates else ''] *)
Definition compat_init_template (compat_init_templates : list string) (index : nat)
  : exn + string :=
  match compat_init_templates with
  | [] => inr ""
  | _ =>
      match compat_init_templates !! index with
      | Some template => inr template
      | None => inl IndexError
      end
  end.

(** [list(enumerate(l))] *)
Definition enumerate {A} (l : list A) : list (nat * A) := zip (seq 0 (length l)) l.

(** [gen_public_api]; [symbols] and [docs] are the records decoded from
    the mapping files, [fs] the files present before the run.  The result
    is the public API, the store and the files after the run. *)
Definition gen_public_api
    (output_dir output_package root_init_template : string) (api_version : Z)
    (compat_api_versions : list Z) (compat_init_templates : list string)
    (use_lazy_loading : bool) (file_prefixes_to_strip : list string)
    (symbols : list ExportedSymbol) (docs : list ExportedDoc)
    (packages_to_ignore : list string) (module_prefix root_file_name : string)
    (fs : files) : exn + (PublicAPI * store * files) :=
  '(public_api, σ) ←
    get_public_api symbols docs file_prefixes_to_strip packages_to_ignore
      output_package module_prefix;
  let '(public_api, σ) :=
    inject_compat_edges output_package compat_api_versions public_api σ in
  let '(root_entrypoints_by_module, root_generated_imports_by_module) :=
    view_of public_api api_version in
  st ← _gen_init_files output_dir output_package api_version
         (docs_by_module public_api) root_init_template file_prefixes_to_strip
         use_lazy_loading module_prefix None root_file_name
         {| st_symbols := root_entrypoints_by_module;
            st_imports := root_generated_imports_by_module;
            st_store := σ; st_files := fs |};
  let public_api :=
    set_view public_api api_version (st_symbols st) (st_imports st) in
  for_each
    (λ '(public_api, σ, fs) '(compat_index, compat_version),
       let compat_output_dir :=
         path_join (path_join output_dir "compat") ("v" +:+ pretty compat_version) in
       let '(compat_entrypoints_by_module, compat_generated_imports_by_module) :=
         view_of public_api compat_version in
       template ← compat_init_template compat_init_templates compat_index;
       st ← _gen_init_files compat_output_dir output_package compat_version
              (docs_by_module public_api) template file_prefixes_to_strip
              use_lazy_loading module_prefix
              (Some (output_package +:+ ".compat.v" +:+ pretty compat_version))
              "__init__.py"
              {| st_symbols := compat_entrypoints_by_module;
                 st_imports := compat_generated_imports_by_module;
                 st_store := σ; st_files := fs |};
       let public_api :=
         set_view public_api compat_version (st_symbols st) (st_imports st) in
       '(σ, fs) ←
         for_each
           (λ '(σ, fs) '(nested_compat_index, nested_compat_version),
              let nested_compat_output_dir :=
                path_join (path_join compat_output_dir "compat")
                  ("v" +:+ pretty nested_compat_version) in
              let '(nested_compat_entrypoints_by_module,
                    nested_compat_generated_imports_by_module) :=
                view_of public_api nested_compat_version in
              template ←
                compat_init_template compat_init_templates nested_compat_index;
              gen_nested_compat_files nested_compat_output_dir output_package
                nested_compat_version nested_compat_entrypoints_by_module
                nested_compat_generated_imports_by_module
                (docs_by_module public_api) template file_prefixes_to_strip
                use_lazy_loading compat_api_versions module_prefix σ fs)
           (st_store st, st_files st) (enumerate compat_api_versions);
       mret (public_api, σ, fs))
    (public_api, st_store st, st_files st) (enumerate compat_api_versions).

End generator.

(** ** Proxy files: [get_module] and [generate_proxy_api_files] *)

(** [c * n] for a one-character string [c]. *)
Fixpoint repeat_char (c : ascii) (n : nat) : string :=
  match n with
  | 0 => ""
  | S n => String c (repeat_char c n)
  end.

(** [os.path.dirname] of [posixpath]. *)
Definition dirname (p : string) : string :=
  let i := (PyStr.rfind "/" p + 1)%Z in
  let head := PyStr.slice_to p i in
  if bool_decide (head ≠ "")
     && bool_decide (head ≠ repeat_char "/" (String.length head))
  then PyStr.rstrip "/" head
  else head.

(** [get_module]; [os.sep] is ['/']. *)
Definition get_module (dir_path relative_to_dir : string) : string :=
  let dir_path :=
    PyStr.slice_from dir_path (Z.of_nat (String.length relative_to_dir)) in
  let dir_path := PyStr.replace_char "/" "/" dir_path in
  PyStr.strip "." (PyStr.replace_char "/" "." dir_path).

(** [generate_proxy_api_files].  The directory of a file is created when
    it does not exist; the empty path is no directory and cannot be
    created ([os.makedirs('')] raises [FileNotFoundError]). *)
Definition generate_proxy_api_files
    (output_files : list string) (proxy_module_root output_dir : string)
    (fs : files) : exn + files :=
  for_each
    (λ fs file,
       let file_dir := dirname file in
       if bool_decide (file_dir = "") then inl (FileNotFoundError file_dir)
       else
         let module := get_module file_dir output_dir in
         let content :=
           "from " +:+ proxy_module_root +:+ "." +:+ module +:+ " import *" in
         inr (<[file := content]> fs))
    fs output_files.

(** ** Sample inputs *)

Definition sym_GFile : ExportedSymbol :=
  {| file_name := "tensorflow/python/lib/io/file_io.py"; line_no := 42;
     symbol_name := "FileIO";
     v1_apis := ["v1.io.gfile.GFile"; "v1.gfile.GFile"];
     v2_apis := ["v2.io.gfile.GFile"] |}.




Definition sym_lite : ExportedSymbol :=
  {| file_name := "tensorflow/lite/python/lite.py"; line_no := 7;
     symbol_name := "Interpreter";
     v1_apis := ["v1.lite.Interpreter"]; v2_apis := ["v2.lite.Interpreter"] |}.

Definition sym_abc : ExportedSymbol :=
  {| file_name := "x/y.py"; line_no := 3; symbol_name := "f";
     v1_apis := []; v2_apis := ["v2.b.c.f"] |}.

Definition doc_first : ExportedDoc :=
  {| doc_file_name := "first.py"; doc_line_no := 10;
     doc_modules := ["tf.io"]; docstring := "Input and output." |}.

Definition doc_second : ExportedDoc :=
  {| doc_file_name := "second.py"; doc_line_no := 20;
     doc_modules := ["tf.io"]; docstring := "Files." |}.

Definition doc_math : ExportedDoc :=
  {| doc_file_name := "third.py"; doc_line_no := 30;
     doc_modules := ["tf.math"; "tf.linalg"]; docstring := "Math." |}.

(** A view in which module [tf] exposes an entrypoint named [lite] and the
    module [tf.lite] has content. *)
Definition symbols_with_lite : gmap string (gset _Entrypoint) :=
  {[ "tf" := {[ {| module := "tf"; name := "lite"; exported_symbol := sym_lite |} ]};
     "tf.lite" := {[ entrypoint_of "tf" sym_lite "v2.lite.Interpreter" ]} ]}.

(** A dictionary of generated imports and its store: the compat module
    imports both versioned compat packages, the root imports the compat
    module. *)
Definition compat_imports : import_dict := {[ "tf.compat" := 0; "tf" := 1 ]}.

Definition compat_store : store :=
  [ {[ "tf.compat.v1"; "tf.compat.v2" ]}; {[ "tf.compat" ]} ].

(** Two symbols exported to two sibling modules. *)
Definition sym_a : ExportedSymbol :=
  {| file_name := "x/a.py"; line_no := 1; symbol_name := "f";
     v1_apis := []; v2_apis := ["v2.a.f"] |}.

Definition sym_b : ExportedSymbol :=
  {| file_name := "x/b.py"; line_no := 2; symbol_name := "g";
     v1_apis := []; v2_apis := ["v2.b.g"] |}.

(** A state to render: the view with [lite] and the compat imports. *)
Definition sample_state : gen_state :=
  {| st_symbols := symbols_with_lite; st_imports := compat_imports;
     st_store := compat_store; st_files := ∅ |}.

(** A view in which the root module exposes two symbols of two files. *)
Definition symbols_two_files : gmap string (gset _Entrypoint) :=
  {[ "tf" := {[ {| module := "tf"; name := "f"; exported_symbol := sym_a |};
                {| module := "tf"; name := "g"; exported_symbol := sym_b |} ]} ]}.

(** A state in which only a root template exists. *)
Definition template_state : gen_state :=
  {| st_symbols := ∅; st_imports := ∅; st_store := [];
     st_files := {[ "tpl" := "# template" ]} |}.


(** A symbol exported under the name [lite] in the root module. *)
Definition sym_lite_name : ExportedSymbol :=
  {| file_name := "tensorflow/lite/python/api.py"; line_no := 9;
     symbol_name := "lite"; v1_apis := []; v2_apis := ["v2.lite"] |}.

(** ** Vocabulary of the statements *)

(** [s] has no dot: [s.find('.') == -1]. *)
Definition dotless (s : string) : Prop := PyStr.find "." s = (-1)%Z.

(** [sep.join(segs)] for the separator ['.']. *)
Fixpoint dotted (segs : list string) : string :=
  match segs with
  | [] => ""
  | [s] => s
  | s :: segs => s +:+ "." +:+ dotted segs
  end.


(** What the loop over the symbols leaves in the two dictionaries:
    [sel] picks the version ([v1_apis] with [fst], [v2_apis] with [snd]). *)
Definition aggregated
    (symbols : list ExportedSymbol) (strip ignore : list string)
    (pkg prefix : string) (apis : ExportedSymbol → list string)
    (k : string) (e : _Entrypoint) : Prop :=
  ∃ s api_name,
    s ∈ symbols
    ∧ _should_skip_file (file_name s) strip ignore prefix = false
    ∧ api_name ∈ apis s
    ∧ e = entrypoint_of pkg s api_name ∧ k = module e.


(** The containing module and the exposed name the dotted public name
    [api_name] determines, case by case: [x.mid.y] with a non-empty middle
    part between the first and the last dot, a name without dot, and a
    name with one dot. *)
Definition placed_by_name (pkg api_name : string) (e : _Entrypoint) : Prop :=
  (∀ x mid y, dotless x → dotless y → mid ≠ "" →
     api_name = x +:+ "." +:+ mid +:+ "." +:+ y →
     module e = pkg +:+ "." +:+ mid)
  ∧ (dotless api_name → module e = pkg)
  ∧ (∀ x y, dotless x → dotless y → api_name = x +:+ "." +:+ y → module e = pkg)
  ∧ (dotless api_name → name e = api_name)
  ∧ (∀ x y, dotless y → api_name = x +:+ "." +:+ y → name e = y).

(** The file of a symbol is under an ignored package. *)
Definition ignored (strip ignore : list string) (prefix : string)
    (s : ExportedSymbol) : Prop :=
  ∃ package, package ∈ ignore
    ∧ PyStr.startswith (_get_import_path (file_name s) strip prefix) package = true.

(** A dictionary of import sets is well formed over a store, from location
    [base] on: its references point to set objects of the store allocated
    at or after [base], and no two keys share a set object. *)
Definition wf_imports (base : nat) (d : import_dict) (σ : store) : Prop :=
  (∀ k l, d !! k = Some l → base ≤ l < length σ)
  ∧ (∀ k1 k2 l, d !! k1 = Some l → d !! k2 = Some l → k1 = k2).

(** [chain_edge m k x]: the edge from [k] to [x] lies on the chain that
    leads from module [m] up to its root: [x] is [m] or an ancestor of [m],
    and [k] is [x] without its last segment. *)
Inductive chain_edge : string → string → string → Prop :=
  | chain_here p seg :
      dotless seg → chain_edge (p +:+ "." +:+ seg) p (p +:+ "." +:+ seg)
  | chain_up p seg k x :
      dotless seg → chain_edge p k x → chain_edge (p +:+ "." +:+ seg) k x.

(** The entrypoint dictionary and the generated-imports dictionary of one
    version of a public API. *)
Definition is_view (api : PublicAPI)
    (ebm : gmap string (gset _Entrypoint)) (g : import_dict) : Prop :=
  (ebm = v1_entrypoints_by_module api ∧ g = v1_generated_imports_by_module api)
  ∨ (ebm = v2_entrypoints_by_module api ∧ g = v2_generated_imports_by_module api).

(** The module names the Doc records bind, in the order of registration. *)
Definition all_modules (docs : list ExportedDoc) : list string :=
  docs ≫= doc_modules.

(** A message names the source location (file and line) of a Doc record. *)
Definition identifies (msg : string) (d : ExportedDoc) : Prop :=
  PyStr.contains msg (doc_file_name d +:+ ":" +:+ pretty (doc_line_no d)) = true.

(** [iter] is a possible iteration order of sets: it visits every element
    of a set once. *)
Definition set_order `{Countable A} (iter : gset A → list A) : Prop :=
  ∀ X, iter X ≡ₚ elements X.

(** The references of a dictionary of import sets point into the store. *)
Definition wf_range (d : import_dict) (σ : store) : Prop :=
  ∀ k l, d !! k = Some l → l < length σ.

(** [σ'] extends [σ]: it has the set objects of [σ], each with at least
    the elements it has in [σ]. *)
Definition store_grows (σ σ' : store) : Prop :=
  length σ ≤ length σ' ∧ ∀ l, l < length σ → set_at σ l ⊆ set_at σ' l.

(** [s] does not contain the character [c]. *)
Definition free_of (c : ascii) (s : string) : Prop := PyStr.index_of c s = None.













(** Every key of a dictionary of entrypoints, respectively of import
    sets, is bound to a non-empty set. *)
Definition entrypoint_keys_nonempty (m : gmap string (gset _Entrypoint)) : Prop :=
  ∀ k, k ∈ dom m → entrypoints_at m k ≠ ∅.

Definition import_keys_nonempty (d : import_dict) (σ : store) : Prop :=
  ∀ k, k ∈ dom d → imports_of d σ k ≠ ∅.

(** A non-empty list of non-empty segments in which the separator [c] does
    not occur. *)
Definition segments (c : ascii) (segs : list string) : Prop :=
  segs ≠ [] ∧ Forall (λ s, s ≠ "" ∧ free_of c s) segs.

(** [σ'] is [σ] followed by new empty sets, and [d'] is [d] with new keys
    bound to some of them. *)
Definition extends_imports
    (d : import_dict) (σ : store) (d' : import_dict) (σ' : store) : Prop :=
  d ⊆ d'
  ∧ (∃ n, σ' = σ ++ replicate n ∅)
  ∧ ∀ k l, d !! k = None → d' !! k = Some l → length σ ≤ l.

(** The modules [_gen_init_files] renders: the keys of the two
    dictionaries that are no shorter than the output package. *)
Definition rendered_modules (pkg : string) (st : gen_state) : gset string :=
  filter (λ m, String.length pkg ≤ String.length m)
    (dom (st_symbols st) ∪ dom (st_imports st)).

(** The order [sorted(l, key=key)] sorts by. *)
Definition key_le {A} (key : A → string) (a b : A) : Prop :=
  String.ltb (key b) (key a) = false.

(** The entrypoints of [module] come from pairwise distinct files. *)
Definition distinct_files
    (symbols : gmap string (gset _Entrypoint)) (module : string) : Prop :=
  ∀ a b, a ∈ entrypoints_at symbols module → b ∈ entrypoints_at symbols module →
         file_name (exported_symbol a) = file_name (exported_symbol b) → a = b.

(** Two public APIs, each with its store, show the same docstrings, the
    same entrypoints and the same generated imports in both versions. *)
Definition same_api (api : PublicAPI) (σ : store) (api' : PublicAPI) (σ' : store)
  : Prop :=
  docs_by_module api' = docs_by_module api
  ∧ ∀ version k,
      entrypoints_at (view_of api' version).1 k
      = entrypoints_at (view_of api version).1 k
      ∧ imports_of (view_of api' version).2 σ' k
        = imports_of (view_of api version).2 σ k.

(** The two dictionaries share no set object of the store: within each,
    and between them, different keys refer to different objects, all of
    them in the store. *)
Definition separate (d1 d2 : import_dict) (σ : store) : Prop :=
  wf_imports 0 d1 σ ∧ wf_imports 0 d2 σ
  ∧ ∀ k1 k2 l, d1 !! k1 = Some l → d2 !! k2 = Some l → False.

(** One round of the [while i != -1] loop of [add_generated_imports] on
    the loop variables [module] and [i] and the dictionary. *)
Definition ancestor_round (st : string * Z * (import_dict * store))
  : string * Z * (import_dict * store) :=
  let '(module, i, g) := st in
  let parent := PyStr.slice_to module i in
  let g := add_import parent module g in
  let module := parent in
  (module, PyStr.rfind "." module, g).

(** ** Facts about the string methods *)

Section string_facts.
Implicit Types (s x y p : string) (c : ascii).

Lemma str_app_String a x y : String a x +:+ y = String a (x +:+ y).
Proof. reflexivity. Qed.

Lemma str_app_nil_l y : "" +:+ y = y.
Proof. reflexivity. Qed.

Lemma str_app_nil_r x : x +:+ "" = x.
Proof. induction x as [|a x IH]; [done|]. by rewrite str_app_String, IH. Qed.

Lemma str_app_assoc x y z : (x +:+ y) +:+ z = x +:+ y +:+ z.
Proof. induction x as [|a x IH]; [done|]. by rewrite !str_app_String, IH. Qed.

Lemma str_length_app x y :
  String.length (x +:+ y) = String.length x + String.length y.
Proof. induction x as [|a x IH]; [done|]. rewrite str_app_String. simpl. by rewrite IH. Qed.

Lemma str_take_app x y : PyStr.take (String.length x) (x +:+ y) = x.
Proof. induction x as [|a x IH]; [by destruct y|]. rewrite str_app_String. simpl. by rewrite IH. Qed.

Lemma str_drop_app x y : PyStr.drop (String.length x) (x +:+ y) = y.
Proof. induction x as [|a x IH]; [done|]. by rewrite str_app_String. Qed.

Lemma str_take_length x : PyStr.take (String.length x) x = x.
Proof. rewrite <-(str_app_nil_r x) at 2. apply str_take_app. Qed.

Lemma str_take_drop n s : PyStr.take n s +:+ PyStr.drop n s = s.
Proof.
  revert s. induction n as [|n IH]; intros [|a s]; simpl; try done.
  by rewrite str_app_String, IH.
Qed.

Lemma str_length_take n s : n ≤ String.length s → String.length (PyStr.take n s) = n.
Proof.
  revert s. induction n as [|n IH]; intros [|a s]; simpl; try lia.
  intros. rewrite IH; lia.
Qed.

Lemma clip_nonneg (len n : nat) : n ≤ len → PyStr.clip len (Z.of_nat n) = n.
Proof.
  intros. unfold PyStr.clip.
  destruct (Z.ltb_spec (Z.of_nat n) 0); lia.
Qed.

Lemma index_of_rindex_of c s :
  PyStr.index_of c s = None ↔ PyStr.rindex_of c s = None.
Proof.
  induction s as [|a s IH]; simpl; [done|].
  destruct (decide (a = c)), (PyStr.rindex_of c s), (PyStr.index_of c s);
    simpl; intuition congruence.
Qed.

Lemma index_of_lt c s i : PyStr.index_of c s = Some i → i < String.length s.
Proof.
  revert i. induction s as [|a s IH]; intros i; simpl; [done|].
  case_decide; [intros [= <-]; lia|].
  destruct (PyStr.index_of c s) as [j|]; simpl; [|done].
  intros [= <-]. specialize (IH j eq_refl). lia.
Qed.

Lemma index_of_app_l c x y :
  PyStr.index_of c x = None →
  PyStr.index_of c (x +:+ String c y) = Some (String.length x).
Proof.
  induction x as [|a x IH].
  - intros _. rewrite str_app_nil_l. simpl. by rewrite decide_True.
  - rewrite str_app_String. simpl. case_decide; [done|].
    destruct (PyStr.index_of c x); [done|]. intros _. by rewrite IH.
Qed.

Lemma index_of_app_None c x y :
  PyStr.index_of c x = None → PyStr.index_of c y = None →
  PyStr.index_of c (x +:+ y) = None.
Proof.
  induction x as [|a x IH]; [done|].
  rewrite str_app_String. simpl. case_decide; [done|].
  destruct (PyStr.index_of c x); [done|]. intros _ ?. by rewrite IH.
Qed.

Lemma rindex_of_app_r c x y :
  PyStr.rindex_of c y = None →
  PyStr.rindex_of c (x +:+ String c y) = Some (String.length x).
Proof.
  intros Hy. induction x as [|a x IH].
  - rewrite str_app_nil_l. simpl. by rewrite Hy, decide_True.
  - rewrite str_app_String. simpl. by rewrite IH.
Qed.

(** The decomposition behind [module[:module.rfind('.')]]. *)
Lemma rindex_of_Some c s i :
  PyStr.rindex_of c s = Some i →
  ∃ y, s = PyStr.take i s +:+ String c y
       ∧ PyStr.rindex_of c y = None ∧ i < String.length s.
Proof.
  revert i. induction s as [|a s IH]; intros i; simpl; [done|].
  destruct (PyStr.rindex_of c s) as [j|] eqn:Hj.
  - intros [= <-]. destruct (IH j eq_refl) as (y & Hs & Hy & ?).
    exists y. simpl. rewrite str_app_String. split_and!; [congruence|done|lia].
  - case_decide as Hac; [|done]. intros [= <-]. subst a.
    exists s. simpl. split_and!; [done|done|lia].
Qed.

Lemma dotless_alt s : dotless s ↔ PyStr.index_of "." s = None.
Proof.
  unfold dotless, PyStr.find.
  destruct (PyStr.index_of "." s); simpl; split; (done || lia).
Qed.

Lemma dotless_rfind s : dotless s ↔ PyStr.rfind "." s = (-1)%Z.
Proof.
  rewrite dotless_alt, index_of_rindex_of. unfold PyStr.rfind.
  destruct (PyStr.rindex_of "." s); simpl; split; (done || lia).
Qed.

Lemma find_app_dot x y :
  dotless x → PyStr.find "." (x +:+ "." +:+ y) = Z.of_nat (String.length x).
Proof.
  rewrite dotless_alt. intros Hx. unfold PyStr.find.
  change ("." +:+ y) with (String "." y). by rewrite index_of_app_l.
Qed.

Lemma rfind_app_dot x y :
  dotless y → PyStr.rfind "." (x +:+ "." +:+ y) = Z.of_nat (String.length x).
Proof.
  rewrite dotless_alt, index_of_rindex_of. intros Hy. unfold PyStr.rfind.
  change ("." +:+ y) with (String "." y). by rewrite rindex_of_app_r.
Qed.

Lemma slice_to_app_dot x y :
  PyStr.slice_to (x +:+ "." +:+ y) (Z.of_nat (String.length x)) = x.
Proof.
  unfold PyStr.slice_to. rewrite clip_nonneg, str_take_app; [done|].
  rewrite str_length_app. lia.
Qed.

Lemma slice_from_app_dot x y :
  PyStr.slice_from (x +:+ "." +:+ y) (Z.of_nat (String.length x) + 1) = y.
Proof.
  unfold PyStr.slice_from.
  replace (Z.of_nat (String.length x) + 1)%Z
    with (Z.of_nat (String.length (x +:+ "."))) by (rewrite str_length_app; simpl; lia).
  rewrite clip_nonneg by (rewrite !str_length_app; simpl; lia).
  by rewrite <-str_app_assoc, str_drop_app.
Qed.

(** When [module.rfind('.')] is not [-1], [module] is its parent, a dot
    and a last segment without dot. *)
Lemma rfind_split s :
  PyStr.rfind "." s ≠ (-1)%Z →
  ∃ seg, dotless seg
         ∧ s = PyStr.slice_to s (PyStr.rfind "." s) +:+ "." +:+ seg
         ∧ String.length (PyStr.slice_to s (PyStr.rfind "." s)) < String.length s.
Proof.
  unfold PyStr.rfind. destruct (PyStr.rindex_of "." s) as [i|] eqn:Hi; [|done].
  intros _. simpl. destruct (rindex_of_Some _ _ _ Hi) as (y & Hs & Hy & Hlt).
  exists y. unfold PyStr.slice_to. rewrite clip_nonneg by lia.
  split_and!; [by apply dotless_alt, index_of_rindex_of|done|].
  rewrite str_length_take; lia.
Qed.

End string_facts.

(** ** The entrypoint aggregator *)

Section aggregator.
Implicit Types (s : ExportedSymbol) (e : _Entrypoint).
Implicit Types (ebm : gmap string (gset _Entrypoint)).

Lemma entrypoint_of_flat pkg s api_name :
  dotless api_name →
  module (entrypoint_of pkg s api_name) = pkg
  ∧ name (entrypoint_of pkg s api_name) = api_name.
Proof.
  intros Hd. pose proof (proj1 (dotless_rfind api_name) Hd) as Hr.
  unfold dotless in Hd. unfold entrypoint_of. rewrite Hr, Hd. simpl. split; [done|].
  unfold PyStr.slice_from, PyStr.clip. simpl. by destruct api_name.
Qed.

Lemma entrypoint_of_one_dot pkg s x y :
  dotless x → dotless y →
  module (entrypoint_of pkg s (x +:+ "." +:+ y)) = pkg.
Proof.
  intros Hx Hy. unfold entrypoint_of.
  rewrite find_app_dot, rfind_app_dot by done. simpl.
  destruct (Z.ltb_spec (Z.of_nat (String.length x) + 1) (Z.of_nat (String.length x)));
    [lia|done].
Qed.

Lemma entrypoint_of_name pkg s x y :
  dotless y → name (entrypoint_of pkg s (x +:+ "." +:+ y)) = y.
Proof.
  intros Hy. unfold entrypoint_of. simpl.
  rewrite rfind_app_dot by done. apply slice_from_app_dot.
Qed.

Lemma entrypoint_of_middle pkg s x mid y :
  dotless x → dotless y → mid ≠ "" →
  module (entrypoint_of pkg s (x +:+ "." +:+ mid +:+ "." +:+ y))
  = pkg +:+ "." +:+ mid.
Proof.
  intros Hx Hy Hmid. unfold entrypoint_of. simpl.
  rewrite find_app_dot by done.
  replace (x +:+ "." +:+ mid +:+ "." +:+ y)
    with ((x +:+ "." +:+ mid) +:+ "." +:+ y) by by rewrite !str_app_assoc.
  rewrite rfind_app_dot by done.
  assert (0 < String.length mid) by (destruct mid; [done|simpl; lia]).
  rewrite !str_length_app. simpl String.length.
  destruct (Z.ltb_spec (Z.of_nat (String.length x) + 1)
              (Z.of_nat (String.length x + (1 + String.length mid)))); [|lia].
  do 2 f_equal. unfold PyStr.slice.
  replace (Z.of_nat (String.length x) + 1)%Z
    with (Z.of_nat (String.length (x +:+ "."))) by (rewrite str_length_app; simpl; lia).
  rewrite !clip_nonneg by (rewrite !str_length_app; simpl; lia).
  rewrite !str_app_assoc.
  replace (x +:+ "." +:+ mid +:+ "." +:+ y)
    with ((x +:+ ".") +:+ mid +:+ "." +:+ y) by by rewrite !str_app_assoc.
  rewrite str_drop_app, str_length_app. simpl String.length.
  replace (String.length x + (1 + String.length mid) - (String.length x + 1))
    with (String.length mid) by lia.
  apply str_take_app.
Qed.

Lemma entrypoints_at_add_entrypoint ebm e k e' :
  e' ∈ entrypoints_at (add_entrypoint ebm e) k
  ↔ e' ∈ entrypoints_at ebm k ∨ (e' = e ∧ k = module e).
Proof.
  unfold add_entrypoint, entrypoints_at at 1.
  destruct (decide (k = module e)) as [->|Hne].
  - rewrite lookup_insert_eq. simpl. set_solver.
  - rewrite lookup_insert_ne by done. fold (entrypoints_at ebm k). naive_solver.
Qed.

Lemma entrypoints_at_add_exported_symbols pkg api_names s ebm k e :
  e ∈ entrypoints_at (add_exported_symbols pkg api_names s ebm) k
  ↔ e ∈ entrypoints_at ebm k
    ∨ ∃ api_name, api_name ∈ api_names
                  ∧ e = entrypoint_of pkg s api_name ∧ k = module e.
Proof.
  unfold add_exported_symbols. revert ebm.
  induction api_names as [|a api_names IH]; intros ebm; simpl.
  - set_solver.
  - rewrite IH, entrypoints_at_add_entrypoint. set_solver.
Qed.

Lemma dom_add_exported_symbols pkg api_names s ebm k :
  k ∈ dom (add_exported_symbols pkg api_names s ebm)
  ↔ k ∈ dom ebm
    ∨ ∃ api_name, api_name ∈ api_names
                  ∧ k = module (entrypoint_of pkg s api_name).
Proof.
  unfold add_exported_symbols. revert ebm.
  induction api_names as [|a api_names IH]; intros ebm; simpl.
  - set_solver.
  - rewrite IH. unfold add_entrypoint. rewrite dom_insert. set_solver.
Qed.

Lemma aggregate_symbols_spec symbols strip ignore pkg prefix k e :
  let r := aggregate_symbols symbols strip ignore pkg prefix in
  (e ∈ entrypoints_at r.1 k ↔ aggregated symbols strip ignore pkg prefix v1_apis k e)
  ∧ (e ∈ entrypoints_at r.2 k ↔ aggregated symbols strip ignore pkg prefix v2_apis k e).
Proof.
  unfold aggregate_symbols, aggregated.
  cut (∀ v1 v2,
    let r := foldl (λ '(v1, v2) s,
         if _should_skip_file (file_name s) strip ignore prefix
         then (v1, v2)
         else (add_exported_symbols pkg (v1_apis s) s v1,
               add_exported_symbols pkg (v2_apis s) s v2)) (v1, v2) symbols in
    (e ∈ entrypoints_at r.1 k ↔ e ∈ entrypoints_at v1 k ∨
       ∃ s api_name, s ∈ symbols
         ∧ _should_skip_file (file_name s) strip ignore prefix = false
         ∧ api_name ∈ v1_apis s ∧ e = entrypoint_of pkg s api_name ∧ k = module e)
    ∧ (e ∈ entrypoints_at r.2 k ↔ e ∈ entrypoints_at v2 k ∨
       ∃ s api_name, s ∈ symbols
         ∧ _should_skip_file (file_name s) strip ignore prefix = false
         ∧ api_name ∈ v2_apis s ∧ e = entrypoint_of pkg s api_name ∧ k = module e)).
  { intros H. specialize (H ∅ ∅). simpl in H.
    unfold entrypoints_at at 2 4 in H. rewrite lookup_empty in H. simpl in H.
    destruct H as [H1 H2]. split; [rewrite H1|rewrite H2]; set_solver. }
  induction symbols as [|s symbols IH]; intros v1 v2; simpl.
  - set_solver.
  - destruct (_should_skip_file (file_name s) strip ignore prefix) eqn:Hskip.
    + destruct (IH v1 v2) as [IH1 IH2]. rewrite IH1, IH2.
      split; (split; [intros [?|(s'&a&?&?&?)]; [by left|right; exists s', a; set_solver]
                     |intros [?|(s'&a&Hs&?&?)]; [by left|]]);
        apply elem_of_cons in Hs as [->|?]; [congruence|right; eauto|congruence|right; eauto].
    + destruct (IH (add_exported_symbols pkg (v1_apis s) s v1)
                   (add_exported_symbols pkg (v2_apis s) s v2)) as [IH1 IH2].
      rewrite IH1, IH2, !entrypoints_at_add_exported_symbols.
      split; (split; [intros [[?|(a&?&?&?)]|(s'&a&?&?&?)];
                        [by left|right; exists s, a; set_solver|right; exists s', a; set_solver]
                     |intros [?|(s'&a&Hs&?&?)]; [by left; left|]]);
        apply elem_of_cons in Hs as [->|?]; [left; right; eauto|right; eauto|left; right; eauto|right; eauto].
Qed.

End aggregator.

Lemma get_public_api_inr symbols docs strip ignore pkg prefix api σ :
  get_public_api symbols docs strip ignore pkg prefix = inr (api, σ) →
  ∃ σ1,
    v1_entrypoints_by_module api = (aggregate_symbols symbols strip ignore pkg prefix).1
    ∧ v2_entrypoints_by_module api = (aggregate_symbols symbols strip ignore pkg prefix).2
    ∧ add_generated_imports (v1_entrypoints_by_module api) (∅, [])
      = (v1_generated_imports_by_module api, σ1)
    ∧ add_generated_imports (v2_entrypoints_by_module api) (∅, σ1)
      = (v2_generated_imports_by_module api, σ)
    ∧ register_docs docs = inr (docs_by_module api).
Proof.
  unfold get_public_api.
  destruct (aggregate_symbols _ _ _ _ _) as [v1 v2].
  destruct (add_generated_imports v1 _) as [g1 σ1] eqn:H1.
  destruct (add_generated_imports v2 _) as [g2 σ2] eqn:H2.
  destruct (register_docs docs) as [e|d]; simpl; [done|].
  intros [= <- <-]. simpl. by exists σ1.
Qed.

Lemma get_public_api_inl symbols docs strip ignore pkg prefix err :
  get_public_api symbols docs strip ignore pkg prefix = inl err →
  register_docs docs = inl err.
Proof.
  unfold get_public_api.
  destruct (aggregate_symbols _ _ _ _ _) as [v1 v2].
  destruct (add_generated_imports v1 _) as [g1 σ1].
  destruct (add_generated_imports v2 _) as [g2 σ2].
  by destruct (register_docs docs) as [e|d]; simpl; intros [= <-].
Qed.

Lemma _should_skip_file_true strip ignore prefix s :
  _should_skip_file (file_name s) strip ignore prefix = true
  ↔ ignored strip ignore prefix s.
Proof.
  unfold _should_skip_file, ignored. rewrite existsb_exists.
  by setoid_rewrite list_elem_of_In.
Qed.

(** C6: the containing module of an entrypoint is a function of the public
    name alone: the output package followed by a dot and the part of the
    name strictly between its first and last dot when that part is not
    empty, the output package alone for a name with no dot or one dot; the
    exposed name is the part after the last dot (the whole name when it has
    no dot).  The aggregator processes every public name this way:
    [add_exported_symbols] adds, for every name of the list and for no
    other, the entrypoint so placed, under its module; and the version-1
    (version-2) dictionary of the public API holds exactly the entrypoints
    of the version-1 (version-2) names of the symbols that are not
    skipped. *)
Theorem entrypoint_module_from_name :
  (∀ pkg s api_name,
     placed_by_name pkg api_name (entrypoint_of pkg s api_name)
     ∧ exported_symbol (entrypoint_of pkg s api_name) = s)
  ∧ (∀ pkg s s' api_name,
       module (entrypoint_of pkg s api_name) = module (entrypoint_of pkg s' api_name)
       ∧ name (entrypoint_of pkg s api_name) = name (entrypoint_of pkg s' api_name))
  ∧ (∀ pkg api_names s ebm k e,
       e ∈ entrypoints_at (add_exported_symbols pkg api_names s ebm) k
       ↔ e ∈ entrypoints_at ebm k
         ∨ ∃ api_name, api_name ∈ api_names
             ∧ placed_by_name pkg api_name e
             ∧ e = entrypoint_of pkg s api_name ∧ k = module e)
  ∧ (∀ symbols docs strip ignore pkg prefix api σ k e,
       get_public_api symbols docs strip ignore pkg prefix = inr (api, σ) →
       (e ∈ entrypoints_at (v1_entrypoints_by_module api) k
        ↔ ∃ s api_name,
            s ∈ symbols
            ∧ _should_skip_file (file_name s) strip ignore prefix = false
            ∧ api_name ∈ v1_apis s
            ∧ placed_by_name pkg api_name e
            ∧ e = entrypoint_of pkg s api_name ∧ k = module e)
       ∧ (e ∈ entrypoints_at (v2_entrypoints_by_module api) k
          ↔ ∃ s api_name,
              s ∈ symbols
              ∧ _should_skip_file (file_name s) strip ignore prefix = false
              ∧ api_name ∈ v2_apis s
              ∧ placed_by_name pkg api_name e
              ∧ e = entrypoint_of pkg s api_name ∧ k = module e)).
Proof.
  assert (∀ pkg s api_name, placed_by_name pkg api_name (entrypoint_of pkg s api_name))
    as Hplaced.
  { intros pkg s api_name. unfold placed_by_name. split_and!.
    - intros x mid y ??? ->. by apply entrypoint_of_middle.
    - intros ?. by apply entrypoint_of_flat.
    - intros x y ?? ->. by apply entrypoint_of_one_dot.
    - intros ?. by apply entrypoint_of_flat.
    - intros x y ? ->. by apply entrypoint_of_name. }
  split_and!; [done|done| |].
  - intros pkg api_names s ebm k e.
    rewrite entrypoints_at_add_exported_symbols. split.
    + intros [?|(a & ? & -> & ->)]; [by left|right]. exists a. by split_and!.
    + intros [?|(a & ? & _ & ? & ?)]; [by left|right]. by exists a.
  - intros symbols docs strip ignore pkg prefix api σ k e Hapi.
    apply get_public_api_inr in Hapi as (σ1 & Hv1 & Hv2 & _).
    destruct (aggregate_symbols_spec symbols strip ignore pkg prefix k e) as [H1 H2].
    rewrite <-Hv1 in H1. rewrite <-Hv2 in H2. unfold aggregated in H1, H2.
    rewrite H1, H2. split; split.
    + intros (s & a & ? & ? & ? & -> & ->). exists s, a. by split_and!.
    + intros (s & a & ? & ? & ? & _ & ? & ?). by exists s, a.
    + intros (s & a & ? & ? & ? & -> & ->). exists s, a. by split_and!.
    + intros (s & a & ? & ? & ? & _ & ? & ?). by exists s, a.
Qed.

Lemma entrypoint_module_from_name_witness :
  match get_public_api [sym_GFile] [] [] [] "tf" "" with
  | inr (api, σ) =>
      entrypoint_of "tf" sym_GFile "v2.io.gfile.GFile"
        ∈ entrypoints_at (v2_entrypoints_by_module api) "tf.io.gfile"
      ∧ entrypoint_of "tf" sym_GFile "v1.gfile.GFile"
          ∈ entrypoints_at (v1_entrypoints_by_module api) "tf.gfile"
      ∧ module (entrypoint_of "tf" sym_GFile "v2.io.gfile.GFile") = "tf.io.gfile"
      ∧ name (entrypoint_of "tf" sym_GFile "v2.io.gfile.GFile") = "GFile"
      ∧ module (entrypoint_of "tf" sym_GFile "v2.GFile") = "tf"
      ∧ module (entrypoint_of "tf" sym_GFile "GFile") = "tf"
  | inl _ => False
  end.
Proof.
  destruct entrypoint_module_from_name as (H & _ & _ & Hagg).
  destruct (get_public_api [sym_GFile] [] [] [] "tf" "") as [err|[api σ]] eqn:Hapi.
  - apply get_public_api_inl in Hapi. discriminate Hapi.
  - split_and!.
    + apply (proj2 (Hagg _ _ _ _ _ _ _ _ "tf.io.gfile"
                      (entrypoint_of "tf" sym_GFile "v2.io.gfile.GFile") Hapi)).
      exists sym_GFile, "v2.io.gfile.GFile".
      split_and!; [by left|reflexivity|by left|apply H|reflexivity|reflexivity].
    + apply (proj1 (Hagg _ _ _ _ _ _ _ _ "tf.gfile"
                      (entrypoint_of "tf" sym_GFile "v1.gfile.GFile") Hapi)).
      exists sym_GFile, "v1.gfile.GFile".
      split_and!; [by left|reflexivity|by right; left|apply H|reflexivity|reflexivity].
    + apply (proj1 (proj1 (H "tf" sym_GFile "v2.io.gfile.GFile")) "v2" "io.gfile" "GFile");
        reflexivity || done.
    + apply (proj2 (proj2 (proj2 (proj2 (proj1 (H "tf" sym_GFile "v2.io.gfile.GFile")))))
               "v2.io.gfile" "GFile"); reflexivity.
    + apply (proj1 (proj2 (proj2 (proj1 (H "tf" sym_GFile "v2.GFile")))) "v2" "GFile");
        reflexivity.
    + apply (proj1 (proj2 (proj1 (H "tf" sym_GFile "GFile")))). reflexivity.
Defined.

(** C5: a symbol whose normalized import path starts with an ignored
    package prefix has no entrypoint in the version-1 dictionary nor in the
    version-2 dictionary of the public API. *)
Theorem ignored_symbol_has_no_entrypoint
    symbols docs strip ignore pkg prefix api σ s k e :
  get_public_api symbols docs strip ignore pkg prefix = inr (api, σ) →
  ignored strip ignore prefix s →
  e ∈ entrypoints_at (v1_entrypoints_by_module api) k
  ∨ e ∈ entrypoints_at (v2_entrypoints_by_module api) k →
  exported_symbol e ≠ s.
Proof.
  intros Hapi Hign He Heq.
  apply get_public_api_inr in Hapi as (σ1 & Hv1 & Hv2 & _).
  destruct (aggregate_symbols_spec symbols strip ignore pkg prefix k e) as [H1 H2].
  rewrite <-Hv1 in H1. rewrite <-Hv2 in H2.
  apply _should_skip_file_true in Hign.
  destruct He as [He|He]; [apply H1 in He|apply H2 in He];
    destruct He as (s' & a & _ & Hskip & _ & -> & _); simpl in Heq; congruence.
Qed.

Lemma ignored_symbol_has_no_entrypoint_witness :
  ignored [] ["tensorflow.lite"] "" sym_lite
  ∧ match get_public_api [sym_lite; sym_GFile] [] [] ["tensorflow.lite"] "tf" "" with
    | inr (api, σ) =>
        ∀ k e, e ∈ entrypoints_at (v1_entrypoints_by_module api) k
               ∨ e ∈ entrypoints_at (v2_entrypoints_by_module api) k →
               exported_symbol e ≠ sym_lite
    | inl _ => False
    end.
Proof.
  assert (ignored [] ["tensorflow.lite"] "" sym_lite) as Hign.
  { exists "tensorflow.lite". split; [apply list_elem_of_singleton; reflexivity|reflexivity]. }
  split; [exact Hign|].
  destruct (get_public_api [sym_lite; sym_GFile] [] [] ["tensorflow.lite"] "tf" "")
    as [err|[api σ]] eqn:Hapi.
  - apply get_public_api_inl in Hapi. discriminate Hapi.
  - intros k e. exact (ignored_symbol_has_no_entrypoint _ _ _ _ _ _ _ _ _ k e Hapi Hign).
Defined.

(** ** The store and the ancestor linker *)

Section linker.
Implicit Types (d : import_dict) (σ : store) (k x : string).

Lemma set_at_alter f σ l l' :
  set_at (alter f l σ) l' =
  if decide (l = l' ∧ l < length σ) then f (set_at σ l') else set_at σ l'.
Proof.
  unfold set_at. rewrite list_lookup_alter.
  destruct (decide (l = l')) as [->|Hne].
  - destruct (σ !! l') eqn:Hl; [apply lookup_lt_Some in Hl|apply lookup_ge_None in Hl];
      case_decide; simpl; try done; exfalso; naive_solver lia.
  - rewrite decide_False by tauto. done.
Qed.

Lemma set_at_app σ σ' l : l < length σ → set_at (σ ++ σ') l = set_at σ l.
Proof. intros. unfold set_at. by rewrite lookup_app_l. Qed.

Lemma set_at_ge σ l : length σ ≤ l → set_at σ l = ∅.
Proof. intros. unfold set_at. by rewrite lookup_ge_None_2. Qed.

Lemma add_import_spec base parent module d σ :
  wf_imports base d σ → base ≤ length σ →
  let g' := add_import parent module (d, σ) in
  wf_imports base g'.1 g'.2
  ∧ length σ ≤ length g'.2
  ∧ (∀ l, l < base → g'.2 !! l = σ !! l)
  ∧ (∀ k, imports_of g'.1 g'.2 k =
          if decide (k = parent) then {[module]} ∪ imports_of d σ parent
          else imports_of d σ k).
Proof.
  intros [Hrange Hinj] Hbase. unfold add_import, dd_getitem, set_add. cbn [fst snd].
  destruct (d !! parent) as [l|] eqn:Hp; cbn [fst snd].
  - destruct (Hrange _ _ Hp) as [Hl1 Hl2]. split_and!.
    + split; [|done]. intros k l' Hk. rewrite length_alter. eauto.
    + by rewrite length_alter.
    + intros l' Hl'. rewrite list_lookup_alter, decide_False by lia. done.
    + intros k. unfold imports_of. destruct (decide (k = parent)) as [->|Hne].
      * rewrite Hp. simpl. rewrite set_at_alter, decide_True; done.
      * destruct (d !! k) as [l'|] eqn:Hk; simpl; [|done].
        rewrite set_at_alter, decide_False; [done|].
        intros [-> _]. apply Hne. eauto.
  - split_and!.
    + split.
      * intros k l'. rewrite length_alter, length_app. simpl.
        destruct (decide (k = parent)) as [->|Hne].
        -- rewrite lookup_insert_eq. intros [= <-]. lia.
        -- rewrite lookup_insert_ne by done. intros Hk.
           apply Hrange in Hk. lia.
      * intros k1 k2 l'.
        destruct (decide (k1 = parent)) as [->|Hne1], (decide (k2 = parent)) as [->|Hne2];
          rewrite ?lookup_insert_eq, ?lookup_insert_ne by done; try done.
        -- intros [= <-] Hk. apply Hrange in Hk. lia.
        -- intros Hk [= <-]. apply Hrange in Hk. lia.
        -- apply Hinj.
    + rewrite length_alter, length_app. lia.
    + intros l' Hl'. rewrite list_lookup_alter, decide_False by lia.
      apply lookup_app_l. lia.
    + intros k. unfold imports_of. destruct (decide (k = parent)) as [->|Hne].
      * rewrite lookup_insert_eq, Hp. simpl.
        rewrite set_at_alter, decide_True by (rewrite length_app; simpl; lia).
        unfold set_at. rewrite lookup_app_r, Nat.sub_diag by lia. done.
      * rewrite lookup_insert_ne by done.
        destruct (d !! k) as [l'|] eqn:Hk; simpl; [|done].
        apply Hrange in Hk.
        rewrite set_at_alter, decide_False by lia.
        apply set_at_app. lia.
Qed.

Lemma app_dot_inj p p' seg seg' :
  dotless seg → dotless seg' →
  p +:+ "." +:+ seg = p' +:+ "." +:+ seg' → p = p' ∧ seg = seg'.
Proof.
  intros Hs Hs' Heq.
  assert (p = p') as ->.
  { rewrite <-(slice_to_app_dot p seg), <-(slice_to_app_dot p' seg').
    rewrite <-(rfind_app_dot p seg), <-(rfind_app_dot p' seg') by done.
    by rewrite Heq. }
  split; [done|]. by apply (inj (String.app p')), (inj (String.app ".")) in Heq.
Qed.

Lemma chain_edge_inv p seg k x :
  dotless seg →
  chain_edge (p +:+ "." +:+ seg) k x
  ↔ (k = p ∧ x = p +:+ "." +:+ seg) ∨ chain_edge p k x.
Proof.
  intros Hseg. split.
  - inversion 1 as [p' seg' Hs' Heq|p' seg' k' x' Hs' Hc Heq]; subst.
    + apply app_dot_inj in Heq as [-> ->]; auto.
    + apply app_dot_inj in Heq as [-> ->]; auto.
  - intros [[-> ->]|?]; [by apply chain_here|by apply chain_up].
Qed.

Lemma chain_edge_dotless m k x : PyStr.rfind "." m = (-1)%Z → ¬ chain_edge m k x.
Proof.
  intros Hm. inversion 1; subst; rewrite rfind_app_dot in Hm by done; lia.
Qed.

(** Every edge of a chain links a module to a child that is one dotless
    segment longer. *)
Lemma chain_edge_child m k x :
  chain_edge m k x → ∃ seg, dotless seg ∧ x = k +:+ "." +:+ seg.
Proof. induction 1; eauto. Qed.

Lemma dotted_snoc pre s :
  pre ≠ [] → dotted (pre ++ [s]) = dotted pre +:+ "." +:+ s.
Proof.
  induction pre as [|a [|b pre] IH]; intros Hne; [done|done|].
  change (dotted ((a :: b :: pre) ++ [s]))
    with (a +:+ "." +:+ dotted ((b :: pre) ++ [s])).
  rewrite IH by done.
  change (dotted (a :: b :: pre)) with (a +:+ "." +:+ dotted (b :: pre)).
  by rewrite !str_app_assoc.
Qed.

(** The chain of a module written with dotless segments holds the edge
    from every proper prefix to the prefix one segment longer. *)
Lemma chain_edge_dotted pre s post :
  pre ≠ [] → Forall dotless (s :: post) →
  chain_edge (dotted (pre ++ s :: post)) (dotted pre) (dotted (pre ++ [s])).
Proof.
  intros Hpre. induction post as [|t post IH] using rev_ind; intros Hd.
  - rewrite dotted_snoc by done. apply chain_here. by inversion Hd.
  - replace (pre ++ s :: post ++ [t]) with ((pre ++ s :: post) ++ [t])
      by by rewrite <-app_assoc.
    rewrite dotted_snoc by by destruct pre.
    rewrite app_comm_cons in Hd. apply Forall_app in Hd as [Hd Ht].
    apply chain_up; [by inversion Ht|by apply IH].
Qed.

Lemma link_ancestors_spec base fuel module d σ :
  wf_imports base d σ → base ≤ length σ → String.length module ≤ fuel →
  let g' := link_ancestors fuel module (PyStr.rfind "." module) (d, σ) in
  wf_imports base g'.1 g'.2
  ∧ length σ ≤ length g'.2
  ∧ (∀ l, l < base → g'.2 !! l = σ !! l)
  ∧ (∀ k x, x ∈ imports_of g'.1 g'.2 k
            ↔ x ∈ imports_of d σ k ∨ chain_edge module k x).
Proof.
  revert module d σ. induction fuel as [|fuel IH]; intros module d σ Hwf Hbase Hlen.
  - destruct module; [|simpl in Hlen; lia]. simpl.
    split_and!; [done|done|done|]. intros k x. split; [by left|].
    intros [?|Hc]; [done|]. by apply chain_edge_dotless in Hc.
  - simpl. case_decide as Hi.
    + simpl. split_and!; [done|done|done|]. intros k x. split; [by left|].
      intros [?|Hc]; [done|]. by apply chain_edge_dotless in Hc.
    + destruct (rfind_split module Hi) as (seg & Hseg & Hmod & Hlt).
      set (parent := PyStr.slice_to module (PyStr.rfind "." module)) in *.
      destruct (add_import parent module (d, σ)) as [d1 σ1] eqn:Hadd.
      destruct (add_import_spec base parent module d σ Hwf Hbase)
        as (Hwf1 & Hlen1 & Hpre1 & Himp1).
      rewrite Hadd in Hwf1, Hlen1, Hpre1, Himp1. simpl in Hwf1, Hlen1, Hpre1, Himp1.
      destruct (IH parent d1 σ1 Hwf1 ltac:(lia) ltac:(lia))
        as (Hwf2 & Hlen2 & Hpre2 & Himp2).
      split_and!; [done|lia|by intros l Hl; rewrite Hpre2, Hpre1|].
      intros k x. rewrite Himp2, Himp1.
      pose proof (chain_edge_inv parent seg k x Hseg) as Hce.
      rewrite <-Hmod in Hce. rewrite Hce.
      case_decide as Hk; [subst k|]; set_solver.
Qed.

Lemma elem_of_dict_keys {V} (m : gmap string V) k : k ∈ dict_keys m ↔ k ∈ dom m.
Proof.
  unfold dict_keys. rewrite elem_of_dom, list_elem_of_fmap. split.
  - intros ([k' v] & -> & Hkv). apply elem_of_map_to_list in Hkv. by exists v.
  - intros [v Hv]. exists (k, v). split; [done|]. by apply elem_of_map_to_list.
Qed.

Lemma add_generated_imports_spec base ebm d σ :
  wf_imports base d σ → base ≤ length σ →
  let g' := add_generated_imports ebm (d, σ) in
  wf_imports base g'.1 g'.2
  ∧ length σ ≤ length g'.2
  ∧ (∀ l, l < base → g'.2 !! l = σ !! l)
  ∧ (∀ k x, x ∈ imports_of g'.1 g'.2 k
            ↔ x ∈ imports_of d σ k ∨ ∃ m, m ∈ dom ebm ∧ chain_edge m k x).
Proof.
  unfold add_generated_imports.
  setoid_rewrite <-(elem_of_dict_keys ebm).
  generalize (dict_keys ebm) as keys. intros keys. revert d σ.
  induction keys as [|m keys IH]; intros d σ Hwf Hbase; simpl.
  - split_and!; [done|done|done|]. set_solver.
  - set (g1 := if decide (PyStr.rfind "." m = (-1)%Z) then (d, σ)
               else link_ancestors (String.length m) m (PyStr.rfind "." m) (d, σ)).
    assert (wf_imports base g1.1 g1.2 ∧ length σ ≤ length g1.2
            ∧ (∀ l, l < base → g1.2 !! l = σ !! l)
            ∧ (∀ k x, x ∈ imports_of g1.1 g1.2 k
                      ↔ x ∈ imports_of d σ k ∨ chain_edge m k x))
      as (Hwf1 & Hlen1 & Hpre1 & Himp1).
    { subst g1. case_decide as Hi.
      - simpl. split_and!; [done|done|done|]. intros k x. split; [by left|].
        intros [?|Hc]; [done|]. by apply chain_edge_dotless in Hc.
      - by apply link_ancestors_spec. }
    destruct g1 as [d1 σ1]. simpl in *.
    destruct (IH d1 σ1 Hwf1 ltac:(lia)) as (Hwf2 & Hlen2 & Hpre2 & Himp2).
    split_and!; [done|lia|by intros l Hl; rewrite Hpre2, Hpre1|].
    intros k x. rewrite Himp2, Himp1. set_solver.
Qed.

Lemma wf_imports_empty σ : wf_imports (length σ) ∅ σ.
Proof. split; intros ?; intros; simplify_map_eq. Qed.

Lemma imports_of_prefix base d σ σ' k :
  (∀ l, l < base → σ' !! l = σ !! l) →
  (∀ k l, d !! k = Some l → l < base) →
  imports_of d σ' k = imports_of d σ k.
Proof.
  intros Hpre Hd. unfold imports_of. destruct (d !! k) as [l|] eqn:Hk; simpl; [|done].
  unfold set_at. by rewrite Hpre by eauto.
Qed.

(** The generated imports of either version of the public API are the
    chain edges of the modules that have entrypoints. *)
Lemma generated_imports_spec symbols docs strip ignore pkg prefix api σ ebm g k x :
  get_public_api symbols docs strip ignore pkg prefix = inr (api, σ) →
  is_view api ebm g →
  x ∈ imports_of g σ k ↔ ∃ m, m ∈ dom ebm ∧ chain_edge m k x.
Proof.
  intros Hapi Hview.
  apply get_public_api_inr in Hapi as (σ1 & _ & _ & H1 & H2 & _).
  destruct (add_generated_imports_spec 0 (v1_entrypoints_by_module api) ∅ []
              (wf_imports_empty []) ltac:(done)) as (Hwf1 & _ & _ & Himp1).
  rewrite H1 in Hwf1, Himp1. simpl in Hwf1, Himp1.
  destruct (add_generated_imports_spec (length σ1) (v2_entrypoints_by_module api) ∅ σ1
              (wf_imports_empty σ1) ltac:(done)) as (Hwf2 & _ & Hpre2 & Himp2).
  rewrite H2 in Hwf2, Hpre2, Himp2. simpl in Hwf2, Hpre2, Himp2.
  destruct Hview as [[-> ->]|[-> ->]].
  - rewrite (imports_of_prefix (length σ1) _ σ1 σ).
    + rewrite Himp1. unfold imports_of. rewrite lookup_empty. set_solver.
    + done.
    + intros k' l Hk'. apply Hwf1 in Hk'. lia.
  - rewrite Himp2. unfold imports_of. rewrite lookup_empty. set_solver.
Qed.

End linker.

(** C1, as amended: for a module [a.b.c] with entrypoints the generated
    imports hold the edges from [a] to [a.b] and from [a.b] to [a.b.c], and
    not the edge from [a] to [a.b.c].  In general every ancestor prefix of
    a module with entrypoints has an edge to its child on the way to that
    module, and every generated import is an edge from a module to a child
    one segment longer. *)
Theorem ancestors_import_their_children
    symbols docs strip ignore pkg prefix api σ ebm g :
  get_public_api symbols docs strip ignore pkg prefix = inr (api, σ) →
  is_view api ebm g →
  (∀ a b c, dotless a → dotless b → dotless c →
     a +:+ "." +:+ b +:+ "." +:+ c ∈ dom ebm →
     a +:+ "." +:+ b ∈ imports_of g σ a
     ∧ a +:+ "." +:+ b +:+ "." +:+ c ∈ imports_of g σ (a +:+ "." +:+ b)
     ∧ a +:+ "." +:+ b +:+ "." +:+ c ∉ imports_of g σ a)
  ∧ (∀ pre s post, pre ≠ [] → Forall dotless (s :: post) →
       dotted (pre ++ s :: post) ∈ dom ebm →
       dotted (pre ++ [s]) ∈ imports_of g σ (dotted pre))
  ∧ (∀ k x, x ∈ imports_of g σ k → ∃ seg, dotless seg ∧ x = k +:+ "." +:+ seg).
Proof.
  intros Hapi Hview.
  pose proof (λ k x, generated_imports_spec _ _ _ _ _ _ _ _ _ _ k x Hapi Hview) as Hspec.
  assert (∀ pre s post, pre ≠ [] → Forall dotless (s :: post) →
            dotted (pre ++ s :: post) ∈ dom ebm →
            dotted (pre ++ [s]) ∈ imports_of g σ (dotted pre)) as Hchain.
  { intros pre s post Hpre Hd Hdom. apply Hspec.
    exists (dotted (pre ++ s :: post)). split; [done|]. by apply chain_edge_dotted. }
  assert (∀ k x, x ∈ imports_of g σ k → ∃ seg, dotless seg ∧ x = k +:+ "." +:+ seg)
    as Hchild.
  { intros k x (m & _ & Hc)%Hspec. by apply chain_edge_child in Hc. }
  split_and!; [|done|done].
  intros a b c Ha Hb Hc Hdom. split_and!.
  - apply (Hchain [a] b [c]); [done|by repeat constructor|done].
  - apply (Hchain [a; b] c []); [done|by repeat constructor|done].
  - intros (seg & Hseg & Heq)%Hchild.
    apply (inj (String.app a)), (inj (String.app ".")) in Heq. subst seg.
    unfold dotless in Hseg. rewrite find_app_dot in Hseg by done. lia.
Qed.

Lemma ancestors_import_their_children_witness :
  match get_public_api [sym_abc] [] [] [] "a" "" with
  | inr (api, σ) =>
      "a.b" ∈ imports_of (v2_generated_imports_by_module api) σ "a"
      ∧ "a.b.c" ∈ imports_of (v2_generated_imports_by_module api) σ "a.b"
      ∧ "a.b.c" ∉ imports_of (v2_generated_imports_by_module api) σ "a"
  | inl _ => False
  end.
Proof.
  destruct (get_public_api [sym_abc] [] [] [] "a" "") as [err|[api σ]] eqn:Hapi.
  - apply get_public_api_inl in Hapi. discriminate Hapi.
  - assert (is_view api (v2_entrypoints_by_module api)
              (v2_generated_imports_by_module api)) as Hview
      by (right; split; reflexivity).
    assert ("a.b.c" ∈ dom (v2_entrypoints_by_module api)) as Hdom.
    { destruct (get_public_api_inr _ _ _ _ _ _ _ _ Hapi) as (σ1 & _ & -> & _).
      vm_compute. reflexivity. }
    exact (proj1 (ancestors_import_their_children _ _ _ _ _ _ _ _ _ _ Hapi Hview)
             "a" "b" "c" eq_refl eq_refl eq_refl Hdom).
Defined.

(** C1 as stated fails: in the public API of one symbol exported as
    [v2.b.c.f] under the output package [a], module [a.b.c] has an
    entrypoint and [a] has no generated import of [a.b.c]. *)
Lemma ancestor_edge_to_grandchild_missing :
  match get_public_api [sym_abc] [] [] [] "a" "" with
  | inr (api, σ) =>
      "a.b.c" ∈ dom (v2_entrypoints_by_module api)
      ∧ "a.b.c" ∉ imports_of (v2_generated_imports_by_module api) σ "a"
  | inl _ => False
  end.
Proof. vm_compute. split; [reflexivity|intros [=]]. Qed.

(** ** The docstring resolver *)

Section docs.
Implicit Types (D : gmap string string) (d : ExportedDoc) (m : string).

Lemma startswith_app s x : PyStr.startswith (s +:+ x) s = true.
Proof.
  induction s as [|a s IH]; [done|]. rewrite str_app_String. simpl.
  by rewrite bool_decide_eq_true_2, IH.
Qed.

Lemma contains_app_r a s sub :
  PyStr.contains s sub = true → PyStr.contains (a +:+ s) sub = true.
Proof.
  intros Hs. induction a as [|c a IH]; [done|].
  rewrite str_app_String. simpl. rewrite IH. apply orb_true_r.
Qed.

Lemma contains_middle a b c : PyStr.contains (a +:+ b +:+ c) b = true.
Proof.
  apply contains_app_r. destruct (b +:+ c) eqn:Heq.
  - destruct b; [done|]. by rewrite str_app_String in Heq.
  - rewrite <-Heq. simpl. rewrite Heq at 1. simpl. rewrite <-Heq.
    by rewrite startswith_app.
Qed.

Lemma doc_exported_twice_msg_identifies d m :
  identifies (doc_exported_twice_msg d m) d
  ∧ PyStr.contains (doc_exported_twice_msg d m) m = true.
Proof.
  unfold identifies, doc_exported_twice_msg. split.
  - set (R := " is registered for " +:+ m +:+ _).
    replace (doc_file_name d +:+ ":" +:+ pretty (doc_line_no d) +:+ R)
      with ((doc_file_name d +:+ ":" +:+ pretty (doc_line_no d)) +:+ R)
      by (by rewrite !str_app_assoc).
    apply contains_middle.
  - do 4 apply contains_app_r. apply contains_middle.
Qed.

(** The loop over the modules of one Doc record. *)
Lemma register_modules_spec d D ms :
  match for_each (λ docs m,
              if decide (m ∈ dom docs)
              then inl (DocExportedTwiceError (doc_exported_twice_msg d m))
              else inr (<[m := docstring d]> docs)) D ms with
  | inr D' =>
      NoDup ms ∧ (∀ m, m ∈ ms → m ∉ dom D)
      ∧ dom D' = dom D ∪ list_to_set ms
  | inl err =>
      ∃ seen m rest, ms = seen ++ m :: rest
        ∧ (m ∈ dom D ∨ m ∈ seen)
        ∧ err = DocExportedTwiceError (doc_exported_twice_msg d m)
  end.
Proof.
  revert D. induction ms as [|m ms IH]; intros D; simpl.
  - split_and!; [constructor|set_solver|set_solver].
  - case_decide as Hm; simpl.
    + exists [], m, ms. auto.
    + specialize (IH (<[m := docstring d]> D)).
      destruct (for_each _ _ ms) as [err|D'].
      * destruct IH as (seen & m' & rest & -> & Hin & ->).
        exists (m :: seen), m', rest. split_and!; [done| |done].
        rewrite dom_insert_L in Hin. set_solver.
      * destruct IH as (Hnd & Hdisj & Hdom). rewrite dom_insert_L in Hdisj, Hdom.
        split_and!.
        -- constructor; [|done]. intros Hin. apply Hdisj in Hin. set_solver.
        -- intros m' [->|Hin]%elem_of_cons; [done|]. apply Hdisj in Hin. set_solver.
        -- set_solver.
Qed.

Lemma register_docs_from_spec D docs :
  match for_each register_doc D docs with
  | inr D' =>
      NoDup (all_modules docs) ∧ (∀ m, m ∈ all_modules docs → m ∉ dom D)
      ∧ dom D' = dom D ∪ list_to_set (all_modules docs)
  | inl err =>
      ∃ pre d post seen m rest,
        docs = pre ++ d :: post ∧ doc_modules d = seen ++ m :: rest
        ∧ (m ∈ dom D ∨ m ∈ all_modules pre ++ seen)
        ∧ err = DocExportedTwiceError (doc_exported_twice_msg d m)
  end.
Proof.
  unfold all_modules. revert D. induction docs as [|d docs IH]; intros D; simpl.
  - split_and!; [constructor|set_solver|set_solver].
  - pose proof (register_modules_spec d D (doc_modules d)) as Hd.
    change (for_each _ D (doc_modules d)) with (register_doc D d) in Hd.
    destruct (register_doc D d) as [err|D1]; simpl.
    + destruct Hd as (seen & m & rest & Hms & Hin & ->).
      exists [], d, docs, seen, m, rest. auto.
    + destruct Hd as (Hnd & Hdisj & Hdom). specialize (IH D1).
      destruct (for_each register_doc D1 docs) as [err|D'].
      * destruct IH as (pre & d' & post & seen & m & rest & -> & Hms & Hin & ->).
        exists (d :: pre), d', post, seen, m, rest. split_and!; [done|done| |done].
        rewrite Hdom in Hin. simpl. set_solver.
      * destruct IH as (Hnd' & Hdisj' & Hdom'). rewrite Hdom in Hdisj', Hdom'.
        split_and!.
        -- apply NoDup_app. split_and!; [done| |done].
           intros m Hm Hm'. apply Hdisj' in Hm'. set_solver.
        -- intros m [Hm|Hm]%elem_of_app; [by apply Hdisj|].
           apply Hdisj' in Hm. set_solver.
        -- set_solver.
Qed.

End docs.

(** C4, as amended: docstring registration raises [DocExportedTwiceError]
    exactly when some module name is bound twice (by two Doc records, or
    twice by one record).  The message names the module and the file and
    line of the Doc record being registered when the conflict is found;
    the record that bound the module first is not named.  Doc records whose
    module names are all distinct register without error in every order. *)
Theorem docstring_conflict docs :
  ((∃ err, register_docs docs = inl err) ↔ ¬ NoDup (all_modules docs))
  ∧ (∀ err, register_docs docs = inl err →
       ∃ pre d post seen m rest,
         docs = pre ++ d :: post ∧ doc_modules d = seen ++ m :: rest
         ∧ m ∈ all_modules pre ++ seen
         ∧ err = DocExportedTwiceError (doc_exported_twice_msg d m)
         ∧ identifies (doc_exported_twice_msg d m) d
         ∧ PyStr.contains (doc_exported_twice_msg d m) m = true)
  ∧ (NoDup (all_modules docs) →
     ∀ docs', docs' ≡ₚ docs →
       ∃ r, register_docs docs' = inr r
            ∧ ∀ m, m ∈ dom r ↔ m ∈ all_modules docs).
Proof.
  assert (∀ docs err, register_docs docs = inl err →
       ∃ pre d post seen m rest,
         docs = pre ++ d :: post ∧ doc_modules d = seen ++ m :: rest
         ∧ m ∈ all_modules pre ++ seen
         ∧ err = DocExportedTwiceError (doc_exported_twice_msg d m)) as Herr.
  { intros ds err Hreg. pose proof (register_docs_from_spec ∅ ds) as H.
    unfold register_docs in Hreg. rewrite Hreg in H.
    destruct H as (pre & d & post & seen & m & rest & ? & ? & Hin & ?).
    exists pre, d, post, seen, m, rest. split_and!; try done.
    destruct Hin as [Hin|Hin]; [set_solver|done]. }
  assert (∀ docs r, register_docs docs = inr r →
       NoDup (all_modules docs) ∧ ∀ m, m ∈ dom r ↔ m ∈ all_modules docs) as Hok.
  { intros ds r Hreg. pose proof (register_docs_from_spec ∅ ds) as H.
    unfold register_docs in Hreg. rewrite Hreg in H.
    destruct H as (Hnd & _ & Hdom). split; [done|]. intros m. rewrite Hdom. set_solver. }
  assert (∀ docs, NoDup (all_modules docs) → ∃ r, register_docs docs = inr r) as Hnd.
  { intros ds Hnd. destruct (register_docs ds) as [err|r] eqn:Hreg; [|eauto].
    apply Herr in Hreg as (pre & d & post & seen & m & rest & -> & Hms & Hin & _).
    exfalso. unfold all_modules in Hnd, Hin.
    rewrite bind_app, bind_cons, Hms in Hnd.
    assert (NoDup (((pre ≫= doc_modules) ++ seen)
                   ++ m :: (rest ++ (post ≫= doc_modules)))) as Hnd'.
    { rewrite <-!(assoc_L (++)) in Hnd |- *. exact Hnd. }
    apply NoDup_app in Hnd' as (_ & Hnd' & _).
    apply (Hnd' m); [done|set_solver]. }
  split_and!.
  - split.
    + intros [err Hreg] Hnodup. apply Hnd in Hnodup as [r Hr]. congruence.
    + intros Hdup. destruct (register_docs docs) as [err|r] eqn:Hreg; [eauto|].
      apply Hok in Hreg as [? _]. done.
  - intros err Hreg.
    apply Herr in Hreg as (pre & d & post & seen & m & rest & ? & ? & ? & ?).
    exists pre, d, post, seen, m, rest.
    destruct (doc_exported_twice_msg_identifies d m). split_and!; done.
  - intros Hnodup docs' Hperm.
    assert (all_modules docs' ≡ₚ all_modules docs) as Hall
      by (unfold all_modules; by rewrite Hperm).
    destruct (Hnd docs') as [r Hr]; [by rewrite Hall|].
    exists r. split; [done|]. intros m. rewrite <-Hall. by apply Hok.
Qed.

Lemma docstring_conflict_witness :
  (∃ r, register_docs [doc_math; doc_first] = inr r
        ∧ ∀ m, m ∈ dom r ↔ m ∈ all_modules [doc_first; doc_math])
  ∧ ∃ pre d post seen m rest,
      [doc_first; doc_math; doc_second] = pre ++ d :: post
      ∧ doc_modules d = seen ++ m :: rest
      ∧ m ∈ all_modules pre ++ seen
      ∧ register_docs [doc_first; doc_math; doc_second]
        = inl (DocExportedTwiceError (doc_exported_twice_msg d m))
      ∧ identifies (doc_exported_twice_msg d m) d
      ∧ PyStr.contains (doc_exported_twice_msg d m) m = true.
Proof.
  split.
  - apply (proj2 (proj2 (docstring_conflict [doc_first; doc_math]))).
    + vm_compute. repeat constructor; set_solver.
    + apply Permutation_swap.
  - destruct (proj1 (proj2 (docstring_conflict [doc_first; doc_math; doc_second]))
                (DocExportedTwiceError (doc_exported_twice_msg doc_second "tf.io")))
      as (pre & d & post & seen & m & rest & H1 & H2 & H3 & H4 & H5 & H6).
    + vm_compute. reflexivity.
    + exists pre, d, post, seen, m, rest. split_and!; try done.
      rewrite <-H4. vm_compute. reflexivity.
Defined.

(** C4 as stated fails: when [doc_second] is registered for a module that
    [doc_first] bound before, the message of the error names the location
    of [doc_second] only. *)
Lemma conflict_message_omits_first_location :
  ∃ msg, register_docs [doc_first; doc_second] = inl (DocExportedTwiceError msg)
    ∧ identifies msg doc_second ∧ ¬ identifies msg doc_first
    ∧ PyStr.contains msg (doc_file_name doc_first) = false.
Proof.
  eexists. split; [vm_compute; reflexivity|].
  split_and!; [by vm_compute|by vm_compute|by vm_compute].
Qed.

(** A single Doc record that lists a module twice conflicts with itself. *)
Lemma conflict_within_one_record :
  register_docs [{| doc_file_name := "a.py"; doc_line_no := 1;
                    doc_modules := ["tf.io"; "tf.io"]; docstring := "Io." |}]
  = inl (DocExportedTwiceError
      "Docstring at a.py:1 is registered for tf.io, which already has a registered docstring.").
Proof. vm_compute. reflexivity. Qed.

(** ** The wrapper descriptor *)

Lemma _DEPRECATION_FOOTER_nonempty r p d h : _DEPRECATION_FOOTER r p d h ≠ "".
Proof. unfold _DEPRECATION_FOOTER, nl. rewrite str_app_String. discriminate. Qed.

(** What [_get_module_wrapper] computes: the descriptor is emitted exactly
    when the tree is version 1 or lazy loading is enabled, and its has-lite
    field follows the test ['lite' in symbols_by_module and
    use_lazy_loading]. *)
Lemma wrapper_fields_spec module output_dir pkg (api_version : Z) symbols lazy :
  (_get_module_wrapper module output_dir pkg api_version symbols lazy ≠ ""
   ↔ api_version = 1%Z ∨ lazy = true)
  ∧ (api_version = 1%Z ∨ lazy = true →
     ∃ rel apis dep has_lite,
       wrapper_fields module output_dir pkg api_version symbols lazy
       = Some (rel, apis, dep, has_lite)
       ∧ _get_module_wrapper module output_dir pkg api_version symbols lazy
         = _DEPRECATION_FOOTER rel apis dep has_lite
       ∧ (has_lite = "True" ↔ lazy = true ∧ "lite" ∈ dom symbols)
       ∧ (has_lite = "False" ↔ ¬ (lazy = true ∧ "lite" ∈ dom symbols))).
Proof.
  unfold _get_module_wrapper, wrapper_fields.
  destruct (decide (api_version = 1%Z)) as [Hv|Hv], lazy;
    rewrite ?(bool_decide_eq_true_2 _ Hv), ?(bool_decide_eq_false_2 _ Hv);
    try rewrite (bool_decide_eq_false_2 (api_version ≠ 1%Z)) by (intros ?; done);
    try rewrite (bool_decide_eq_true_2 (api_version ≠ 1%Z)) by done;
    simpl.
  - split; [split; [auto|intros _; apply _DEPRECATION_FOOTER_nonempty]|].
    intros _. destruct (decide ("lite" ∈ dom symbols)) as [Hl|Hl];
      rewrite ?(bool_decide_eq_true_2 _ Hl), ?(bool_decide_eq_false_2 _ Hl); simpl;
      eexists _, _, _, _; (split_and!; [reflexivity|reflexivity|..]); naive_solver.
  - split; [split; [auto|intros _; apply _DEPRECATION_FOOTER_nonempty]|].
    intros _. rewrite andb_false_r.
    eexists _, _, _, _; (split_and!; [reflexivity|reflexivity|..]); naive_solver.
  - split; [split; [auto|intros _; apply _DEPRECATION_FOOTER_nonempty]|].
    intros _. destruct (decide ("lite" ∈ dom symbols)) as [Hl|Hl];
      rewrite ?(bool_decide_eq_true_2 _ Hl), ?(bool_decide_eq_false_2 _ Hl); simpl;
      eexists _, _, _, _; (split_and!; [reflexivity|reflexivity|..]); naive_solver.
  - split; [split; [done|intros [?|?]; done]|]. intros [?|?]; done.
Qed.

(** ** The nested compat view: removal and restoration of the compat edges *)

Section compat_edges.
Implicit Types (d : import_dict) (σ : store) (vs : list Z).

Lemma compat_version_package_inj pkg : Inj (=) (=) (compat_version_package pkg).
Proof.
  intros v1 v2 Heq. unfold compat_version_package in Heq.
  apply (inj (String.app pkg)), (inj (String.app ".compat.v")) in Heq.
  by apply (inj pretty) in Heq.
Qed.

Lemma dd_getitem_spec d k σ :
  let r := dd_getitem d k σ in
  r.1.2 !! k = Some r.1.1
  ∧ d ⊆ r.1.2
  ∧ σ `prefix_of` r.2
  ∧ set_at r.2 r.1.1 = imports_of d σ k
  ∧ (is_Some (d !! k) → r = (default 0 (d !! k), d, σ)).
Proof.
  unfold dd_getitem, imports_of. destruct (d !! k) as [l|] eqn:Hk; simpl.
  - split_and!; [done|done|done|done|done].
  - split_and!.
    + apply lookup_insert_eq.
    + by apply insert_subseteq.
    + by apply prefix_app_r.
    + unfold set_at. by rewrite lookup_app_r, Nat.sub_diag by lia.
    + by intros [? [=]].
Qed.

(** One round of the removal loop. *)
Lemma remove_step_inr d σ compat x d' σ' :
  (let '(l, d1, σ1) := dd_getitem d compat σ in
   σ2 ← set_remove l x σ1; mret (d1, σ2)) = inr (d', σ') →
  ∃ l, d !! compat = Some l ∧ l < length σ ∧ x ∈ set_at σ l
       ∧ d' = d ∧ σ' = alter (λ X, X ∖ {[x]}) l σ.
Proof.
  unfold dd_getitem, set_remove. destruct (d !! compat) as [l|] eqn:Hl.
  - case_decide as Hx; simpl; [|done]. intros [= <- <-].
    exists l. split_and!; try done.
    destruct (decide (l < length σ)) as [|Hge]; [done|].
    rewrite set_at_ge in Hx by lia. set_solver.
  - case_decide as Hx; simpl; [|done].
    unfold set_at in Hx. rewrite lookup_app_r, Nat.sub_diag in Hx by lia.
    set_solver.
Qed.

Lemma remove_step_inl d σ compat x e :
  (let '(l, d1, σ1) := dd_getitem d compat σ in
   σ2 ← set_remove l x σ1; mret (d1, σ2)) = inl e →
  e = KeyError x ∧ x ∉ imports_of d σ compat.
Proof.
  pose proof (dd_getitem_spec d compat σ) as (_ & _ & _ & Hset & _).
  destruct (dd_getitem d compat σ) as [[l d1] σ1]. simpl in Hset.
  unfold set_remove. rewrite Hset. case_decide; simpl; [done|].
  by intros [= <-].
Qed.

Lemma imports_of_alter f d σ l k :
  d !! k = Some l → l < length σ →
  imports_of d (alter f l σ) k = f (imports_of d σ k).
Proof.
  intros Hk Hl. unfold imports_of. rewrite Hk. simpl.
  by rewrite set_at_alter, decide_True.
Qed.

(** The removal loop succeeds exactly when the versions are pairwise
    distinct and all their edges are in the import set of the compat
    module; it then changes that set object only. *)
Lemma remove_compat_edges_inr pkg vs d σ d' σ' :
  remove_compat_edges pkg vs d σ = inr (d', σ') →
  d' = d ∧ length σ' = length σ
  ∧ NoDup vs
  ∧ (∀ v, v ∈ vs → compat_version_package pkg v ∈ imports_of d σ (pkg +:+ ".compat"))
  ∧ (∀ l, d !! (pkg +:+ ".compat") ≠ Some l → σ' !! l = σ !! l)
  ∧ imports_of d σ' (pkg +:+ ".compat")
    = imports_of d σ (pkg +:+ ".compat")
      ∖ list_to_set (compat_version_package pkg <$> vs)
  ∧ (vs ≠ [] → ∃ l, d !! (pkg +:+ ".compat") = Some l ∧ l < length σ).
Proof.
  unfold remove_compat_edges. revert σ.
  induction vs as [|v vs IH]; intros σ; simpl.
  - intros [= <- <-]. split_and!; first [done|apply NoDup_nil_2|set_solver].
  - destruct (let '(l, d1, σ1) := dd_getitem d (pkg +:+ ".compat") σ in
              σ2 ← set_remove l (compat_version_package pkg v) σ1; mret (d1, σ2))
      as [e|[d1 σ1]] eqn:Hstep; simpl; [done|].
    apply remove_step_inr in Hstep as (l & Hl & Hlen & Hx & -> & ->).
    intros Hrest. apply IH in Hrest as (-> & Hlen' & Hnd & Hin & Hframe & Himp & _).
    rewrite length_alter in Hlen'.
    rewrite imports_of_alter in Himp by done.
    assert (∀ v', v' ∈ vs →
              compat_version_package pkg v' ∈ imports_of d σ (pkg +:+ ".compat")
              ∧ v' ≠ v) as Hin'.
    { intros v' Hv'. specialize (Hin v' Hv').
      rewrite imports_of_alter in Hin by done.
      apply elem_of_difference in Hin as [? Hne]. split; [done|].
      intros ->. set_solver. }
    split_and!; try done.
    + constructor; [|done]. intros Hv. by destruct (Hin' v Hv).
    + intros v' [->|Hv']%elem_of_cons; [|by apply Hin'].
      unfold imports_of. by rewrite Hl.
    + intros l' Hl'. rewrite Hframe by done.
      rewrite list_lookup_alter, decide_False; [done|congruence].
    + rewrite Himp. set_solver.
    + intros _. eauto.
Qed.

Lemma remove_compat_edges_inl pkg vs d σ e :
  remove_compat_edges pkg vs d σ = inl e →
  ∃ v, v ∈ vs ∧ e = KeyError (compat_version_package pkg v)
       ∧ (compat_version_package pkg v ∈ imports_of d σ (pkg +:+ ".compat")
          → ¬ NoDup vs).
Proof.
  unfold remove_compat_edges. revert σ.
  induction vs as [|v vs IH]; intros σ; simpl; [done|].
  destruct (let '(l, d1, σ1) := dd_getitem d (pkg +:+ ".compat") σ in
            σ2 ← set_remove l (compat_version_package pkg v) σ1; mret (d1, σ2))
    as [e'|[d1 σ1]] eqn:Hstep; simpl.
  - intros [= <-]. apply remove_step_inl in Hstep as [-> Hnot].
    exists v. split_and!; [set_solver|done|done].
  - apply remove_step_inr in Hstep as (l & Hl & Hlen & Hx & -> & ->).
    intros (v' & Hv' & -> & Hdup)%IH. exists v'. split_and!; [set_solver|done|].
    intros Hin Hnd. apply NoDup_cons in Hnd as [Hv Hnd].
    apply Hdup; [|done]. rewrite imports_of_alter by done.
    apply elem_of_difference. split; [done|].
    intros ->%elem_of_singleton%compat_version_package_inj. done.
Qed.

Lemma remove_compat_edges_succeeds pkg vs d σ :
  NoDup vs →
  (∀ v, v ∈ vs → compat_version_package pkg v ∈ imports_of d σ (pkg +:+ ".compat")) →
  ∃ σ', remove_compat_edges pkg vs d σ = inr (d, σ').
Proof.
  intros Hnd Hin.
  destruct (remove_compat_edges pkg vs d σ) as [e|[d' σ']] eqn:Hrem.
  - apply remove_compat_edges_inl in Hrem as (v & Hv & _ & Hdup).
    destruct Hdup; auto.
  - apply remove_compat_edges_inr in Hrem as (-> & _). eauto.
Qed.

Lemma restore_compat_edges_cons pkg v vs d σ :
  restore_compat_edges pkg (v :: vs) d σ =
  let '(l, d1, σ1) := dd_getitem d (pkg +:+ ".compat") σ in
  restore_compat_edges pkg vs d1 (set_add l (compat_version_package pkg v) σ1).
Proof.
  unfold restore_compat_edges. simpl.
  by destruct (dd_getitem d (pkg +:+ ".compat") σ) as [[??]?].
Qed.

(** The restoration loop adds the edges back to the set object the compat
    module is bound to. *)
Lemma restore_compat_edges_spec pkg vs d σ l :
  d !! (pkg +:+ ".compat") = Some l → l < length σ →
  let r := restore_compat_edges pkg vs d σ in
  r.1 = d ∧ length r.2 = length σ
  ∧ (∀ l', l' ≠ l → r.2 !! l' = σ !! l')
  ∧ set_at r.2 l = list_to_set (compat_version_package pkg <$> vs) ∪ set_at σ l.
Proof.
  intros Hl. revert σ. induction vs as [|v vs IH]; intros σ Hlen.
  - simpl. split_and!; [done|done|done|set_solver].
  - rewrite restore_compat_edges_cons. unfold dd_getitem. rewrite Hl.
    unfold set_add.
    destruct (IH (alter (λ X, {[compat_version_package pkg v]} ∪ X) l σ))
      as (Hd & Hlen' & Hframe & Hset); [by rewrite length_alter|].
    rewrite length_alter in Hlen'.
    split_and!; [done|done| |].
    + intros l' Hl'. rewrite Hframe by done.
      rewrite list_lookup_alter, decide_False; done.
    + rewrite Hset, set_at_alter, decide_True by done.
      rewrite fmap_cons, list_to_set_cons. set_solver.
Qed.

Lemma restore_compat_edges_nil pkg d σ : restore_compat_edges pkg [] d σ = (d, σ).
Proof. reflexivity. Qed.

End compat_edges.

(** ** What [_gen_init_files] changes *)

Lemma ep_getitem_spec (symbols : gmap string (gset _Entrypoint)) k :
  (ep_getitem symbols k).1 = entrypoints_at symbols k
  ∧ symbols ⊆ (ep_getitem symbols k).2
  ∧ dom (ep_getitem symbols k).2 = dom symbols ∪ {[k]}
  ∧ entrypoints_at (ep_getitem symbols k).2 k = entrypoints_at symbols k.
Proof.
  unfold ep_getitem, entrypoints_at. destruct (symbols !! k) as [X|] eqn:Hk; simpl.
  - rewrite Hk. split_and!; [done|done| |done].
    apply elem_of_dom_2 in Hk. set_solver.
  - rewrite lookup_insert_eq. split_and!; [done|by apply insert_subseteq| |done].
    rewrite dom_insert_L. set_solver.
Qed.

Lemma dd_getitem_dom (d : import_dict) k (σ : store) :
  dom (dd_getitem d k σ).1.2 = dom d ∪ {[k]}.
Proof.
  unfold dd_getitem. destruct (d !! k) as [l|] eqn:Hk; simpl.
  - apply elem_of_dom_2 in Hk. set_solver.
  - rewrite dom_insert_L. set_solver.
Qed.

Section frame.
Variable iter_modules : gset string → list string.
Variable iter_entrypoints : gset _Entrypoint → list _Entrypoint.

Lemma _get_imports_for_module_frame
    module pkg symbols (gen : import_dict) (σ : store) strip prefix lazy rewrite :
  let r := _get_imports_for_module iter_modules iter_entrypoints module pkg
             symbols gen σ strip prefix lazy rewrite in
  symbols ⊆ r.1.1.2 ∧ gen ⊆ r.1.2 ∧ σ `prefix_of` r.2
  ∧ dom r.1.1.2 = dom symbols ∪ {[module]}
  ∧ dom r.1.2 = dom gen ∪ {[module]}.
Proof.
  unfold _get_imports_for_module.
  pose proof (ep_getitem_spec symbols module) as (_ & Hsub & Hdom & _).
  destruct (ep_getitem symbols module) as [X symbols'].
  pose proof (dd_getitem_spec gen module σ) as (_ & Hsub' & Hpre & _).
  pose proof (dd_getitem_dom gen module σ) as Hdom'.
  destruct (dd_getitem gen module σ) as [[l gen'] σ']. simpl in *.
  done.
Qed.

Lemma gen_init_file_frame
    out pkg v docs tpl strip lazy prefix rewrite root_file_name st module st' :
  gen_init_file iter_modules iter_entrypoints out pkg v docs tpl strip lazy
    prefix rewrite root_file_name st module = inr st' →
  st_symbols st ⊆ st_symbols st'
  ∧ st_imports st ⊆ st_imports st'
  ∧ st_store st `prefix_of` st_store st'
  ∧ dom (st_files st') =
    dom (st_files st)
    ∪ (if bool_decide (String.length module < String.length pkg) then ∅
       else {[module_file_path out pkg root_file_name module]}).
Proof.
  unfold gen_init_file. case_bool_decide as Hlen.
  { intros [= <-]. split_and!; [done|done|done|set_solver]. }
  pose proof (_get_imports_for_module_frame module pkg (st_symbols st)
                (st_imports st) (st_store st) strip prefix lazy rewrite)
    as (Hs & Hg & Hσ & _ & _).
  destruct (_get_imports_for_module _ _ _ _ _ _ _ _ _ _ _)
    as [[[content symbols1] gen1] σ1]. simpl in Hs, Hg, Hσ.
  destruct (bool_decide (module = pkg) && truthy (Some tpl)).
  - destruct (_ !! tpl) as [template|]; [|done].
    pose proof (ep_getitem_spec symbols1 module) as (_ & Hs2 & _).
    destruct (ep_getitem symbols1 module) as [X symbols2].
    pose proof (dd_getitem_spec gen1 module σ1) as (_ & Hg2 & Hσ2 & _).
    destruct (dd_getitem gen1 module σ1) as [[l gen2] σ2]. simpl in Hs2, Hg2, Hσ2.
    intros [= <-]. simpl. split_and!.
    + by etrans.
    + by etrans.
    + by etrans.
    + rewrite !dom_insert_L. set_solver.
  - intros [= <-]. simpl. split_and!; [done|done|done|].
    rewrite !dom_insert_L. set_solver.
Qed.

Lemma for_each_gen_init_file_frame
    out pkg v docs tpl strip lazy prefix rewrite root_file_name ms st st' :
  for_each (gen_init_file iter_modules iter_entrypoints out pkg v docs tpl strip
              lazy prefix rewrite root_file_name) st ms = inr st' →
  st_symbols st ⊆ st_symbols st'
  ∧ st_imports st ⊆ st_imports st'
  ∧ st_store st `prefix_of` st_store st'
  ∧ ∀ p, p ∈ dom (st_files st') ↔
         p ∈ dom (st_files st)
         ∨ ∃ m, m ∈ ms ∧ String.length pkg ≤ String.length m
                ∧ p = module_file_path out pkg root_file_name m.
Proof.
  revert st. induction ms as [|m ms IH]; intros st; simpl.
  - intros [= <-]. split_and!; [done|done|done|]. set_solver.
  - destruct (gen_init_file _ _ _ _ _ _ _ _ _ _ _ _ st m) as [e|st1] eqn:Hstep;
      simpl; [done|].
    apply gen_init_file_frame in Hstep as (Hs & Hg & Hσ & Hfs).
    intros (Hs' & Hg' & Hσ' & Hfs')%IH.
    split_and!; [by etrans|by etrans|by etrans|].
    intros p. rewrite Hfs', Hfs. case_bool_decide as Hlen.
    + split.
      * intros [?|(m' & ? & ? & ?)]; [set_solver|right; exists m'; set_solver].
      * intros [?|(m' & [->|?]%elem_of_cons & ? & ?)];
          [set_solver|lia|right; exists m'; set_solver].
    + split.
      * intros [[?|Hp]%elem_of_union|(m' & ? & ? & ?)];
          [by left|right; exists m; split_and!; [set_solver|lia|set_solver]
          |right; exists m'; set_solver].
      * intros [?|(m' & [->|?]%elem_of_cons & ? & ?)];
          [set_solver|set_solver|right; exists m'; set_solver].
Qed.

Lemma _gen_init_files_frame
    out pkg v docs tpl strip lazy prefix rewrite root_file_name st st' :
  set_order iter_modules →
  _gen_init_files iter_modules iter_entrypoints out pkg v docs tpl strip lazy
    prefix rewrite root_file_name st = inr st' →
  st_symbols st ⊆ st_symbols st'
  ∧ st_imports st ⊆ st_imports st'
  ∧ st_store st `prefix_of` st_store st'
  ∧ ∀ p, p ∈ dom (st_files st') ↔
         p ∈ dom (st_files st)
         ∨ ∃ m, m ∈ dom (st_symbols st) ∪ dom (st_imports st)
                ∧ String.length pkg ≤ String.length m
                ∧ p = module_file_path out pkg root_file_name m.
Proof.
  intros Hiter Hgen. unfold _gen_init_files in Hgen.
  apply for_each_gen_init_file_frame in Hgen as (? & ? & ? & Hfs).
  split_and!; [done|done|done|].
  intros p. rewrite Hfs.
  by setoid_rewrite (Hiter _); setoid_rewrite elem_of_elements.
Qed.

End frame.

(** ** The injection of the compat edges by [gen_public_api] *)

Section inject.
Implicit Types (d : import_dict) (σ : store).

Lemma store_grows_refl σ : store_grows σ σ.
Proof. by split. Qed.

Lemma store_grows_trans σ1 σ2 σ3 :
  store_grows σ1 σ2 → store_grows σ2 σ3 → store_grows σ1 σ3.
Proof.
  intros [Hl1 H1] [Hl2 H2]. split; [lia|].
  intros l Hl. etrans; [by apply H1|]. apply H2. lia.
Qed.

Lemma imports_of_mono d d' σ σ' k :
  wf_range d σ → d ⊆ d' → store_grows σ σ' →
  imports_of d σ k ⊆ imports_of d' σ' k.
Proof.
  intros Hwf Hsub [_ Hgrow]. unfold imports_of.
  destruct (d !! k) as [l|] eqn:Hk; simpl; [|set_solver].
  rewrite (lookup_weaken _ _ _ _ Hk Hsub). simpl. apply Hgrow. eauto.
Qed.

(** [d[k].add(x)] on a dictionary whose references point into the store. *)
Lemma add_import_grows k x d σ :
  wf_range d σ →
  let g' := add_import k x (d, σ) in
  wf_range g'.1 g'.2 ∧ d ⊆ g'.1 ∧ store_grows σ g'.2
  ∧ x ∈ imports_of g'.1 g'.2 k.
Proof.
  intros Hwf. unfold add_import, dd_getitem, set_add. cbn [fst snd].
  destruct (d !! k) as [l|] eqn:Hk; cbn [fst snd].
  - pose proof (Hwf _ _ Hk) as Hl. split_and!.
    + intros k' l' Hk'. rewrite length_alter. eauto.
    + done.
    + split; [by rewrite length_alter|]. intros l' Hl'.
      rewrite set_at_alter. case_decide; set_solver.
    + unfold imports_of. rewrite Hk. simpl.
      rewrite set_at_alter, decide_True by done. set_solver.
  - split_and!.
    + intros k' l'. rewrite length_alter, length_app. simpl.
      destruct (decide (k' = k)) as [->|Hne].
      * rewrite lookup_insert_eq. intros [= <-]. lia.
      * rewrite lookup_insert_ne by done. intros Hk'%Hwf. lia.
    + by apply insert_subseteq.
    + split; [rewrite length_alter, length_app; lia|]. intros l' Hl'.
      rewrite set_at_alter, decide_False by lia. by rewrite set_at_app.
    + unfold imports_of. rewrite lookup_insert_eq. simpl.
      rewrite set_at_alter, decide_True by (rewrite length_app; simpl; lia).
      set_solver.
Qed.

Lemma wf_range_grows d σ σ' : wf_range d σ → store_grows σ σ' → wf_range d σ'.
Proof. intros Hwf [Hlen _] k l Hk. apply Hwf in Hk. lia. Qed.

Lemma compat_version_package_alt pkg v :
  (pkg +:+ ".compat") +:+ ".v" +:+ pretty v = compat_version_package pkg v.
Proof. unfold compat_version_package. by rewrite str_app_assoc. Qed.

(** One round of the injection loop, written with [add_import]. *)
Lemma inject_compat_edges_cons pkg v vs api σ :
  inject_compat_edges pkg (v :: vs) api σ =
  let g2 := add_import (pkg +:+ ".compat") (compat_version_package pkg v)
              (v2_generated_imports_by_module api, σ) in
  let g1 := add_import (pkg +:+ ".compat") (compat_version_package pkg v)
              (v1_generated_imports_by_module api, g2.2) in
  inject_compat_edges pkg vs
    {| v1_entrypoints_by_module := v1_entrypoints_by_module api;
       v2_entrypoints_by_module := v2_entrypoints_by_module api;
       v1_generated_imports_by_module := g1.1;
       v2_generated_imports_by_module := g2.1;
       docs_by_module := docs_by_module api |} g1.2.
Proof.
  unfold inject_compat_edges, add_import. simpl.
  rewrite compat_version_package_alt.
  destruct (dd_getitem (v2_generated_imports_by_module api) _ σ) as [[l2 d2] σ2].
  cbn [fst snd].
  by destruct (dd_getitem (v1_generated_imports_by_module api) _ _) as [[l1 d1] σ1].
Qed.

(** After the injection loop the import sets of the compat module hold
    the edge to the versioned compat package of every compat version, in
    the version-1 and in the version-2 dictionary. *)
Lemma inject_compat_edges_spec pkg vs api σ :
  wf_range (v1_generated_imports_by_module api) σ →
  wf_range (v2_generated_imports_by_module api) σ →
  let r := inject_compat_edges pkg vs api σ in
  wf_range (v1_generated_imports_by_module r.1) r.2
  ∧ wf_range (v2_generated_imports_by_module r.1) r.2
  ∧ v1_generated_imports_by_module api ⊆ v1_generated_imports_by_module r.1
  ∧ v2_generated_imports_by_module api ⊆ v2_generated_imports_by_module r.1
  ∧ store_grows σ r.2
  ∧ ∀ v, v ∈ vs →
      compat_version_package pkg v
        ∈ imports_of (v1_generated_imports_by_module r.1) r.2 (pkg +:+ ".compat")
      ∧ compat_version_package pkg v
        ∈ imports_of (v2_generated_imports_by_module r.1) r.2 (pkg +:+ ".compat").
Proof.
  revert api σ. induction vs as [|v vs IH]; intros api σ Hwf1 Hwf2.
  - simpl. split_and!; [done|done|done|done|apply store_grows_refl|set_solver].
  - rewrite inject_compat_edges_cons.
    destruct (add_import_grows (pkg +:+ ".compat") (compat_version_package pkg v)
                (v2_generated_imports_by_module api) σ Hwf2)
      as (Hwf2' & Hsub2 & Hgrow2 & Hin2).
    destruct (add_import (pkg +:+ ".compat") (compat_version_package pkg v)
                (v2_generated_imports_by_module api, σ)) as [d2 σ2].
    cbn [fst snd] in *.
    destruct (add_import_grows (pkg +:+ ".compat") (compat_version_package pkg v)
                (v1_generated_imports_by_module api) σ2
                (wf_range_grows _ _ _ Hwf1 Hgrow2))
      as (Hwf1' & Hsub1 & Hgrow1 & Hin1).
    destruct (add_import (pkg +:+ ".compat") (compat_version_package pkg v)
                (v1_generated_imports_by_module api, σ2)) as [d1 σ1].
    cbn [fst snd] in *.
    set (api' := {| v1_entrypoints_by_module := v1_entrypoints_by_module api;
                    v2_entrypoints_by_module := v2_entrypoints_by_module api;
                    v1_generated_imports_by_module := d1;
                    v2_generated_imports_by_module := d2;
                    docs_by_module := docs_by_module api |}).
    destruct (IH api' σ1 Hwf1' (wf_range_grows _ _ _ Hwf2' Hgrow1))
      as (Hw1 & Hw2 & Hs1 & Hs2 & Hg & Hin).
    split_and!; [done|done|by etrans|by etrans| |].
    + eapply store_grows_trans; [done|]. by eapply store_grows_trans.
    + intros v' [->|Hv']%elem_of_cons; [|by apply Hin]. split.
      * eapply imports_of_mono; [exact Hwf1'|exact Hs1|exact Hg|exact Hin1].
      * eapply imports_of_mono;
          [exact (wf_range_grows _ _ _ Hwf2' Hgrow1)|exact Hs2|exact Hg|].
        eapply imports_of_mono; [exact Hwf2'|done|exact Hgrow1|exact Hin2].
Qed.

Lemma get_public_api_wf_range symbols docs strip ignore pkg prefix api σ :
  get_public_api symbols docs strip ignore pkg prefix = inr (api, σ) →
  wf_range (v1_generated_imports_by_module api) σ
  ∧ wf_range (v2_generated_imports_by_module api) σ.
Proof.
  intros Hapi.
  apply get_public_api_inr in Hapi as (σ1 & _ & _ & H1 & H2 & _).
  destruct (add_generated_imports_spec 0 (v1_entrypoints_by_module api) ∅ []
              (wf_imports_empty []) ltac:(done)) as ([Hwf1 _] & _ & _ & _).
  rewrite H1 in Hwf1. simpl in Hwf1.
  destruct (add_generated_imports_spec (length σ1) (v2_entrypoints_by_module api) ∅ σ1
              (wf_imports_empty σ1) ltac:(done)) as ([Hwf2 _] & Hlen & _ & _).
  rewrite H2 in Hwf2, Hlen. simpl in Hwf2, Hlen.
  split; intros k l Hk; [apply Hwf1 in Hk|apply Hwf2 in Hk]; lia.
Qed.

End inject.

(** ** [gen_nested_compat_files] *)

Lemma lookup_store_set_at (σ : store) l : l < length σ → σ !! l = Some (set_at σ l).
Proof.
  intros Hl. unfold set_at. destruct (σ !! l) eqn:Heq; [done|].
  apply lookup_ge_None in Heq. lia.
Qed.

Lemma prefix_of_lookup (σ σ' : store) l :
  σ `prefix_of` σ' → l < length σ → σ' !! l = σ !! l.
Proof. intros [ext ->] Hl. by apply lookup_app_l. Qed.




Section nested.
Variable iter_modules : gset string → list string.
Variable iter_entrypoints : gset _Entrypoint → list _Entrypoint.

(** The three phases of a call that returns. *)
Lemma gen_nested_compat_files_inr
    out pkg v symbols (d : import_dict) docs tpl strip lazy vs prefix
    (σ : store) fs σ' fs' :
  gen_nested_compat_files iter_modules iter_entrypoints out pkg v symbols d docs
    tpl strip lazy vs prefix σ fs = inr (σ', fs') →
  ∃ σ1 st2,
    remove_compat_edges pkg vs d σ = inr (d, σ1)
    ∧ _gen_init_files iter_modules iter_entrypoints out pkg v docs tpl strip lazy
        prefix (Some ((pkg +:+ ".compat") +:+ ".v" +:+ pretty v)) "__init__.py"
        {| st_symbols := nested_compat_symbols pkg symbols; st_imports := d;
           st_store := σ1; st_files := fs |} = inr st2
    ∧ σ' = (restore_compat_edges pkg vs (st_imports st2) (st_store st2)).2
    ∧ fs' = st_files st2.
Proof.
  unfold gen_nested_compat_files.
  destruct (remove_compat_edges pkg vs d σ) as [e|[d1 σ1]] eqn:Hrem; simpl; [done|].
  pose proof (remove_compat_edges_inr _ _ _ _ _ _ Hrem) as (-> & _).
  destruct (_gen_init_files _ _ _ _ _ _ _ _ _ _ _ _ _) as [e|st2] eqn:Hgen;
    simpl; [done|].
  destruct (restore_compat_edges pkg vs (st_imports st2) (st_store st2))
    as [d3 σ3] eqn:Hres.
  intros [= <- <-]. exists σ1, st2. by rewrite Hres.
Qed.

Lemma gen_nested_compat_files_removal_fails
    out pkg v symbols (d : import_dict) docs tpl strip lazy vs prefix
    (σ : store) fs e :
  remove_compat_edges pkg vs d σ = inl e →
  gen_nested_compat_files iter_modules iter_entrypoints out pkg v symbols d docs
    tpl strip lazy vs prefix σ fs = inl e.
Proof. intros Hrem. unfold gen_nested_compat_files. by rewrite Hrem. Qed.

Lemma _gen_init_files_store_frame
    out pkg v docs tpl strip lazy prefix rewrite root_file_name st st' :
  _gen_init_files iter_modules iter_entrypoints out pkg v docs tpl strip lazy
    prefix rewrite root_file_name st = inr st' →
  st_imports st ⊆ st_imports st' ∧ st_store st `prefix_of` st_store st'.
Proof.
  unfold _gen_init_files.
  by intros (_ & ? & ? & _)%for_each_gen_init_file_frame.
Qed.

End nested.

(** C10, as amended: the removal step of [gen_nested_compat_files] succeeds
    exactly when the edge from the compat module to the versioned compat
    package of every compat version is present in the generated imports
    and no compat version is listed twice.  If an edge is absent the call
    raises [KeyError]; every failure of the removal step is the [KeyError]
    of an edge and is what the call raises.  The injection loop of
    [gen_public_api] establishes the presence of the edges in both
    versions. *)
Theorem removal_needs_present_and_distinct_edges
    iter_modules iter_entrypoints out pkg v symbols (d : import_dict) docs tpl
    strip lazy vs prefix (σ : store) fs :
  ((∃ r, remove_compat_edges pkg vs d σ = inr r)
   ↔ NoDup vs
     ∧ ∀ cv, cv ∈ vs →
         compat_version_package pkg cv ∈ imports_of d σ (pkg +:+ ".compat"))
  ∧ ((∃ cv, cv ∈ vs
            ∧ compat_version_package pkg cv ∉ imports_of d σ (pkg +:+ ".compat")) →
     ∃ cv, cv ∈ vs
           ∧ gen_nested_compat_files iter_modules iter_entrypoints out pkg v
               symbols d docs tpl strip lazy vs prefix σ fs
             = inl (KeyError (compat_version_package pkg cv)))
  ∧ (∀ e, remove_compat_edges pkg vs d σ = inl e →
       gen_nested_compat_files iter_modules iter_entrypoints out pkg v
         symbols d docs tpl strip lazy vs prefix σ fs = inl e
       ∧ ∃ cv, cv ∈ vs ∧ e = KeyError (compat_version_package pkg cv))
  ∧ (∀ api σ0,
       wf_range (v1_generated_imports_by_module api) σ0 →
       wf_range (v2_generated_imports_by_module api) σ0 →
       ∀ cv, cv ∈ vs →
         compat_version_package pkg cv
           ∈ imports_of (v1_generated_imports_by_module
                           (inject_compat_edges pkg vs api σ0).1)
               (inject_compat_edges pkg vs api σ0).2 (pkg +:+ ".compat")
         ∧ compat_version_package pkg cv
           ∈ imports_of (v2_generated_imports_by_module
                           (inject_compat_edges pkg vs api σ0).1)
               (inject_compat_edges pkg vs api σ0).2 (pkg +:+ ".compat")).
Proof.
  split_and!.
  - split.
    + intros [[d' σ'] Hrem].
      apply remove_compat_edges_inr in Hrem as (_ & _ & ? & ? & _). done.
    + intros [Hnd Hin].
      destruct (remove_compat_edges_succeeds pkg vs d σ Hnd Hin) as [σ' Hrem]. eauto.
  - intros (cv & Hcv & Habsent).
    destruct (remove_compat_edges pkg vs d σ) as [e|[d' σ']] eqn:Hrem.
    + pose proof (remove_compat_edges_inl _ _ _ _ _ Hrem) as (cv' & ? & -> & _).
      exists cv'. split; [done|].
      by apply gen_nested_compat_files_removal_fails.
    + apply remove_compat_edges_inr in Hrem as (_ & _ & _ & Hin & _).
      destruct Habsent. by apply Hin.
  - intros e Hrem. split; [by apply gen_nested_compat_files_removal_fails|].
    apply remove_compat_edges_inl in Hrem as (cv & ? & ? & _). eauto.
  - intros api σ0 Hwf1 Hwf2 cv Hcv.
    by apply (inject_compat_edges_spec pkg vs api σ0 Hwf1 Hwf2).
Qed.

Lemma removal_needs_present_and_distinct_edges_witness :
  (∃ r, remove_compat_edges "tf" [1%Z; 2%Z] compat_imports compat_store = inr r)
  ∧ ∃ cv, cv ∈ [1%Z; 3%Z]
      ∧ gen_nested_compat_files elements elements "out" "tf" 1 ∅ compat_imports
          ∅ "" [] false [1%Z; 3%Z] "" compat_store ∅
        = inl (KeyError (compat_version_package "tf" cv)).
Proof.
  split.
  - apply (proj1 (removal_needs_present_and_distinct_edges elements elements
             "out" "tf" 1 ∅ compat_imports ∅ "" [] false [1%Z; 2%Z] ""
             compat_store ∅)).
    split.
    + repeat constructor; set_solver.
    + intros cv Hcv. apply (bool_decide_unpack _).
      apply elem_of_cons in Hcv as [->|Hcv]; [vm_compute; exact I|].
      apply elem_of_cons in Hcv as [->|Hcv]; [vm_compute; exact I|].
      by apply elem_of_nil in Hcv.
  - apply (proj1 (proj2 (removal_needs_present_and_distinct_edges elements elements
             "out" "tf" 1 ∅ compat_imports ∅ "" [] false [1%Z; 3%Z] ""
             compat_store ∅))).
    exists 3%Z. split; [set_solver|].
    apply (bool_decide_unpack _). vm_compute. exact I.
Defined.

(** C10 as stated fails: with the edge to [tf.compat.v1] present and
    compat version 1 listed twice, the second removal raises [KeyError]. *)
Lemma removal_fails_on_repeated_version :
  compat_version_package "tf" 1 ∈ imports_of compat_imports compat_store "tf.compat"
  ∧ remove_compat_edges "tf" [1%Z; 1%Z] compat_imports compat_store
    = inl (KeyError "tf.compat.v1")
  ∧ gen_nested_compat_files elements elements "out" "tf" 1 ∅ compat_imports
      ∅ "" [] false [1%Z; 1%Z] "" compat_store ∅
    = inl (KeyError "tf.compat.v1").
Proof.
  split_and!.
  - apply (bool_decide_unpack _). vm_compute. exact I.
  - vm_compute. reflexivity.
  - vm_compute. reflexivity.
Qed.

(** The nested compat call on the sample dictionary returns. *)
Lemma nested_compat_sample_returns :
  ∃ r, gen_nested_compat_files elements elements "out" "tf" 1 ∅ compat_imports ∅ ""
         [] false [1%Z; 2%Z] "" compat_store ∅ = inr r.
Proof.
  assert (match gen_nested_compat_files elements elements "out" "tf" 1 ∅
                  compat_imports ∅ "" [] false [1%Z; 2%Z] "" compat_store ∅ with
          | inr _ => True
          | inl _ => False
          end) as H by (vm_compute; exact I).
  destruct (gen_nested_compat_files _ _ _ _ _ _ _ _ _ _ _ _ _ _ _) as [e|r];
    [destruct H|by exists r].
Qed.

(** C3: a call of [gen_nested_compat_files] that returns leaves every set
    object of the store as it found it, so the generated imports the
    caller's dictionary shows are unchanged; the edge from the compat
    module to the versioned compat package of every compat version was
    present before the call and is present after it.  Between the removal
    and the restoration only the set object of the compat module differs
    from its state before the call: the edges are missing from it. *)
Theorem nested_compat_restores_generated_imports
    iter_modules iter_entrypoints out pkg v symbols (d : import_dict) docs tpl
    strip lazy vs prefix (σ : store) fs σ' fs' :
  gen_nested_compat_files iter_modules iter_entrypoints out pkg v symbols d docs
    tpl strip lazy vs prefix σ fs = inr (σ', fs') →
  (∀ l, l < length σ → σ' !! l = σ !! l)
  ∧ (wf_range d σ → ∀ k, imports_of d σ' k = imports_of d σ k)
  ∧ (∀ cv, cv ∈ vs →
       compat_version_package pkg cv ∈ imports_of d σ (pkg +:+ ".compat")
       ∧ compat_version_package pkg cv ∈ imports_of d σ' (pkg +:+ ".compat"))
  ∧ ∃ σ1 st2,
      remove_compat_edges pkg vs d σ = inr (d, σ1)
      ∧ _gen_init_files iter_modules iter_entrypoints out pkg v docs tpl strip
          lazy prefix (Some ((pkg +:+ ".compat") +:+ ".v" +:+ pretty v))
          "__init__.py"
          {| st_symbols := nested_compat_symbols pkg symbols; st_imports := d;
             st_store := σ1; st_files := fs |} = inr st2
      ∧ σ' = (restore_compat_edges pkg vs (st_imports st2) (st_store st2)).2
      ∧ imports_of d σ1 (pkg +:+ ".compat")
        = imports_of d σ (pkg +:+ ".compat")
          ∖ list_to_set (compat_version_package pkg <$> vs)
      ∧ ∀ l, l < length σ → d !! (pkg +:+ ".compat") ≠ Some l →
          σ1 !! l = σ !! l ∧ st_store st2 !! l = σ !! l.
Proof.
  intros Hcall.
  apply gen_nested_compat_files_inr in Hcall as (σ1 & st2 & Hrem & Hgen & -> & ->).
  pose proof (remove_compat_edges_inr _ _ _ _ _ _ Hrem)
    as (_ & Hlen1 & Hnd & Hin & Hframe1 & Himp1 & Hlc).
  pose proof (_gen_init_files_store_frame _ _ _ _ _ _ _ _ _ _ _ _ _ _ Hgen)
    as [Hsub Hpre]. simpl in Hsub, Hpre.
  assert (∀ l, l < length σ →
            (restore_compat_edges pkg vs (st_imports st2) (st_store st2)).2 !! l
            = σ !! l) as Hsame.
  { intros l Hl. destruct vs as [|cv vs].
    - rewrite restore_compat_edges_nil. simpl.
      rewrite (prefix_of_lookup _ _ _ Hpre) by lia.
      by injection Hrem as <-.
    - destruct Hlc as (lc & Hd & Hlclen); [done|].
      pose proof (lookup_weaken _ _ _ _ Hd Hsub) as Hd2.
      assert (lc < length (st_store st2)) as Hlc2.
      { apply prefix_length in Hpre. lia. }
      destruct (restore_compat_edges_spec pkg (cv :: vs) _ _ lc Hd2 Hlc2)
        as (_ & Hlen3 & Hframe3 & Hset3).
      destruct (decide (l = lc)) as [->|Hne].
      + rewrite lookup_store_set_at by lia. rewrite (lookup_store_set_at σ) by lia.
        f_equal. rewrite Hset3.
        assert (set_at (st_store st2) lc = set_at σ1 lc) as ->.
        { unfold set_at. by rewrite (prefix_of_lookup _ _ _ Hpre) by lia. }
        assert (set_at σ1 lc = imports_of d σ1 (pkg +:+ ".compat")) as ->.
        { unfold imports_of. by rewrite Hd. }
        rewrite Himp1.
        assert (imports_of d σ (pkg +:+ ".compat") = set_at σ lc) as Heq.
        { unfold imports_of. by rewrite Hd. }
        rewrite <-Heq.
        assert (list_to_set (compat_version_package pkg <$> cv :: vs)
                  ⊆ imports_of d σ (pkg +:+ ".compat")) as Hsubset.
        { intros x (cv' & -> & Hcv')%elem_of_list_to_set%list_elem_of_fmap.
          by apply Hin. }
        apply set_eq. intros x. rewrite elem_of_union, elem_of_difference.
        split; [intros [?|[? _]]; auto|].
        intros Hx.
        destruct (decide (x ∈ (list_to_set (compat_version_package pkg <$> cv :: vs)
                                 : gset string))); auto.
      + rewrite Hframe3 by done.
        rewrite (prefix_of_lookup _ _ _ Hpre) by lia.
        apply Hframe1. congruence. }
  assert (∀ k l, d !! k = Some l → l < length σ →
            imports_of d (restore_compat_edges pkg vs (st_imports st2)
                            (st_store st2)).2 k = imports_of d σ k) as Himp.
  { intros k l Hk Hl. unfold imports_of. rewrite Hk. simpl.
    unfold set_at. by rewrite Hsame. }
  split_and!.
  - done.
  - intros Hwf k. destruct (d !! k) as [l|] eqn:Hk.
    + eapply Himp; eauto.
    + unfold imports_of. by rewrite Hk.
  - intros cv Hcv. split; [by apply Hin|].
    destruct Hlc as (lc & Hd & Hlclen); [by intros ->; apply elem_of_nil in Hcv|].
    rewrite (Himp _ _ Hd Hlclen). by apply Hin.
  - exists σ1, st2. split_and!; [done|done|done|done|].
    intros l Hl Hne. split; [by apply Hframe1|].
    rewrite (prefix_of_lookup _ _ _ Hpre) by lia. by apply Hframe1.
Qed.

Lemma nested_compat_restores_generated_imports_witness :
  ∃ σ' fs',
    gen_nested_compat_files elements elements "out" "tf" 1 ∅ compat_imports ∅ ""
      [] false [1%Z; 2%Z] "" compat_store ∅ = inr (σ', fs')
    ∧ (∀ l, l < length compat_store → σ' !! l = compat_store !! l)
    ∧ ∀ cv, cv ∈ [1%Z; 2%Z] →
        compat_version_package "tf" cv
          ∈ imports_of compat_imports compat_store "tf.compat"
        ∧ compat_version_package "tf" cv ∈ imports_of compat_imports σ' "tf.compat".
Proof.
  destruct nested_compat_sample_returns as [[σ' fs'] Hcall].
  exists σ', fs'. split; [exact Hcall|].
  exact ((λ H, conj (proj1 H) (proj1 (proj2 (proj2 H))))
           (nested_compat_restores_generated_imports _ _ _ _ _ _ _ _ _ _ _ _ _
              _ _ _ _ Hcall)).
Defined.




(** ** Names exposed by the two rendering strategies *)

Section names.
Implicit Types (c : ascii) (s x y n : string).

Lemma free_of_app c x y : free_of c (x +:+ y) ↔ free_of c x ∧ free_of c y.
Proof.
  unfold free_of. induction x as [|a x IH]; [rewrite str_app_nil_l; naive_solver|].
  rewrite str_app_String. simpl. case_decide; [naive_solver|].
  destruct (PyStr.index_of c (x +:+ y)), (PyStr.index_of c x); simpl in *;
    naive_solver.
Qed.



Lemma rstrip_free c n : free_of c n → PyStr.rstrip c n = n.
Proof.
  unfold free_of. induction n as [|a n IH]; [done|]. simpl.
  case_decide; [done|]. destruct (PyStr.index_of c n); [done|].
  intros _. by rewrite IH.
Qed.


Lemma str_app_nonempty x y : y ≠ "" → x +:+ y ≠ "".
Proof. destruct x; [by rewrite str_app_nil_l|by rewrite str_app_String]. Qed.

Lemma rstrip_app_keep c y t :
  PyStr.rstrip c t ≠ "" → PyStr.rstrip c (y +:+ t) = y +:+ PyStr.rstrip c t.
Proof.
  intros Ht. induction y as [|b y IH]; [done|].
  rewrite !str_app_String. simpl. rewrite IH.
  pose proof (str_app_nonempty y _ Ht) as Hne.
  destruct (y +:+ PyStr.rstrip c t); [done|]. by case_decide.
Qed.

Lemma rfind_app_char c x y :
  free_of c y → PyStr.rfind c (x +:+ String c y) = Z.of_nat (String.length x).
Proof.
  unfold free_of. rewrite index_of_rindex_of. intros Hy. unfold PyStr.rfind.
  by rewrite rindex_of_app_r.
Qed.



Lemma slice_to_app x y :
  PyStr.slice_to (x +:+ y) (Z.of_nat (String.length x)) = x.
Proof.
  unfold PyStr.slice_to. rewrite clip_nonneg, str_take_app; [done|].
  rewrite str_length_app. lia.
Qed.





(** *** The lines of the import block *)







Lemma insert_sorted_perm {A} (key : A → string) (a : A) (l : list A) :
  insert_sorted key a l ≡ₚ a :: l.
Proof.
  induction l as [|b l IH]; [done|]. simpl. case_match; [|done].
  rewrite IH. apply Permutation_swap.
Qed.

Lemma sorted_perm {A} (key : A → string) (l : list A) : sorted key l ≡ₚ l.
Proof.
  unfold sorted. induction l as [|a l IH]; [done|]. simpl.
  by rewrite insert_sorted_perm, IH.
Qed.

End names.

Section rendered_names.
Variable iter_modules : gset string → list string.
Variable iter_entrypoints : gset _Entrypoint → list _Entrypoint.


End rendered_names.

Section line_names.
Implicit Types (e : _Entrypoint) (imp : string).







End line_names.




(** ** Order of the rendered imports *)

Lemma set_order_elements `{Countable A} : set_order (elements : gset A → list A).
Proof. by intros X. Qed.

Lemma set_order_reverse `{Countable A} :
  set_order (reverse ∘ elements : gset A → list A).
Proof. intros X. simpl. apply reverse_Permutation. Qed.

(** C9 fails on the code: [_get_imports_for_module] writes the generated
    imports in the iteration order of a set of strings.  For the two
    symbols exported as [v2.a.f] and [v2.b.g] under the output package
    [tf], two iteration orders of the set [{tf.a, tf.b}] give two
    different contents of the root file of the same run. *)
Theorem generated_imports_follow_set_iteration_order :
  set_order (elements : gset string → list string)
  ∧ set_order (reverse ∘ elements : gset string → list string)
  ∧ match gen_public_api elements elements "out" "tf" "" 2 [] [] false []
            [sym_a; sym_b] [] [] "" "__init__.py" ∅,
          gen_public_api (reverse ∘ elements) elements "out" "tf" "" 2 [] [] false []
            [sym_a; sym_b] [] [] "" "__init__.py" ∅ with
    | inr (_, _, fs1), inr (_, _, fs2) =>
        fs1 !! "out/__init__.py"
        = Some (_GENERATED_FILE_HEADER "Public API for tf namespace"
                +:+ "from tf import a" +:+ nl +:+ "from tf import b" +:+ nl)
        ∧ fs2 !! "out/__init__.py"
          = Some (_GENERATED_FILE_HEADER "Public API for tf namespace"
                  +:+ "from tf import b" +:+ nl +:+ "from tf import a" +:+ nl)
    | _, _ => False
    end.
Proof.
  split_and!; [apply set_order_elements|apply set_order_reverse|].
  vm_compute. split; reflexivity.
Qed.

(** ** Further properties of the aggregator and of the linker *)

Section aggregate_invariants.
Implicit Types (s : ExportedSymbol) (e : _Entrypoint).
Implicit Types (ebm : gmap string (gset _Entrypoint)).

Lemma entrypoint_of_name_dotless pkg s api_name :
  dotless (name (entrypoint_of pkg s api_name)).
Proof.
  destruct (decide (PyStr.rfind "." api_name = (-1)%Z)) as [Hr|Hr].
  - apply dotless_rfind in Hr.
    by rewrite (proj2 (entrypoint_of_flat pkg s api_name Hr)).
  - destruct (rfind_split api_name Hr) as (seg & Hseg & Heq & _).
    rewrite Heq. by rewrite entrypoint_of_name.
Qed.

Lemma entrypoint_of_module_prefix pkg s api_name :
  module (entrypoint_of pkg s api_name) = pkg
  ∨ ∃ mid, mid ≠ "" ∧ module (entrypoint_of pkg s api_name) = pkg +:+ "." +:+ mid.
Proof.
  unfold entrypoint_of. simpl.
  destruct (Z.ltb_spec (PyStr.find "." api_name + 1) (PyStr.rfind "." api_name))
    as [Hlt|Hge]; [|by left].
  right. eexists. split; [|reflexivity].
  unfold PyStr.slice.
  unfold PyStr.find, PyStr.rfind in *.
  destruct (PyStr.rindex_of "." api_name) as [j|] eqn:Hj; simpl in *.
  2:{ destruct (PyStr.index_of "." api_name); simpl in *; lia. }
  destruct (PyStr.index_of "." api_name) as [i|] eqn:Hi; simpl in *.
  2:{ apply index_of_rindex_of in Hi. congruence. }
  destruct (rindex_of_Some _ _ _ Hj) as (y & _ & _ & Hjlen).
  replace (Z.of_nat i + 1)%Z with (Z.of_nat (i + 1)) by lia.
  rewrite !clip_nonneg by lia.
  intros Hempty.
  assert (String.length (PyStr.take (j - (i + 1)) (PyStr.drop (i + 1) api_name))
          = j - (i + 1)) as Hlen.
  { apply str_length_take.
    pose proof (str_take_drop (i + 1) api_name) as Htd.
    apply (f_equal String.length) in Htd.
    rewrite str_length_app, str_length_take in Htd by lia. lia. }
  rewrite Hempty in Hlen. simpl in Hlen. lia.
Qed.

Lemma entrypoint_keys_nonempty_add ebm e :
  entrypoint_keys_nonempty ebm → entrypoint_keys_nonempty (add_entrypoint ebm e).
Proof.
  intros Hne k Hk Hempty.
  assert (∀ e', e' ∉ entrypoints_at (add_entrypoint ebm e) k) as Hnone
    by (intros e'; rewrite Hempty; set_solver).
  unfold add_entrypoint in Hk. rewrite dom_insert in Hk.
  apply elem_of_union in Hk as [->%elem_of_singleton|Hk].
  - apply (Hnone e). apply entrypoints_at_add_entrypoint. by right.
  - apply (Hne k Hk). apply set_eq. intros e'. split; [|set_solver].
    intros He'. destruct (Hnone e'). apply entrypoints_at_add_entrypoint. by left.
Qed.

Lemma entrypoint_keys_nonempty_add_exported pkg api_names s ebm :
  entrypoint_keys_nonempty ebm →
  entrypoint_keys_nonempty (add_exported_symbols pkg api_names s ebm).
Proof.
  unfold add_exported_symbols. revert ebm.
  induction api_names as [|a api_names IH]; intros ebm Hne; [done|]. simpl.
  by apply IH, entrypoint_keys_nonempty_add.
Qed.

Lemma entrypoint_keys_nonempty_aggregate symbols strip ignore pkg prefix :
  entrypoint_keys_nonempty (aggregate_symbols symbols strip ignore pkg prefix).1
  ∧ entrypoint_keys_nonempty (aggregate_symbols symbols strip ignore pkg prefix).2.
Proof.
  unfold aggregate_symbols.
  cut (∀ v1 v2, entrypoint_keys_nonempty v1 → entrypoint_keys_nonempty v2 →
       let r := foldl (λ '(v1, v2) s,
           if _should_skip_file (file_name s) strip ignore prefix
           then (v1, v2)
           else (add_exported_symbols pkg (v1_apis s) s v1,
                 add_exported_symbols pkg (v2_apis s) s v2)) (v1, v2) symbols in
       entrypoint_keys_nonempty r.1 ∧ entrypoint_keys_nonempty r.2).
  { intros H. apply H; intros k Hk; set_solver. }
  induction symbols as [|s symbols IH]; intros v1 v2 H1 H2; simpl; [done|].
  destruct (_should_skip_file _ _ _ _); [by apply IH|].
  apply IH; by apply entrypoint_keys_nonempty_add_exported.
Qed.

Lemma lookup_entrypoints_at ebm k :
  entrypoint_keys_nonempty ebm →
  ebm !! k = if decide (entrypoints_at ebm k = ∅) then None
             else Some (entrypoints_at ebm k).
Proof.
  intros Hne. case_decide as Hempty.
  - destruct (ebm !! k) as [X|] eqn:Hk; [|done].
    destruct (Hne k (elem_of_dom_2 _ _ _ Hk) Hempty).
  - unfold entrypoints_at in *. destruct (ebm !! k) as [X|] eqn:Hk; [done|].
    by destruct Hempty.
Qed.

End aggregate_invariants.

(** X1: the aggregation does not depend on the order of the symbols nor on
    repeated symbols: two lists with the same symbols give the same
    version-1 and version-2 dictionaries of entrypoints. *)
Theorem aggregation_independent_of_symbol_order
    symbols symbols' strip ignore pkg prefix :
  (∀ s, s ∈ symbols ↔ s ∈ symbols') →
  aggregate_symbols symbols strip ignore pkg prefix
  = aggregate_symbols symbols' strip ignore pkg prefix.
Proof.
  intros Hsame.
  destruct (entrypoint_keys_nonempty_aggregate symbols strip ignore pkg prefix)
    as [Hn1 Hn2].
  destruct (entrypoint_keys_nonempty_aggregate symbols' strip ignore pkg prefix)
    as [Hn1' Hn2'].
  assert (∀ apis k e,
            aggregated symbols strip ignore pkg prefix apis k e
            ↔ aggregated symbols' strip ignore pkg prefix apis k e) as Hagg.
  { intros apis k e. unfold aggregated. by setoid_rewrite Hsame. }
  assert (∀ k, entrypoints_at (aggregate_symbols symbols strip ignore pkg prefix).1 k
               = entrypoints_at (aggregate_symbols symbols' strip ignore pkg prefix).1 k)
    as H1.
  { intros k. apply set_eq. intros e.
    rewrite (proj1 (aggregate_symbols_spec symbols strip ignore pkg prefix k e)).
    rewrite (proj1 (aggregate_symbols_spec symbols' strip ignore pkg prefix k e)).
    apply Hagg. }
  assert (∀ k, entrypoints_at (aggregate_symbols symbols strip ignore pkg prefix).2 k
               = entrypoints_at (aggregate_symbols symbols' strip ignore pkg prefix).2 k)
    as H2.
  { intros k. apply set_eq. intros e.
    rewrite (proj2 (aggregate_symbols_spec symbols strip ignore pkg prefix k e)).
    rewrite (proj2 (aggregate_symbols_spec symbols' strip ignore pkg prefix k e)).
    apply Hagg. }
  destruct (aggregate_symbols symbols strip ignore pkg prefix) as [v1 v2].
  destruct (aggregate_symbols symbols' strip ignore pkg prefix) as [v1' v2'].
  simpl in *. f_equal; apply map_eq; intros k.
  - by rewrite (lookup_entrypoints_at v1), (lookup_entrypoints_at v1'), H1.
  - by rewrite (lookup_entrypoints_at v2), (lookup_entrypoints_at v2'), H2.
Qed.

Lemma aggregation_independent_of_symbol_order_witness :
  aggregate_symbols [sym_a; sym_b; sym_a] [] [] "tf" ""
  = aggregate_symbols [sym_b; sym_a] [] [] "tf" "".
Proof.
  apply aggregation_independent_of_symbol_order.
  intros s. rewrite !elem_of_cons, !elem_of_nil. tauto.
Defined.

(** X2: in the public API every key of the entrypoint dictionaries has at
    least one entrypoint, every entrypoint is stored under its own module,
    its exposed name has no dot, and its module is the output package or
    the output package followed by a dot and a non-empty path. *)
Theorem aggregated_entrypoints_are_well_placed
    symbols docs strip ignore pkg prefix api σ ebm g :
  get_public_api symbols docs strip ignore pkg prefix = inr (api, σ) →
  is_view api ebm g →
  entrypoint_keys_nonempty ebm
  ∧ ∀ k e, e ∈ entrypoints_at ebm k →
      module e = k
      ∧ dotless (name e)
      ∧ (k = pkg ∨ ∃ mid, mid ≠ "" ∧ k = pkg +:+ "." +:+ mid).
Proof.
  intros Hapi Hview.
  apply get_public_api_inr in Hapi as (σ1 & Hv1 & Hv2 & _).
  destruct (entrypoint_keys_nonempty_aggregate symbols strip ignore pkg prefix)
    as [Hn1 Hn2].
  rewrite <-Hv1 in Hn1. rewrite <-Hv2 in Hn2.
  split; [by destruct Hview as [[-> _]|[-> _]]|].
  intros k e He.
  destruct (aggregate_symbols_spec symbols strip ignore pkg prefix k e) as [H1 H2].
  rewrite <-Hv1 in H1. rewrite <-Hv2 in H2.
  assert (∃ s api_name, e = entrypoint_of pkg s api_name ∧ k = module e)
    as (s & api_name & -> & ->).
  { destruct Hview as [[-> _]|[-> _]]; [apply H1 in He|apply H2 in He];
      destruct He as (s & a & _ & _ & _ & ? & ?); eauto. }
  split_and!; [done|apply entrypoint_of_name_dotless|apply entrypoint_of_module_prefix].
Qed.

Lemma aggregated_entrypoints_are_well_placed_witness :
  match get_public_api [sym_abc] [] [] [] "a" "" with
  | inr (api, σ) =>
      entrypoint_keys_nonempty (v2_entrypoints_by_module api)
      ∧ ∀ k e, e ∈ entrypoints_at (v2_entrypoints_by_module api) k →
          module e = k ∧ dotless (name e)
          ∧ (k = "a" ∨ ∃ mid, mid ≠ "" ∧ k = "a" +:+ "." +:+ mid)
  | inl _ => False
  end.
Proof.
  destruct (get_public_api [sym_abc] [] [] [] "a" "") as [err|[api σ]] eqn:Hapi.
  - apply get_public_api_inl in Hapi. discriminate Hapi.
  - exact (aggregated_entrypoints_are_well_placed _ _ _ _ _ _ _ _ _
             (v2_generated_imports_by_module api) Hapi
             (or_intror (conj eq_refl eq_refl))).
Defined.

(** Where the entrypoints of a view come from. *)
Lemma view_entrypoints_spec symbols docs strip ignore pkg prefix api σ ebm g :
  get_public_api symbols docs strip ignore pkg prefix = inr (api, σ) →
  is_view api ebm g →
  entrypoint_keys_nonempty ebm
  ∧ ∀ k e, e ∈ entrypoints_at ebm k →
      ∃ s api_name,
        s ∈ symbols
        ∧ _should_skip_file (file_name s) strip ignore prefix = false
        ∧ e = entrypoint_of pkg s api_name ∧ k = module e.
Proof.
  intros Hapi Hview.
  apply get_public_api_inr in Hapi as (σ1 & Hv1 & Hv2 & _).
  destruct (entrypoint_keys_nonempty_aggregate symbols strip ignore pkg prefix)
    as [Hn1 Hn2].
  rewrite <-Hv1 in Hn1. rewrite <-Hv2 in Hn2.
  split; [by destruct Hview as [[-> _]|[-> _]]|].
  intros k e He.
  destruct (aggregate_symbols_spec symbols strip ignore pkg prefix k e) as [H1 H2].
  rewrite <-Hv1 in H1. rewrite <-Hv2 in H2.
  destruct Hview as [[-> _]|[-> _]]; [apply H1 in He|apply H2 in He];
    destruct He as (s & a & ? & ? & _ & ? & ?); eauto 10.
Qed.

Section linker_invariants.
Implicit Types (d : import_dict) (σ : store).

Lemma dom_add_import parent module d σ :
  dom (add_import parent module (d, σ)).1 = dom d ∪ {[parent]}.
Proof.
  unfold add_import. cbn [fst snd].
  pose proof (dd_getitem_dom d parent σ) as Hdom.
  by destruct (dd_getitem d parent σ) as [[l d'] σ'].
Qed.

Lemma import_keys_nonempty_add base parent module d σ :
  wf_imports base d σ → base ≤ length σ → import_keys_nonempty d σ →
  import_keys_nonempty (add_import parent module (d, σ)).1
    (add_import parent module (d, σ)).2.
Proof.
  intros Hwf Hbase Hne k Hk.
  destruct (add_import_spec base parent module d σ Hwf Hbase) as (_ & _ & _ & Himp).
  rewrite Himp. rewrite dom_add_import in Hk. case_decide as Hkp.
  - set_solver.
  - apply Hne. set_solver.
Qed.

Lemma import_keys_nonempty_link base fuel module i d σ :
  wf_imports base d σ → base ≤ length σ → import_keys_nonempty d σ →
  let g' := link_ancestors fuel module i (d, σ) in
  wf_imports base g'.1 g'.2 ∧ base ≤ length g'.2 ∧ import_keys_nonempty g'.1 g'.2.
Proof.
  revert module i d σ. induction fuel as [|fuel IH]; intros module i d σ Hwf Hbase Hne.
  - done.
  - simpl. case_decide; [done|].
    pose proof (import_keys_nonempty_add base (PyStr.slice_to module i) module d σ
                  Hwf Hbase Hne) as Hne1.
    destruct (add_import_spec base (PyStr.slice_to module i) module d σ Hwf Hbase)
      as (Hwf1 & Hlen1 & _).
    destruct (add_import (PyStr.slice_to module i) module (d, σ)) as [d1 σ1].
    apply IH; [done|simpl in *; lia|done].
Qed.

Lemma import_keys_nonempty_generated base ebm d σ :
  wf_imports base d σ → base ≤ length σ → import_keys_nonempty d σ →
  import_keys_nonempty (add_generated_imports ebm (d, σ)).1
    (add_generated_imports ebm (d, σ)).2.
Proof.
  unfold add_generated_imports. generalize (dict_keys ebm) as keys. intros keys.
  revert d σ. induction keys as [|m keys IH]; intros d σ Hwf Hbase Hne; [done|].
  simpl. case_decide; [by apply IH|].
  destruct (import_keys_nonempty_link base (String.length m) m (PyStr.rfind "." m)
              d σ Hwf Hbase Hne) as (Hwf1 & Hbase1 & Hne1).
  destruct (link_ancestors _ _ _ _) as [d1 σ1]. by apply IH.
Qed.

End linker_invariants.

(** X3: the keys of the generated imports of a version are exactly the
    modules that have a child on the chain of some module with
    entrypoints, and each of them has at least one generated import. *)
Theorem generated_import_keys_are_ancestors
    symbols docs strip ignore pkg prefix api σ ebm g :
  get_public_api symbols docs strip ignore pkg prefix = inr (api, σ) →
  is_view api ebm g →
  import_keys_nonempty g σ
  ∧ ∀ k, k ∈ dom g ↔ ∃ m x, m ∈ dom ebm ∧ chain_edge m k x.
Proof.
  intros Hapi Hview.
  pose proof (λ k x, generated_imports_spec _ _ _ _ _ _ _ _ _ _ k x Hapi Hview) as Hspec.
  assert (import_keys_nonempty g σ) as Hne.
  { apply get_public_api_inr in Hapi as (σ1 & _ & _ & H1 & H2 & _).
    assert (import_keys_nonempty (∅ : import_dict) []) as Hne0 by (intros k ?; set_solver).
    pose proof (import_keys_nonempty_generated 0 (v1_entrypoints_by_module api) ∅ []
                  (wf_imports_empty []) ltac:(done) Hne0) as Hne1.
    destruct (add_generated_imports_spec 0 (v1_entrypoints_by_module api) ∅ []
                (wf_imports_empty []) ltac:(done)) as (Hwf1 & _ & _ & _).
    rewrite H1 in Hne1, Hwf1. simpl in Hne1, Hwf1.
    assert (import_keys_nonempty (∅ : import_dict) σ1) as Hne0' by (intros k ?; set_solver).
    pose proof (import_keys_nonempty_generated (length σ1)
                  (v2_entrypoints_by_module api) ∅ σ1
                  (wf_imports_empty σ1) ltac:(done) Hne0') as Hne2.
    destruct (add_generated_imports_spec (length σ1) (v2_entrypoints_by_module api)
                ∅ σ1 (wf_imports_empty σ1) ltac:(done)) as (_ & _ & Hpre2 & _).
    rewrite H2 in Hne2, Hpre2. simpl in Hne2, Hpre2.
    destruct Hview as [[_ ->]|[_ ->]]; [|done].
    intros k Hk. rewrite (imports_of_prefix (length σ1) _ σ1 σ); [by apply Hne1|done|].
    intros k' l Hk'. apply Hwf1 in Hk'. lia. }
  split; [done|]. intros k. split.
  - intros Hk. apply Hne in Hk.
    assert (∃ x, x ∈ imports_of g σ k) as [x Hx].
    { apply set_choose_L. done. }
    apply Hspec in Hx as (m & ? & ?). eauto.
  - intros (m & x & Hm & Hc).
    assert (x ∈ imports_of g σ k) as Hx by (apply Hspec; eauto).
    unfold imports_of in Hx. destruct (g !! k) eqn:Hk; [by apply elem_of_dom_2 in Hk|].
    set_solver.
Qed.

Lemma generated_import_keys_are_ancestors_witness :
  match get_public_api [sym_abc] [] [] [] "a" "" with
  | inr (api, σ) =>
      import_keys_nonempty (v2_generated_imports_by_module api) σ
      ∧ ∀ k, k ∈ dom (v2_generated_imports_by_module api)
             ↔ ∃ m x, m ∈ dom (v2_entrypoints_by_module api) ∧ chain_edge m k x
  | inl _ => False
  end.
Proof.
  destruct (get_public_api [sym_abc] [] [] [] "a" "") as [err|[api σ]] eqn:Hapi.
  - apply get_public_api_inl in Hapi. discriminate Hapi.
  - exact (generated_import_keys_are_ancestors _ _ _ _ _ _ _ _ _ _ Hapi
             (or_intror (conj eq_refl eq_refl))).
Defined.

(** X4: the import sets of the public API are separate set objects of the
    store: no two keys of one version share a set object, and no key of
    version 1 shares one with a key of version 2. *)
Theorem generated_import_sets_are_not_shared
    symbols docs strip ignore pkg prefix api σ :
  get_public_api symbols docs strip ignore pkg prefix = inr (api, σ) →
  (∀ k l, v1_generated_imports_by_module api !! k = Some l → l < length σ)
  ∧ (∀ k l, v2_generated_imports_by_module api !! k = Some l → l < length σ)
  ∧ (∀ k1 k2 l, v1_generated_imports_by_module api !! k1 = Some l →
       v1_generated_imports_by_module api !! k2 = Some l → k1 = k2)
  ∧ (∀ k1 k2 l, v2_generated_imports_by_module api !! k1 = Some l →
       v2_generated_imports_by_module api !! k2 = Some l → k1 = k2)
  ∧ (∀ k1 k2 l, v1_generated_imports_by_module api !! k1 = Some l →
       v2_generated_imports_by_module api !! k2 = Some l → False).
Proof.
  intros Hapi.
  apply get_public_api_inr in Hapi as (σ1 & _ & _ & H1 & H2 & _).
  destruct (add_generated_imports_spec 0 (v1_entrypoints_by_module api) ∅ []
              (wf_imports_empty []) ltac:(done)) as ([Hr1 Hi1] & _ & _ & _).
  rewrite H1 in Hr1, Hi1. simpl in Hr1, Hi1.
  destruct (add_generated_imports_spec (length σ1) (v2_entrypoints_by_module api) ∅ σ1
              (wf_imports_empty σ1) ltac:(done)) as ([Hr2 Hi2] & Hlen & _ & _).
  rewrite H2 in Hr2, Hi2, Hlen. simpl in Hr2, Hi2, Hlen.
  split_and!.
  - intros k l Hk. apply Hr1 in Hk. lia.
  - intros k l Hk. apply Hr2 in Hk. lia.
  - done.
  - done.
  - intros k1 k2 l Hk1 Hk2. apply Hr1 in Hk1. apply Hr2 in Hk2. lia.
Qed.

Lemma generated_import_sets_are_not_shared_witness :
  match get_public_api [sym_GFile] [] [] [] "tf" "" with
  | inr (api, σ) =>
      ∀ k1 k2 l, v1_generated_imports_by_module api !! k1 = Some l →
        v2_generated_imports_by_module api !! k2 = Some l → False
  | inl _ => False
  end.
Proof.
  destruct (get_public_api [sym_GFile] [] [] [] "tf" "") as [err|[api σ]] eqn:Hapi.
  - apply get_public_api_inl in Hapi. discriminate Hapi.
  - exact (proj2 (proj2 (proj2 (proj2
             (generated_import_sets_are_not_shared _ _ _ _ _ _ _ _ Hapi))))).
Defined.

(** ** Further properties of the docstring resolver and of the skip rule *)

Section docs_lookup.
Implicit Types (D : gmap string string) (d : ExportedDoc).

Lemma register_doc_lookup d D D' :
  register_doc D d = inr D' →
  D ⊆ D' ∧ ∀ m, m ∈ doc_modules d → D' !! m = Some (docstring d).
Proof.
  unfold register_doc. revert D.
  induction (doc_modules d) as [|m ms IH]; intros D; simpl.
  - intros [= <-]. split; [done|]. intros m Hm. by apply elem_of_nil in Hm.
  - case_decide as Hm; simpl; [done|]. intros Hrest.
    pose proof (IH _ Hrest) as [Hsub Hlook]. split.
    + etrans; [|exact Hsub]. apply insert_subseteq. by apply not_elem_of_dom.
    + intros m' [->|Hm']%elem_of_cons; [|by apply Hlook].
      eapply lookup_weaken; [apply lookup_insert_eq|exact Hsub].
Qed.

Lemma register_docs_lookup D docs D' :
  for_each register_doc D docs = inr D' →
  D ⊆ D' ∧ ∀ d m, d ∈ docs → m ∈ doc_modules d → D' !! m = Some (docstring d).
Proof.
  revert D. induction docs as [|d docs IH]; intros D; simpl.
  - intros [= <-]. split; [done|]. intros d m Hd. by apply elem_of_nil in Hd.
  - destruct (register_doc D d) as [e|D1] eqn:Hd; simpl; [done|]. intros Hrest.
    apply register_doc_lookup in Hd as [Hsub1 Hlook1].
    apply IH in Hrest as [Hsub Hlook]. split; [by etrans|].
    intros d' m [->|Hd']%elem_of_cons Hm; [|by eapply Hlook].
    eapply lookup_weaken; [by apply Hlook1|done].
Qed.

End docs_lookup.

(** X5: when the Doc records register without conflict, every module a
    record names renders the docstring of that record, and a module no
    record names renders the placeholder made from its own name, with
    [tensorflow] abbreviated to [tf]. *)
Theorem registered_docstring_is_rendered docs D :
  register_docs docs = inr D →
  (∀ d m, d ∈ docs → m ∈ doc_modules d → _get_module_docstring D m = docstring d)
  ∧ (∀ m, m ∉ all_modules docs →
       _get_module_docstring D m
       = "Public API for " +:+ PyStr.replace "tensorflow" "tf" m +:+ " namespace").
Proof.
  intros Hreg. split.
  - intros d m Hd Hm. unfold _get_module_docstring.
    apply register_docs_lookup in Hreg as [_ Hlook]. by rewrite (Hlook d m).
  - intros m Hm. unfold _get_module_docstring.
    pose proof (register_docs_from_spec ∅ docs) as Hspec.
    unfold register_docs in Hreg. rewrite Hreg in Hspec.
    destruct Hspec as (_ & _ & Hdom).
    destruct (D !! m) eqn:HDm; [|done].
    apply elem_of_dom_2 in HDm. rewrite Hdom in HDm. set_solver.
Qed.

Lemma registered_docstring_is_rendered_witness :
  ∃ D, register_docs [doc_first; doc_math] = inr D
       ∧ _get_module_docstring D "tf.linalg" = "Math."
       ∧ _get_module_docstring D "tensorflow.io"
         = "Public API for tf.io namespace".
Proof.
  destruct (register_docs [doc_first; doc_math]) as [e|D] eqn:Hreg.
  - vm_compute in Hreg. discriminate Hreg.
  - exists D. split; [reflexivity|].
    destruct (registered_docstring_is_rendered _ _ Hreg) as [H1 H2]. split.
    + apply (H1 doc_math "tf.linalg"); [set_solver|].
      apply elem_of_cons. right. by apply elem_of_cons; left.
    + apply (H2 "tensorflow.io"). vm_compute.
      intros Hin. repeat (apply elem_of_cons in Hin as [Hin|Hin]; [discriminate Hin|]).
      by apply elem_of_nil in Hin.
Defined.

(** X6: an empty string among the packages to ignore skips every symbol:
    both entrypoint dictionaries of the public API are empty. *)
Theorem empty_ignore_prefix_skips_everything
    symbols docs strip ignore pkg prefix api σ :
  get_public_api symbols docs strip ignore pkg prefix = inr (api, σ) →
  "" ∈ ignore →
  v1_entrypoints_by_module api = ∅ ∧ v2_entrypoints_by_module api = ∅.
Proof.
  intros Hapi Hin.
  assert (∀ s, ignored strip ignore prefix s) as Hign.
  { intros s. exists "". split; [done|]. by destruct (_get_import_path _ _ _). }
  assert (∀ ebm g, is_view api ebm g → ebm = ∅) as Hempty.
  { intros ebm g Hview.
    destruct (view_entrypoints_spec _ _ _ _ _ _ _ _ _ _ Hapi Hview) as [Hne Hsrc].
    apply map_empty. intros k. destruct (ebm !! k) as [X|] eqn:Hk; [|done].
    exfalso. apply elem_of_dom_2 in Hk. apply Hne in Hk.
    apply set_choose_L in Hk as [e He].
    destruct (Hsrc k e He) as (s & a & _ & Hskip & _).
    pose proof (proj2 (_should_skip_file_true strip ignore prefix s) (Hign s)).
    congruence. }
  split; [apply (Hempty _ (v1_generated_imports_by_module api)); by left
         |apply (Hempty _ (v2_generated_imports_by_module api)); by right].
Qed.

Lemma empty_ignore_prefix_skips_everything_witness :
  match get_public_api [sym_GFile; sym_lite] [] [] [""] "tf" "" with
  | inr (api, σ) =>
      v1_entrypoints_by_module api = ∅ ∧ v2_entrypoints_by_module api = ∅
  | inl _ => False
  end.
Proof.
  destruct (get_public_api [sym_GFile; sym_lite] [] [] [""] "tf" "")
    as [err|[api σ]] eqn:Hapi.
  - apply get_public_api_inl in Hapi. discriminate Hapi.
  - refine (empty_ignore_prefix_skips_everything _ _ _ _ _ _ _ _ Hapi _).
    apply list_elem_of_singleton. reflexivity.
Defined.

(** ** Module names, file paths and proxy files *)

Section joined.
Implicit Types (c d a : ascii) (s t y : string) (segs : list string).

Lemma dotted_join segs : dotted segs = join "." segs.
Proof.
  induction segs as [|s [|s' segs] IH]; [done|done|].
  change (dotted (s :: s' :: segs)) with (s +:+ "." +:+ dotted (s' :: segs)).
  by rewrite IH.
Qed.

Lemma join_snoc sep pre s :
  pre ≠ [] → join sep (pre ++ [s]) = join sep pre +:+ sep +:+ s.
Proof.
  induction pre as [|a0 [|b0 pre] IH]; intros Hne; [done|done|].
  change (join sep ((a0 :: b0 :: pre) ++ [s]))
    with (a0 +:+ sep +:+ join sep ((b0 :: pre) ++ [s])).
  rewrite IH by done.
  change (join sep (a0 :: b0 :: pre)) with (a0 +:+ sep +:+ join sep (b0 :: pre)).
  by rewrite !str_app_assoc.
Qed.

Lemma free_of_head c a s : free_of c (String a s) → a ≠ c ∧ free_of c s.
Proof.
  unfold free_of. simpl. case_decide; [done|].
  destruct (PyStr.index_of c s); [done|]. done.
Qed.

Lemma join_head c segs :
  segments c segs → ∃ a t, a ≠ c ∧ join (String c "") segs = String a t.
Proof.
  intros [Hne Hall]. destruct segs as [|s rest]; [done|].
  apply Forall_cons in Hall as [[Hs Hfree] _].
  destruct s as [|a s]; [done|]. apply free_of_head in Hfree as [Ha _].
  exists a. destruct rest; simpl; eauto.
Qed.

Lemma join_last c segs :
  segments c segs →
  ∃ pre last, last ≠ "" ∧ free_of c last
              ∧ join (String c "") segs = pre +:+ last.
Proof.
  intros [Hne Hall]. destruct segs as [|s segs _] using rev_ind; [done|].
  apply Forall_app in Hall as [_ Hlast].
  apply Forall_cons in Hlast as [[Hs Hfree] _].
  destruct (decide (segs = [])) as [->|Hpre].
  - exists "", s. done.
  - exists (join (String c "") segs +:+ String c ""), s.
    split_and!; [done|done|]. rewrite join_snoc by done. by rewrite str_app_assoc.
Qed.

Lemma lstrip_head c a t : a ≠ c → PyStr.lstrip c (String a t) = String a t.
Proof. intros Ha. simpl. by rewrite decide_False. Qed.

Lemma rstrip_snoc c y : PyStr.rstrip c (y +:+ String c "") = PyStr.rstrip c y.
Proof.
  induction y as [|b y IH].
  - rewrite str_app_nil_l. simpl. by rewrite decide_True.
  - rewrite str_app_String. simpl. by rewrite IH.
Qed.

Lemma rstrip_ends_free c y last :
  last ≠ "" → free_of c last → PyStr.rstrip c (y +:+ last) = y +:+ last.
Proof.
  intros Hne Hfree.
  rewrite rstrip_app_keep by (by rewrite rstrip_free).
  by rewrite rstrip_free.
Qed.

Lemma strip_join c segs :
  segments c segs →
  PyStr.strip c (join (String c "") segs) = join (String c "") segs
  ∧ PyStr.strip c (String c (join (String c "") segs)) = join (String c "") segs.
Proof.
  intros Hsegs.
  destruct (join_head c segs Hsegs) as (a & t & Ha & Hhead).
  destruct (join_last c segs Hsegs) as (pre & last & Hne & Hfree & Hlast).
  unfold PyStr.strip.
  assert (PyStr.lstrip c (String c (join (String c "") segs))
          = PyStr.lstrip c (join (String c "") segs)) as ->
    by (simpl; by rewrite decide_True).
  rewrite Hhead, lstrip_head by done. rewrite <-Hhead, Hlast.
  by rewrite rstrip_ends_free.
Qed.

Lemma replace_char_app c d s t :
  PyStr.replace_char c d (s +:+ t)
  = PyStr.replace_char c d s +:+ PyStr.replace_char c d t.
Proof.
  induction s as [|a s IH]; [done|]. rewrite str_app_String. simpl.
  by rewrite IH.
Qed.

Lemma replace_char_free c d s : free_of c s → PyStr.replace_char c d s = s.
Proof.
  induction s as [|a s IH]; [done|]. intros [Ha Hs]%free_of_head. simpl.
  by rewrite decide_False, IH.
Qed.

Lemma replace_char_same c s : PyStr.replace_char c c s = s.
Proof. induction s as [|a s IH]; [done|]. simpl. rewrite IH. by case_decide; subst. Qed.

Lemma replace_char_join c d segs :
  Forall (free_of c) segs →
  PyStr.replace_char c d (join (String c "") segs) = join (String d "") segs.
Proof.
  induction segs as [|s [|s' segs] IH]; intros Hall; [done| |].
  - apply Forall_cons in Hall as [Hs _]. by apply replace_char_free.
  - apply Forall_cons in Hall as [Hs Hall].
    change (join (String c "") (s :: s' :: segs))
      with (s +:+ String c "" +:+ join (String c "") (s' :: segs)).
    change (join (String d "") (s :: s' :: segs))
      with (s +:+ String d "" +:+ join (String d "") (s' :: segs)).
    rewrite !replace_char_app, IH, replace_char_free by done.
    simpl. by rewrite decide_True.
Qed.

Lemma free_of_drop c (k : nat) s : free_of c s → free_of c (PyStr.drop k s).
Proof.
  intros Hs. rewrite <-(str_take_drop k s) in Hs. by apply free_of_app in Hs as [_ ?].
Qed.

Lemma str_drop_app_plus (k : nat) y t :
  PyStr.drop (String.length y + k) (y +:+ t) = PyStr.drop k t.
Proof. induction y as [|b y IH]; [done|]. by rewrite str_app_String. Qed.

Lemma endswith_free_last c y last :
  last ≠ "" → free_of c last → PyStr.endswith (y +:+ last) (String c "") = false.
Proof.
  intros Hne Hfree. unfold PyStr.endswith. apply bool_decide_eq_false_2.
  intros [_ Hdrop]. simpl in Hdrop.
  assert (0 < String.length last) by (destruct last; [done|simpl; lia]).
  replace (String.length (y +:+ last) - 1)
    with (String.length y + (String.length last - 1)) in Hdrop
    by (rewrite str_length_app; lia).
  rewrite str_drop_app_plus in Hdrop.
  pose proof (free_of_drop c (String.length last - 1) last Hfree) as Hd.
  rewrite Hdrop in Hd. by apply free_of_head in Hd as [? _].
Qed.

Lemma endswith_snoc c y : PyStr.endswith (y +:+ String c "") (String c "") = true.
Proof.
  unfold PyStr.endswith. apply bool_decide_eq_true_2.
  rewrite str_length_app. simpl. split; [lia|].
  replace (String.length y + 1 - 1) with (String.length y) by lia.
  apply str_drop_app.
Qed.

Lemma segments_other c d segs :
  segments c segs → Forall (free_of d) segs → segments d segs.
Proof.
  intros [Hne Hall] Hd. split; [done|].
  apply Forall_forall. intros s Hs.
  rewrite Forall_forall in Hall, Hd. split; [by apply Hall|by apply Hd].
Qed.

Lemma segments_free c segs : segments c segs → Forall (free_of c) segs.
Proof. intros [_ Hall]. eapply Forall_impl; [done|]. by intros s [_ ?]. Qed.

End joined.

Lemma module_file_path_root out pkg root :
  out ≠ "" → PyStr.endswith out "/" = false → PyStr.startswith root "/" = false →
  module_file_path out pkg root pkg = out +:+ "/" +:+ root.
Proof.
  intros Hout Hend Hroot. unfold module_file_path.
  assert (PyStr.slice_from pkg (Z.of_nat (String.length pkg) + 1) = "") as ->.
  { unfold PyStr.slice_from, PyStr.clip.
    destruct (Z.ltb_spec (Z.of_nat (String.length pkg) + 1) 0); [lia|].
    replace (Z.to_nat (Z.of_nat (String.length pkg) + 1) `min` String.length pkg)
      with (String.length pkg) by lia.
    rewrite <-(str_app_nil_r pkg) at 2. apply str_drop_app. }
  simpl. unfold path_join at 2. simpl.
  rewrite bool_decide_eq_false_2, Hend by done. simpl.
  unfold path_join. rewrite Hroot.
  change (out +:+ "/" +:+ "") with (out +:+ String "/" "").
  by rewrite endswith_snoc, orb_true_r, str_app_assoc.
Qed.

Lemma module_file_path_sub out pkg root segs :
  out ≠ "" → PyStr.endswith out "/" = false →
  segments "." segs → Forall (free_of "/") segs →
  module_file_path out pkg root (pkg +:+ "." +:+ dotted segs)
  = out +:+ "/" +:+ join "/" segs +:+ "/" +:+ "__init__.py".
Proof.
  intros Hout Hend Hsegs Hslash. unfold module_file_path.
  rewrite slice_from_app_dot, dotted_join.
  rewrite replace_char_join by by apply segments_free.
  pose proof (segments_other _ "/" _ Hsegs Hslash) as Hsegs'.
  destruct (join_head "/" segs Hsegs') as (a & t & Ha & Hhead).
  destruct (join_last "/" segs Hsegs') as (pre & last & Hne & Hfree & Hlast).
  destruct (join_head "." segs Hsegs) as (a' & t' & _ & Hhead').
  rewrite bool_decide_eq_false_2
    by (change (String "." "") with "." in Hhead'; by rewrite Hhead').
  change (String "/" "") with "/" in *.
  assert (path_join out (join "/" segs) = out +:+ "/" +:+ join "/" segs) as ->.
  { unfold path_join. rewrite Hhead. simpl.
    rewrite (bool_decide_eq_false_2 (a = "/"%char)) by done. simpl.
    by rewrite bool_decide_eq_false_2, Hend by done. }
  unfold path_join. simpl.
  rewrite bool_decide_eq_false_2
    by (apply str_app_nonempty, str_app_nonempty; by rewrite Hhead).
  replace (out +:+ "/" +:+ join "/" segs) with ((out +:+ "/" +:+ pre) +:+ last)
    by (by rewrite Hlast, !str_app_assoc).
  rewrite endswith_free_last by done. simpl. rewrite Hlast.
  by rewrite !str_app_assoc.
Qed.

(** X7: the file of the output package is the root file in the output
    directory, and the file of a module [pkg.s1. ... .sn] is
    [__init__.py] in the directory [s1/.../sn] under the output
    directory. *)
Theorem module_file_path_of_module out pkg root segs :
  out ≠ "" → PyStr.endswith out "/" = false →
  (PyStr.startswith root "/" = false →
   module_file_path out pkg root pkg = out +:+ "/" +:+ root)
  ∧ (segments "." segs → Forall (free_of "/") segs →
     module_file_path out pkg root (pkg +:+ "." +:+ dotted segs)
     = out +:+ "/" +:+ join "/" segs +:+ "/" +:+ "__init__.py").
Proof.
  intros Hout Hend. split.
  - by apply module_file_path_root.
  - by apply module_file_path_sub.
Qed.

Lemma module_file_path_of_module_witness :
  module_file_path "out" "tf" "v2.py" "tf" = "out" +:+ "/" +:+ "v2.py"
  ∧ module_file_path "out" "tf" "v2.py" ("tf" +:+ "." +:+ dotted ["io"; "gfile"])
    = "out" +:+ "/" +:+ join "/" ["io"; "gfile"] +:+ "/" +:+ "__init__.py".
Proof.
  destruct (module_file_path_of_module "out" "tf" "v2.py" ["io"; "gfile"])
    as [H1 H2]; [discriminate|reflexivity|].
  split; [by apply H1|]. apply H2.
  - split; [discriminate|]. repeat constructor; discriminate.
  - repeat constructor.
Defined.

Section proxy.
Implicit Types (c b : ascii) (y t f : string).

Lemma repeat_char_only c (n : nat) y b t : repeat_char c n = y +:+ String b t → b = c.
Proof.
  revert y. induction n as [|n IH]; intros y; simpl.
  - destruct y; [by rewrite str_app_nil_l|by rewrite str_app_String].
  - destruct y as [|a y].
    + rewrite str_app_nil_l. by intros [= -> _].
    + rewrite str_app_String. intros [= _ Heq]. by eapply IH.
Qed.

Lemma dirname_split y last f :
  last ≠ "" → free_of "/" last → free_of "/" f →
  dirname ((y +:+ last) +:+ "/" +:+ f) = y +:+ last.
Proof.
  intros Hne Hlast Hf. unfold dirname.
  change ("/" +:+ f) with (String "/" f).
  rewrite rfind_app_char by done.
  assert (PyStr.slice_to ((y +:+ last) +:+ String "/" f)
            (Z.of_nat (String.length (y +:+ last)) + 1)
          = (y +:+ last) +:+ String "/" "") as ->.
  { replace ((y +:+ last) +:+ String "/" f)
      with (((y +:+ last) +:+ String "/" "") +:+ f) by (by rewrite str_app_assoc).
    replace (Z.of_nat (String.length (y +:+ last)) + 1)%Z
      with (Z.of_nat (String.length ((y +:+ last) +:+ String "/" "")))
      by (rewrite (str_length_app _ (String "/" "")); simpl; lia).
    apply slice_to_app. }
  rewrite bool_decide_eq_true_2 by (by apply str_app_nonempty).
  rewrite bool_decide_eq_true_2.
  - simpl. rewrite rstrip_snoc. by apply rstrip_ends_free.
  - intros Heq. destruct last as [|b l]; [done|].
    apply free_of_head in Hlast as [Hb _].
    rewrite str_app_assoc, !str_app_String in Heq.
    symmetry in Heq. by apply repeat_char_only in Heq.
Qed.

Lemma dirname_empty p : dirname p = "" ↔ free_of "/" p.
Proof.
  unfold dirname, free_of. rewrite index_of_rindex_of. unfold PyStr.rfind.
  destruct (PyStr.rindex_of "/" p) as [i|] eqn:Hi; simpl.
  - split; [|done]. intros Hempty. exfalso.
    destruct (rindex_of_Some _ _ _ Hi) as (t & Hp & _ & Hlt).
    assert (PyStr.slice_to p (Z.of_nat i + 1) = PyStr.take i p +:+ String "/" "")
      as Hhead.
    { rewrite Hp at 1.
      replace (PyStr.take i p +:+ String "/" t)
        with ((PyStr.take i p +:+ String "/" "") +:+ t) by (by rewrite str_app_assoc).
      replace (Z.of_nat i + 1)%Z
        with (Z.of_nat (String.length (PyStr.take i p +:+ String "/" "")))
        by (rewrite str_length_app, str_length_take by lia; simpl; lia).
      apply slice_to_app. }
    rewrite Hhead in Hempty.
    rewrite bool_decide_eq_true_2 in Hempty by (by apply str_app_nonempty).
    case_bool_decide as Hall; simpl in Hempty.
    + rewrite rstrip_snoc in Hempty.
      destruct Hall.
      generalize (PyStr.take i p) Hempty. clear.
      intros y. induction y as [|b y IH]; [done|]. simpl.
      destruct (decide (b = "/"%char)) as [->|]; [|done].
      destruct (PyStr.rstrip "/" y) eqn:Hr; [|done]. intros _.
      rewrite str_app_String. simpl. by rewrite <-IH.
    + by apply str_app_nonempty in Hempty.
  - split; [done|]. intros _. unfold PyStr.slice_to, PyStr.clip. simpl.
    by destruct p.
Qed.

Lemma get_module_of_directory out segs :
  segments "." segs → Forall (free_of "/") segs →
  get_module (out +:+ "/" +:+ join "/" segs) out = dotted segs.
Proof.
  intros Hsegs Hslash. unfold get_module.
  assert (PyStr.slice_from (out +:+ "/" +:+ join "/" segs)
            (Z.of_nat (String.length out)) = String "/" (join "/" segs)) as ->.
  { unfold PyStr.slice_from. rewrite clip_nonneg by (rewrite str_length_app; lia).
    apply str_drop_app. }
  rewrite replace_char_same. simpl.
  change "/" with (String "/"%char "") at 1.
  rewrite replace_char_join by done.
  rewrite dotted_join. by apply (strip_join "." segs).
Qed.

Lemma generate_proxy_api_files_cons file files proxy out fs :
  generate_proxy_api_files (file :: files) proxy out fs =
  if bool_decide (dirname file = "") then inl (FileNotFoundError (dirname file))
  else generate_proxy_api_files files proxy out
         (<[file := "from " +:+ proxy +:+ "." +:+ get_module (dirname file) out
                    +:+ " import *"]> fs).
Proof. unfold generate_proxy_api_files. simpl. by case_bool_decide. Qed.

End proxy.

(** X8: the proxy file written for the generated file of module
    [pkg.s1. ... .sn] imports the module [s1. ... .sn] of the proxy root:
    the directory of the generated file, taken relative to the output
    directory, gives back the module path. *)
Theorem proxy_of_generated_module_file out pkg root proxy segs fs :
  out ≠ "" → PyStr.endswith out "/" = false →
  segments "." segs → Forall (free_of "/") segs →
  let file := module_file_path out pkg root (pkg +:+ "." +:+ dotted segs) in
  dirname file = out +:+ "/" +:+ join "/" segs
  ∧ get_module (dirname file) out = dotted segs
  ∧ generate_proxy_api_files [file] proxy out fs
    = inr (<[file := "from " +:+ proxy +:+ "." +:+ dotted segs +:+ " import *"]> fs).
Proof.
  intros Hout Hend Hsegs Hslash file.
  pose proof (segments_other _ "/" _ Hsegs Hslash) as Hsegs'.
  destruct (join_last "/" segs Hsegs') as (pre & last & Hne & Hfree & Hlast).
  change (String "/" "") with "/" in Hlast.
  assert (dirname file = out +:+ "/" +:+ join "/" segs) as Hdir.
  { unfold file. rewrite module_file_path_sub by done.
    replace (out +:+ "/" +:+ join "/" segs +:+ "/" +:+ "__init__.py")
      with (((out +:+ "/" +:+ pre) +:+ last) +:+ "/" +:+ "__init__.py")
      by (by rewrite Hlast, !str_app_assoc).
    rewrite dirname_split by done. by rewrite Hlast, !str_app_assoc. }
  assert (get_module (dirname file) out = dotted segs) as Hmod
    by (rewrite Hdir; by apply get_module_of_directory).
  split_and!; [done|done|].
  rewrite generate_proxy_api_files_cons, Hmod.
  rewrite bool_decide_eq_false_2; [done|].
  rewrite Hdir. apply str_app_nonempty. discriminate.
Qed.

Lemma proxy_of_generated_module_file_witness :
  generate_proxy_api_files
    [module_file_path "out" "tf" "v2.py" ("tf" +:+ "." +:+ dotted ["io"; "gfile"])]
    "proxy" "out" ∅
  = inr (<[module_file_path "out" "tf" "v2.py" ("tf" +:+ "." +:+ dotted ["io"; "gfile"])
           := "from " +:+ "proxy" +:+ "." +:+ dotted ["io"; "gfile"] +:+ " import *"]> ∅).
Proof.
  refine (proj2 (proj2 (proxy_of_generated_module_file "out" "tf" "v2.py" "proxy"
                          ["io"; "gfile"] ∅ _ _ _ _))).
  - discriminate.
  - reflexivity.
  - split; [discriminate|]. repeat constructor; discriminate.
  - repeat constructor.
Defined.

(** X9: [generate_proxy_api_files] fails exactly when one of the output
    files has no directory part (no slash in its path), with
    [FileNotFoundError] for the empty directory; when it returns, every
    output file holds the import of the module its directory stands for
    and every other file is as before. *)
Theorem proxy_files_written files proxy out fs :
  ((∃ e, generate_proxy_api_files files proxy out fs = inl e)
   ↔ ∃ file, file ∈ files ∧ free_of "/" file)
  ∧ (∀ e, generate_proxy_api_files files proxy out fs = inl e →
       e = FileNotFoundError "")
  ∧ (∀ fs', generate_proxy_api_files files proxy out fs = inr fs' →
       (∀ file, file ∈ files →
          fs' !! file
          = Some ("from " +:+ proxy +:+ "." +:+ get_module (dirname file) out
                  +:+ " import *"))
       ∧ (∀ p, p ∉ files → fs' !! p = fs !! p)).
Proof.
  revert fs. induction files as [|file files IH]; intros fs.
  - split_and!.
    + split; [by intros [e [=]]|]. intros (f & Hf & _). by apply elem_of_nil in Hf.
    + by intros e [=].
    + intros fs' [= <-]. split; [|done]. intros f Hf. by apply elem_of_nil in Hf.
  - rewrite generate_proxy_api_files_cons.
    destruct (IH (<[file := "from " +:+ proxy +:+ "." +:+ get_module (dirname file) out
                            +:+ " import *"]> fs)) as (IH1 & IH2 & IH3).
    case_bool_decide as Hdir.
    + split_and!.
      * split; [|eauto]. intros _. exists file. split; [by left|by apply dirname_empty].
      * intros e [= <-]. by rewrite Hdir.
      * by intros fs' [=].
    + assert (¬ free_of "/" file) as Hfile by (by rewrite <-dirname_empty).
      split_and!.
      * rewrite IH1. split.
        -- intros (f & Hf & ?). exists f. split; [by right|done].
        -- intros (f & [->|Hf]%elem_of_cons & ?); [done|eauto].
      * done.
      * intros fs' Hfs'. destruct (IH3 fs' Hfs') as [Hin Hout]. split.
        -- intros f Hf. destruct (decide (f ∈ files)) as [Hf'|Hf']; [by apply Hin|].
           apply elem_of_cons in Hf as [->|Hf]; [|done].
           by rewrite Hout, lookup_insert_eq.
        -- intros p Hp. apply not_elem_of_cons in Hp as [Hne Hp].
           by rewrite Hout, lookup_insert_ne.
Qed.

Lemma proxy_files_written_witness :
  generate_proxy_api_files ["out/a/__init__.py"; "setup.py"] "proxy" "out" ∅
  = inl (FileNotFoundError "")
  ∧ ∀ fs', generate_proxy_api_files ["out/a/__init__.py"] "proxy" "out" ∅ = inr fs' →
      fs' !! "out/a/__init__.py" = Some "from proxy.a import *".
Proof.
  split.
  - destruct (generate_proxy_api_files ["out/a/__init__.py"; "setup.py"] "proxy" "out" ∅)
      as [e|fs'] eqn:Hrun.
    + f_equal.
      exact (proj1 (proj2 (proxy_files_written ["out/a/__init__.py"; "setup.py"]
                             "proxy" "out" ∅)) e Hrun).
    + discriminate Hrun.
  - intros fs' Hrun.
    apply (proj1 (proj2 (proj2 (proxy_files_written ["out/a/__init__.py"]
                                  "proxy" "out" ∅)) fs' Hrun)).
    by left.
Defined.

(** ** Rendering leaves the public API as it is *)

Lemma set_at_padded (σ : store) n l : set_at (σ ++ replicate n ∅) l = set_at σ l.
Proof.
  unfold set_at. destruct (decide (l < length σ)) as [Hl|Hl].
  - by rewrite lookup_app_l.
  - rewrite lookup_app_r by lia. rewrite (lookup_ge_None_2 σ) by lia.
    destruct (replicate n ∅ !! (l - length σ)) as [X|] eqn:HX; [|done].
    by apply lookup_replicate in HX as [-> _].
Qed.

Lemma extends_imports_refl (d : import_dict) (σ : store) : extends_imports d σ d σ.
Proof.
  split_and!; [done|exists 0; by rewrite app_nil_r|]. intros k l Hk. by rewrite Hk.
Qed.

Lemma extends_imports_trans (d1 d2 d3 : import_dict) (σ1 σ2 σ3 : store) :
  extends_imports d1 σ1 d2 σ2 → extends_imports d2 σ2 d3 σ3 →
  extends_imports d1 σ1 d3 σ3.
Proof.
  intros (Hs1 & [n ->] & Hn1) (Hs2 & [m ->] & Hn2). split_and!.
  - by etrans.
  - exists (n + m). by rewrite replicate_add, app_assoc.
  - intros k l Hk1 Hk3. destruct (d2 !! k) as [l2|] eqn:Hk2.
    + rewrite (lookup_weaken _ _ _ _ Hk2 Hs2) in Hk3. injection Hk3 as <-. eauto.
    + specialize (Hn2 k l Hk2 Hk3). rewrite length_app in Hn2. lia.
Qed.

Lemma extends_imports_view (d d' : import_dict) (σ σ' : store) :
  extends_imports d σ d' σ' →
  (∀ k, imports_of d' σ' k = imports_of d σ k)
  ∧ ∀ (e : import_dict) k, imports_of e σ' k = imports_of e σ k.
Proof.
  intros (Hsub & [n ->] & Hnew). split.
  - intros k. unfold imports_of. destruct (d !! k) as [l|] eqn:Hk.
    + rewrite (lookup_weaken _ _ _ _ Hk Hsub). simpl. apply set_at_padded.
    + destruct (d' !! k) as [l|] eqn:Hk'; [|done]. simpl.
      rewrite set_at_padded. unfold set_at.
      by rewrite lookup_ge_None_2 by eauto.
  - intros e k. unfold imports_of. destruct (e !! k); [|done]. apply set_at_padded.
Qed.

Lemma dd_getitem_extends (d : import_dict) k (σ : store) :
  extends_imports d σ (dd_getitem d k σ).1.2 (dd_getitem d k σ).2.
Proof.
  unfold dd_getitem. destruct (d !! k) as [l|] eqn:Hk; simpl.
  - apply extends_imports_refl.
  - split_and!; [by apply insert_subseteq|by exists 1|].
    intros k' l Hk'. destruct (decide (k = k')) as [->|Hne].
    + rewrite lookup_insert_eq. intros [= <-]. lia.
    + rewrite lookup_insert_ne by done. by rewrite Hk'.
Qed.

Lemma ep_getitem_view (symbols : gmap string (gset _Entrypoint)) k k' :
  entrypoints_at (ep_getitem symbols k).2 k' = entrypoints_at symbols k'.
Proof.
  unfold ep_getitem, entrypoints_at. destruct (symbols !! k) as [X|] eqn:Hk; [done|].
  simpl. destruct (decide (k = k')) as [->|Hne].
  - by rewrite lookup_insert_eq, Hk.
  - by rewrite lookup_insert_ne.
Qed.

Section preserved.
Variable iter_modules : gset string → list string.
Variable iter_entrypoints : gset _Entrypoint → list _Entrypoint.

Lemma _get_imports_for_module_views
    module pkg symbols (gen : import_dict) (σ : store) strip prefix lazy rewrite :
  let r := _get_imports_for_module iter_modules iter_entrypoints module pkg
             symbols gen σ strip prefix lazy rewrite in
  (∀ k, entrypoints_at r.1.1.2 k = entrypoints_at symbols k)
  ∧ extends_imports gen σ r.1.2 r.2.
Proof.
  unfold _get_imports_for_module.
  pose proof (ep_getitem_view symbols module) as Hep.
  destruct (ep_getitem symbols module) as [X symbols'].
  pose proof (dd_getitem_extends gen module σ) as Hdd.
  destruct (dd_getitem gen module σ) as [[l gen'] σ']. simpl in *.
  done.
Qed.

Lemma gen_init_file_views
    out pkg v docs tpl strip lazy prefix rewrite root_file_name st module st' :
  gen_init_file iter_modules iter_entrypoints out pkg v docs tpl strip lazy
    prefix rewrite root_file_name st module = inr st' →
  (∀ k, entrypoints_at (st_symbols st') k = entrypoints_at (st_symbols st) k)
  ∧ extends_imports (st_imports st) (st_store st) (st_imports st') (st_store st')
  ∧ (∀ k, k ∈ dom (st_symbols st') ↔
          k ∈ dom (st_symbols st)
          ∨ (k = module ∧ String.length pkg ≤ String.length module))
  ∧ (∀ k, k ∈ dom (st_imports st') ↔
          k ∈ dom (st_imports st)
          ∨ (k = module ∧ String.length pkg ≤ String.length module))
  ∧ ∀ p, p ≠ module_file_path out pkg root_file_name module →
         st_files st' !! p = st_files st !! p.
Proof.
  unfold gen_init_file. case_bool_decide as Hlen.
  { intros [= <-]. split_and!; [done|apply extends_imports_refl| | |done].
    - intros k. split; [by left|]. intros [?|[_ ?]]; [done|lia].
    - intros k. split; [by left|]. intros [?|[_ ?]]; [done|lia]. }
  pose proof (_get_imports_for_module_views module pkg (st_symbols st)
                (st_imports st) (st_store st) strip prefix lazy rewrite)
    as (Hs & Hg).
  pose proof (_get_imports_for_module_frame iter_modules iter_entrypoints module
                pkg (st_symbols st) (st_imports st) (st_store st) strip prefix lazy
                rewrite) as (_ & _ & _ & Hds & Hdg).
  destruct (_get_imports_for_module _ _ _ _ _ _ _ _ _ _ _)
    as [[[content symbols1] gen1] σ1]. simpl in Hs, Hg, Hds, Hdg.
  destruct (bool_decide (module = pkg) && truthy (Some tpl)).
  - destruct (_ !! tpl) as [template|]; [|done].
    pose proof (ep_getitem_view symbols1 module) as Hs2.
    pose proof (ep_getitem_spec symbols1 module) as (_ & _ & Hds2 & _).
    destruct (ep_getitem symbols1 module) as [X symbols2].
    pose proof (dd_getitem_extends gen1 module σ1) as Hg2.
    pose proof (dd_getitem_dom gen1 module σ1) as Hdg2.
    destruct (dd_getitem gen1 module σ1) as [[l gen2] σ2].
    simpl in Hs2, Hds2, Hg2, Hdg2.
    intros [= <-]. simpl. split_and!.
    + intros k. by rewrite Hs2.
    + by eapply extends_imports_trans.
    + intros k. rewrite Hds2, Hds. split; [|intros [?|[-> _]]]; set_solver by lia.
    + intros k. rewrite Hdg2, Hdg. split; [|intros [?|[-> _]]]; set_solver by lia.
    + intros p Hp. by rewrite !lookup_insert_ne.
  - intros [= <-]. simpl. split_and!; [done|done| | |].
    + intros k. rewrite Hds. split; [|intros [?|[-> _]]]; set_solver by lia.
    + intros k. rewrite Hdg. split; [|intros [?|[-> _]]]; set_solver by lia.
    + intros p Hp. by rewrite !lookup_insert_ne.
Qed.

Lemma for_each_gen_init_file_views
    out pkg v docs tpl strip lazy prefix rewrite root_file_name ms st st' :
  for_each (gen_init_file iter_modules iter_entrypoints out pkg v docs tpl strip
              lazy prefix rewrite root_file_name) st ms = inr st' →
  (∀ k, entrypoints_at (st_symbols st') k = entrypoints_at (st_symbols st) k)
  ∧ extends_imports (st_imports st) (st_store st) (st_imports st') (st_store st')
  ∧ (∀ k, k ∈ dom (st_symbols st') ↔
          k ∈ dom (st_symbols st)
          ∨ (k ∈ ms ∧ String.length pkg ≤ String.length k))
  ∧ (∀ k, k ∈ dom (st_imports st') ↔
          k ∈ dom (st_imports st)
          ∨ (k ∈ ms ∧ String.length pkg ≤ String.length k))
  ∧ ∀ p, (∀ m, m ∈ ms → String.length pkg ≤ String.length m →
               p ≠ module_file_path out pkg root_file_name m) →
         st_files st' !! p = st_files st !! p.
Proof.
  revert st. induction ms as [|m ms IH]; intros st; simpl.
  - intros [= <-]. split_and!; [done|apply extends_imports_refl| | |done].
    + intros k. split; [by left|]. by intros [?|[?%elem_of_nil _]].
    + intros k. split; [by left|]. by intros [?|[?%elem_of_nil _]].
  - destruct (gen_init_file _ _ _ _ _ _ _ _ _ _ _ _ st m) as [e|st1] eqn:Hstep;
      simpl; [done|].
    pose proof Hstep as Hstep'.
    apply gen_init_file_views in Hstep as (Hs & Hg & Hds & Hdg & Hfs).
    intros (Hs' & Hg' & Hds' & Hdg' & Hfs')%IH.
    split_and!.
    + intros k. by rewrite Hs'.
    + by eapply extends_imports_trans.
    + intros k. rewrite Hds', Hds, elem_of_cons. naive_solver.
    + intros k. rewrite Hdg', Hdg, elem_of_cons. naive_solver.
    + intros p Hp. rewrite Hfs' by (intros m' Hm'; apply Hp; by right).
      destruct (decide (String.length pkg ≤ String.length m)) as [Hlen|Hlen].
      * apply Hfs, Hp; [by left|done].
      * unfold gen_init_file in Hstep'.
        rewrite bool_decide_eq_true_2 in Hstep' by lia. by injection Hstep' as <-.
Qed.

Lemma _gen_init_files_views
    out pkg v docs tpl strip lazy prefix rewrite root_file_name st st' :
  set_order iter_modules →
  _gen_init_files iter_modules iter_entrypoints out pkg v docs tpl strip lazy
    prefix rewrite root_file_name st = inr st' →
  (∀ k, entrypoints_at (st_symbols st') k = entrypoints_at (st_symbols st) k)
  ∧ extends_imports (st_imports st) (st_store st) (st_imports st') (st_store st')
  ∧ dom (st_symbols st') = dom (st_symbols st) ∪ rendered_modules pkg st
  ∧ dom (st_imports st') = dom (st_imports st) ∪ rendered_modules pkg st
  ∧ ∀ p, (∀ m, m ∈ rendered_modules pkg st →
               p ≠ module_file_path out pkg root_file_name m) →
         st_files st' !! p = st_files st !! p.
Proof.
  intros Hiter Hgen. unfold _gen_init_files in Hgen.
  apply for_each_gen_init_file_views in Hgen as (Hs & Hg & Hds & Hdg & Hfs).
  assert (∀ k, k ∈ iter_modules (dom (st_symbols st) ∪ dom (st_imports st))
               ∧ String.length pkg ≤ String.length k
               ↔ k ∈ rendered_modules pkg st) as Hin.
  { intros k. unfold rendered_modules.
    rewrite elem_of_filter, (Hiter _), elem_of_elements. tauto. }
  split_and!; [done|done| | |].
  - apply set_eq. intros k. rewrite Hds, elem_of_union, Hin. done.
  - apply set_eq. intros k. rewrite Hdg, elem_of_union, Hin. done.
  - intros p Hp. apply Hfs. intros m Hm Hlen. apply Hp, Hin. done.
Qed.

End preserved.

(** The sample state renders. *)
Lemma render_sample_returns :
  ∃ st', _gen_init_files elements elements "out" "tf" 2 ∅ "" [] false "" None
           "__init__.py" sample_state = inr st'.
Proof.
  assert (match _gen_init_files elements elements "out" "tf" 2 ∅ "" [] false ""
                  None "__init__.py" sample_state with
          | inr _ => True
          | inl _ => False
          end) as H by (vm_compute; exact I).
  destruct (_gen_init_files _ _ _ _ _ _ _ _ _ _ _ _ _) as [e|r];
    [destruct H|by exists r].
Qed.

(** X10: a call of [_gen_init_files] that returns changes neither the
    entrypoints nor the generated imports of any module, in the
    dictionaries it was given and in every other dictionary over the same
    store; its only effect on the two dictionaries is that every rendered
    module becomes a key of both. *)
Theorem rendering_preserves_the_api
    iter_modules iter_entrypoints out pkg v docs tpl strip lazy prefix rewrite
    root_file_name st st' :
  set_order iter_modules →
  _gen_init_files iter_modules iter_entrypoints out pkg v docs tpl strip lazy
    prefix rewrite root_file_name st = inr st' →
  (∀ k, entrypoints_at (st_symbols st') k = entrypoints_at (st_symbols st) k)
  ∧ (∀ k, imports_of (st_imports st') (st_store st') k
          = imports_of (st_imports st) (st_store st) k)
  ∧ (∀ (e : import_dict) k,
       imports_of e (st_store st') k = imports_of e (st_store st) k)
  ∧ dom (st_symbols st') = dom (st_symbols st) ∪ rendered_modules pkg st
  ∧ dom (st_imports st') = dom (st_imports st) ∪ rendered_modules pkg st.
Proof.
  intros Hiter Hgen.
  apply _gen_init_files_views in Hgen as (Hs & Hg & Hds & Hdg & _); [|done].
  apply extends_imports_view in Hg as [Hview Hother].
  done.
Qed.

Lemma rendering_preserves_the_api_witness :
  ∃ st', _gen_init_files elements elements "out" "tf" 2 ∅ "" [] false "" None
           "__init__.py" sample_state = inr st'
    ∧ dom (st_symbols st') = dom (st_symbols sample_state)
                             ∪ rendered_modules "tf" sample_state
    ∧ dom (st_imports st') = dom (st_imports sample_state)
                             ∪ rendered_modules "tf" sample_state.
Proof.
  destruct render_sample_returns as [st' Hgen].
  exists st'. split; [exact Hgen|].
  exact (proj2 (proj2 (proj2
           (rendering_preserves_the_api elements elements _ _ _ _ _ _ _ _ _ _ _ _
              set_order_elements Hgen)))).
Defined.

(** X11: a call of [_gen_init_files] that returns has written one file for
    every rendered module (a key of either dictionary that is no shorter
    than the output package) and has left every other path as it was. *)
Theorem rendering_writes_module_files_only
    iter_modules iter_entrypoints out pkg v docs tpl strip lazy prefix rewrite
    root_file_name st st' :
  set_order iter_modules →
  _gen_init_files iter_modules iter_entrypoints out pkg v docs tpl strip lazy
    prefix rewrite root_file_name st = inr st' →
  (∀ m, m ∈ rendered_modules pkg st →
        module_file_path out pkg root_file_name m ∈ dom (st_files st'))
  ∧ ∀ p, (∀ m, m ∈ rendered_modules pkg st →
               p ≠ module_file_path out pkg root_file_name m) →
         st_files st' !! p = st_files st !! p.
Proof.
  intros Hiter Hgen. split.
  - intros m [Hlen Hm]%elem_of_filter.
    apply (_gen_init_files_frame iter_modules iter_entrypoints) in Hgen
        as (_ & _ & _ & Hfs); [|done].
    apply Hfs. right. by exists m.
  - by apply _gen_init_files_views in Hgen as (_ & _ & _ & _ & Hfs).
Qed.

Lemma rendering_writes_module_files_only_witness :
  ∃ st', _gen_init_files elements elements "out" "tf" 2 ∅ "" [] false "" None
           "__init__.py" sample_state = inr st'
    ∧ (∀ m, m ∈ rendered_modules "tf" sample_state →
            module_file_path "out" "tf" "__init__.py" m ∈ dom (st_files st')).
Proof.
  destruct render_sample_returns as [st' Hgen].
  exists st'. split; [exact Hgen|].
  exact (proj1 (rendering_writes_module_files_only elements elements _ _ _ _ _ _ _
                  _ _ _ _ _ set_order_elements Hgen)).
Defined.

(** ** The order of the symbol imports *)

Lemma ltb_compare a b : String.ltb a b = true ↔ String.compare a b = Lt.
Proof. unfold String.ltb. by destruct (String.compare a b). Qed.

Lemma ltb_trans a b c :
  String.ltb a b = true → String.ltb b c = true → String.ltb a c = true.
Proof.
  rewrite !ltb_compare.
  change String.compare with OrderedTypeEx.String_as_OT.cmp.
  rewrite !OrderedTypeEx.String_as_OT.cmp_lt.
  apply OrderedTypeEx.String_as_OT.lt_trans.
Qed.

Lemma ltb_asym a b : String.ltb a b = true → String.ltb b a = false.
Proof.
  intros H%ltb_compare. apply not_true_is_false. intros H'%ltb_compare.
  rewrite String.compare_antisym, H' in H. discriminate.
Qed.

Lemma ltb_antisym a b : String.ltb a b = false → String.ltb b a = false → a = b.
Proof.
  intros H1 H2. apply String.compare_eq_iff.
  destruct (String.compare a b) eqn:Hc; [done| |].
  - apply ltb_compare in Hc. congruence.
  - assert (String.ltb b a = true); [|congruence].
    apply ltb_compare. by rewrite String.compare_antisym, Hc.
Qed.

Lemma ltb_false_trans a b c :
  String.ltb b a = false → String.ltb c b = false → String.ltb c a = false.
Proof.
  intros H1 H2. apply not_true_is_false. intros H3.
  destruct (String.ltb a b) eqn:Hab.
  - pose proof (ltb_trans _ _ _ H3 Hab). congruence.
  - pose proof (ltb_antisym _ _ Hab H1) as ->. congruence.
Qed.

Section sorting.
Context {A : Type} (key : A → string).

Lemma insert_sorted_sorted x l :
  StronglySorted (key_le key) l → StronglySorted (key_le key) (insert_sorted key x l).
Proof.
  induction 1 as [|y l Hl IH Hy]; simpl; [repeat constructor|].
  destruct (String.ltb (key y) (key x)) eqn:Hyx.
  - constructor; [done|].
    rewrite (insert_sorted_perm key x l). constructor; [|done].
    by apply ltb_asym.
  - constructor; [by constructor|]. constructor; [done|].
    eapply Forall_impl; [exact Hy|]. intros z Hz. unfold key_le in *.
    by eapply ltb_false_trans.
Qed.

Lemma sorted_sorted l : StronglySorted (key_le key) (sorted key l).
Proof.
  induction l as [|x l IH]; simpl; [constructor|]. by apply insert_sorted_sorted.
Qed.

Lemma sorted_order_independent l1 l2 :
  l1 ≡ₚ l2 →
  (∀ a b, a ∈ l1 → b ∈ l1 → key a = key b → a = b) →
  sorted key l1 = sorted key l2.
Proof.
  intros Hperm Hinj.
  apply (StronglySorted_unique_strong (key_le key)); [|apply sorted_sorted..|].
  - intros a b Ha Hb Hab Hba.
    rewrite sorted_perm in Ha. rewrite sorted_perm, <-Hperm in Hb.
    apply Hinj; [done|done|]. by apply ltb_antisym.
  - by rewrite !sorted_perm.
Qed.

End sorting.

(** X12: the import block [_get_imports_for_module] returns lists the
    symbol imports sorted by file name, and it does not depend on the
    order in which the set of entrypoints is iterated, provided the
    entrypoints of the module come from pairwise distinct files. *)
Theorem symbol_imports_ignore_iteration_order
    iter_modules iter1 iter2 module pkg symbols (gen : import_dict) (σ : store)
    strip prefix lazy rewrite :
  set_order iter1 → set_order iter2 →
  distinct_files symbols module →
  _get_imports_for_module iter_modules iter1 module pkg symbols gen σ strip prefix
    lazy rewrite
  = _get_imports_for_module iter_modules iter2 module pkg symbols gen σ strip
      prefix lazy rewrite
  ∧ StronglySorted (key_le (λ s, file_name (exported_symbol s)))
      (sorted (λ s, file_name (exported_symbol s))
         (iter1 (entrypoints_at symbols module))).
Proof.
  intros H1 H2 Hfiles. split; [|apply sorted_sorted].
  unfold _get_imports_for_module.
  pose proof (ep_getitem_spec symbols module) as (Hep & _).
  destruct (ep_getitem symbols module) as [X symbols']. simpl in Hep. subst X.
  rewrite (sorted_order_independent _ (iter1 (entrypoints_at symbols module))
             (iter2 (entrypoints_at symbols module))); [done| |].
  - by rewrite (H1 _), (H2 _).
  - intros a b Ha Hb. apply Hfiles.
    + by rewrite (H1 _), elem_of_elements in Ha.
    + by rewrite (H1 _), elem_of_elements in Hb.
Qed.

Lemma symbol_imports_ignore_iteration_order_witness :
  _get_imports_for_module elements elements "tf" "tf" symbols_two_files ∅ [] []
    "" false None
  = _get_imports_for_module elements (reverse ∘ elements) "tf" "tf"
      symbols_two_files ∅ [] [] "" false None.
Proof.
  refine (proj1 (symbol_imports_ignore_iteration_order elements elements
                   (reverse ∘ elements) "tf" "tf" symbols_two_files ∅ [] [] ""
                   false None set_order_elements set_order_reverse _)).
  intros a b. unfold entrypoints_at, symbols_two_files.
  rewrite lookup_singleton_eq. simpl.
  rewrite !elem_of_union, !elem_of_singleton.
  intros [->| ->] [->| ->]; try reflexivity; discriminate.
Defined.

(** ** Import paths and the module wrapper *)

Lemma removeprefix_app p s : PyStr.removeprefix (p +:+ s) p = s.
Proof. unfold PyStr.removeprefix. by rewrite startswith_app, str_drop_app. Qed.

Lemma endswith_app x suf : PyStr.endswith (x +:+ suf) suf = true.
Proof.
  unfold PyStr.endswith. apply bool_decide_eq_true_2.
  rewrite str_length_app. split; [lia|].
  replace (String.length x + String.length suf - String.length suf)
    with (String.length x) by lia.
  apply str_drop_app.
Qed.

Lemma removesuffix_app x suf : PyStr.removesuffix (x +:+ suf) suf = x.
Proof.
  unfold PyStr.removesuffix. rewrite endswith_app, str_length_app.
  replace (String.length x + String.length suf - String.length suf)
    with (String.length x) by lia.
  apply str_take_app.
Qed.

Lemma strip_join_snoc c segs :
  segments c segs →
  PyStr.strip c (join (String c "") segs +:+ String c "") = join (String c "") segs.
Proof.
  intros Hsegs.
  destruct (strip_join c segs Hsegs) as [Hstrip _].
  destruct (join_head c segs Hsegs) as (a & t & Ha & Hhead).
  unfold PyStr.strip in *. rewrite Hhead in *.
  rewrite str_app_String, lstrip_head by done.
  rewrite lstrip_head in Hstrip by done.
  by rewrite <-str_app_String, rstrip_snoc.
Qed.

(** X13: [_get_import_path] turns the path of a source file below the
    stripped prefix into its dotted module path: [a/b/c.py] gives [a.b.c]
    (the name not ending in [__init__]) and the file [a/b/__init__.py] of
    a package gives [a.b]. *)
Theorem import_path_of_source_file pre prefix segs :
  segments "/" segs →
  (PyStr.endswith (join "/" segs) "__init__" = false →
   _get_import_path (pre +:+ join "/" segs +:+ ".py") [pre] prefix
   = prefix +:+ dotted segs)
  ∧ _get_import_path (pre +:+ join "/" segs +:+ "/__init__.py") [pre] prefix
    = prefix +:+ dotted segs.
Proof.
  intros Hsegs. pose proof (segments_free _ _ Hsegs) as Hfree.
  destruct (strip_join "/" segs Hsegs) as [Hstrip _].
  change (String "/" "") with "/" in *.
  unfold _get_import_path. simpl foldl. rewrite !removeprefix_app. split.
  - intros Hinit. rewrite removesuffix_app.
    unfold PyStr.removesuffix at 1. rewrite Hinit, Hstrip.
    change "/" with (String "/"%char "") at 1.
    rewrite replace_char_join by done. by rewrite dotted_join.
  - change "/__init__.py" with ("/" +:+ "__init__" +:+ ".py").
    rewrite <-!str_app_assoc. rewrite !removesuffix_app.
    change "/" with (String "/"%char "") at 2.
    rewrite (strip_join_snoc "/" segs Hsegs).
    rewrite replace_char_join by done. by rewrite dotted_join.
Qed.

Lemma import_path_of_source_file_witness :
  _get_import_path ("src/" +:+ join "/" ["tensorflow"; "python"; "ops"] +:+ "/__init__.py")
    ["src/"] "" = "" +:+ dotted ["tensorflow"; "python"; "ops"].
Proof.
  refine (proj2 (import_path_of_source_file "src/" "" ["tensorflow"; "python"; "ops"] _)).
  split; [discriminate|]. repeat constructor; discriminate.
Defined.

(** X14: the module wrapper is empty exactly for an eager API other than
    version 1; otherwise the module it names is the module path below the
    output package, empty for the output package itself. *)
Theorem wrapper_names_relative_module module out pkg (v : Z) symbols lazy segs :
  (_get_module_wrapper module out pkg v symbols lazy = "" ↔ v ≠ 1%Z ∧ lazy = false)
  ∧ (segments "." segs →
     ∀ r p d h,
       wrapper_fields (pkg +:+ "." +:+ dotted segs) out pkg v symbols lazy
       = Some (r, p, d, h) → r = dotted segs)
  ∧ (∀ r p d h, wrapper_fields pkg out pkg v symbols lazy = Some (r, p, d, h) →
       r = "").
Proof.
  split_and!.
  - unfold _get_module_wrapper, wrapper_fields.
    case_bool_decide as Hv; destruct lazy; simpl.
    + split; [intros H; by apply _DEPRECATION_FOOTER_nonempty in H|by intros [_ [=]]].
    + done.
    + split; [intros H; by apply _DEPRECATION_FOOTER_nonempty in H|by intros [_ [=]]].
    + split; [intros H; by apply _DEPRECATION_FOOTER_nonempty in H|]. intros [? _]. by destruct Hv.
  - intros Hsegs r p d h. unfold wrapper_fields.
    destruct (_ && _); [done|]. intros [= <- _ _ _].
    rewrite removeprefix_app, dotted_join.
    change ("." +:+ join "." segs) with (String "." (join "." segs)).
    by apply (strip_join "." segs).
  - intros r p d h. unfold wrapper_fields.
    destruct (_ && _); [done|]. intros [= <- _ _ _].
    rewrite <-(str_app_nil_r pkg) at 1. by rewrite removeprefix_app.
Qed.

Lemma wrapper_names_relative_module_witness :
  wrapper_fields ("tf" +:+ "." +:+ dotted ["io"; "gfile"]) "out" "tf" 1 ∅ true
  = Some ("io.gfile", "_PUBLIC_APIS", "True", "False")
  ∧ "io.gfile" = dotted ["io"; "gfile"].
Proof.
  split; [reflexivity|].
  refine (proj1 (proj2 (wrapper_names_relative_module "tf" "out" "tf" 1 ∅ true
                          ["io"; "gfile"])) _ "io.gfile" "_PUBLIC_APIS" "True"
            "False" _).
  - split; [discriminate|]. repeat constructor; discriminate.
  - reflexivity.
Defined.

(** ** A whole run of [gen_public_api] *)

Lemma for_each_invariant {S A} (f : S → A → exn + S) (I : S → Prop) l s :
  I s →
  (∀ s a, a ∈ l → I s → ∃ s', f s a = inr s' ∧ I s') →
  ∃ s', for_each f s l = inr s' ∧ I s'.
Proof.
  revert s. induction l as [|a l IH]; intros s Hs Hstep; simpl; [eauto|].
  destruct (Hstep s a) as (s1 & -> & Hs1); [by left|done|]. simpl.
  apply IH; [done|]. intros s2 b Hb. apply Hstep. by right.
Qed.

Lemma same_api_refl api σ : same_api api σ api σ.
Proof. by split. Qed.

Lemma same_api_trans api1 σ1 api2 σ2 api3 σ3 :
  same_api api1 σ1 api2 σ2 → same_api api2 σ2 api3 σ3 → same_api api1 σ1 api3 σ3.
Proof.
  intros [Hd1 H1] [Hd2 H2]. split; [congruence|]. intros ver k.
  destruct (H1 ver k) as [<- <-]. apply H2.
Qed.

Lemma same_api_padded api (σ : store) n : same_api api σ api (σ ++ replicate n ∅).
Proof.
  split; [done|]. intros ver k. split; [done|].
  unfold imports_of. destruct (_ !! k); [|done]. apply set_at_padded.
Qed.

Lemma view_of_set_view api version symbols imports version' :
  view_of (set_view api version symbols imports) version'
  = if bool_decide (version' = 1%Z ↔ version = 1%Z) then (symbols, imports)
    else view_of api version'.
Proof.
  unfold view_of, set_view.
  destruct (decide (version = 1%Z)) as [->|Hv], (decide (version' = 1%Z)) as [->|Hv'].
  - by rewrite !bool_decide_eq_true_2 by done.
  - rewrite (bool_decide_eq_true_2 (1%Z = 1%Z)), (bool_decide_eq_false_2 (version' = 1%Z))
      by done. simpl. by rewrite bool_decide_eq_false_2 by tauto.
  - rewrite (bool_decide_eq_true_2 (1%Z = 1%Z)), (bool_decide_eq_false_2 (version = 1%Z))
      by done. simpl. by rewrite bool_decide_eq_false_2 by tauto.
  - rewrite (bool_decide_eq_false_2 (version = 1%Z)), (bool_decide_eq_false_2 (version' = 1%Z))
      by done. simpl. by rewrite bool_decide_eq_true_2 by tauto.
Qed.

Lemma view_of_same api version version' :
  (version' = 1%Z ↔ version = 1%Z) → view_of api version' = view_of api version.
Proof.
  intros H. unfold view_of.
  destruct (decide (version = 1%Z)) as [->|Hv].
  - by rewrite !bool_decide_eq_true_2 by tauto.
  - by rewrite !bool_decide_eq_false_2 by tauto.
Qed.

Lemma set_view_same api (σ : store) version symbols (imports : import_dict) (σ' : store) :
  (∀ k, entrypoints_at symbols k = entrypoints_at (view_of api version).1 k) →
  extends_imports (view_of api version).2 σ imports σ' →
  same_api api σ (set_view api version symbols imports) σ'.
Proof.
  intros Hs Hext. apply extends_imports_view in Hext as [Hview Hother].
  split; [unfold set_view; by case_bool_decide|].
  intros version' k. rewrite view_of_set_view. case_bool_decide as Hsame.
  - rewrite (view_of_same api version version') by done. simpl. by rewrite Hs, Hview.
  - by rewrite Hother.
Qed.

Section whole.
Variable iter_modules : gset string → list string.
Variable iter_entrypoints : gset _Entrypoint → list _Entrypoint.

Lemma gen_init_file_no_template
    out pkg v docs strip lazy prefix rewrite root_file_name st module :
  ∃ st', gen_init_file iter_modules iter_entrypoints out pkg v docs "" strip lazy
           prefix rewrite root_file_name st module = inr st'.
Proof.
  unfold gen_init_file. case_bool_decide; [eauto|].
  destruct (_get_imports_for_module _ _ _ _ _ _ _ _ _ _ _) as [[[c s] g] σ].
  rewrite andb_false_r. eauto.
Qed.

Lemma _gen_init_files_no_template
    out pkg v docs strip lazy prefix rewrite root_file_name st :
  ∃ st', _gen_init_files iter_modules iter_entrypoints out pkg v docs "" strip lazy
           prefix rewrite root_file_name st = inr st'
    ∧ (∀ k, entrypoints_at (st_symbols st') k = entrypoints_at (st_symbols st) k)
    ∧ extends_imports (st_imports st) (st_store st) (st_imports st') (st_store st').
Proof.
  unfold _gen_init_files.
  destruct (for_each_invariant
              (gen_init_file iter_modules iter_entrypoints out pkg v docs "" strip
                 lazy prefix rewrite root_file_name)
              (λ _, True)
              (iter_modules (dom (st_symbols st) ∪ dom (st_imports st))) st I)
    as (st' & Hrun & _).
  { intros s a _ _. destruct (gen_init_file_no_template out pkg v docs strip lazy
                                prefix rewrite root_file_name s a) as [s' ->].
    eauto. }
  exists st'. split; [done|].
  apply for_each_gen_init_file_views in Hrun as (? & ? & _). done.
Qed.

Lemma gen_nested_compat_files_returns
    out pkg v symbols (d : import_dict) docs strip lazy vs prefix (σ : store) fs :
  NoDup vs →
  (∀ cv, cv ∈ vs →
     compat_version_package pkg cv ∈ imports_of d σ (pkg +:+ ".compat")) →
  ∃ n fs',
    gen_nested_compat_files iter_modules iter_entrypoints out pkg v symbols d docs
      "" strip lazy vs prefix σ fs = inr (σ ++ replicate n ∅, fs').
Proof.
  intros Hnd Hedges.
  destruct (remove_compat_edges_succeeds pkg vs d σ Hnd Hedges) as [σ1 Hrem].
  pose proof (remove_compat_edges_inr _ _ _ _ _ _ Hrem)
    as (_ & Hlen1 & _ & _ & Hframe1 & Himp1 & Hlc).
  destruct (_gen_init_files_no_template out pkg v docs strip lazy prefix
              (Some ((pkg +:+ ".compat") +:+ ".v" +:+ pretty v)) "__init__.py"
              {| st_symbols := nested_compat_symbols pkg symbols; st_imports := d;
                 st_store := σ1; st_files := fs |})
    as (st2 & Hgen & _ & Hsub & [n Hpad] & _). simpl in Hsub, Hpad.
  exists n, (st_files st2).
  unfold gen_nested_compat_files. rewrite Hrem. simpl. rewrite Hgen. simpl.
  destruct (restore_compat_edges pkg vs (st_imports st2) (st_store st2))
    as [d3 σ3] eqn:Hres.
  simpl. do 2 f_equal.
  assert (σ3 = (restore_compat_edges pkg vs (st_imports st2) (st_store st2)).2)
    as -> by (by rewrite Hres).
  clear Hres d3.
  destruct vs as [|cv vs].
  { rewrite restore_compat_edges_nil. simpl. rewrite Hpad.
    by injection Hrem as <-. }
  destruct Hlc as (lc & Hd & Hlclen); [done|].
  pose proof (lookup_weaken _ _ _ _ Hd Hsub) as Hd2.
  assert (lc < length (st_store st2)) as Hlc2
    by (rewrite Hpad, length_app; lia).
  destruct (restore_compat_edges_spec pkg (cv :: vs) _ _ lc Hd2 Hlc2)
    as (_ & Hlen3 & Hframe3 & Hset3).
  apply list_eq. intros l. destruct (decide (l = lc)) as [->|Hne].
  - rewrite lookup_store_set_at by lia.
    rewrite lookup_app_l by lia. rewrite (lookup_store_set_at σ) by lia.
    f_equal. rewrite Hset3, Hpad, set_at_padded.
    assert (set_at σ1 lc = imports_of d σ1 (pkg +:+ ".compat")) as ->
      by (unfold imports_of; by rewrite Hd).
    rewrite Himp1.
    assert (imports_of d σ (pkg +:+ ".compat") = set_at σ lc) as Heq
      by (unfold imports_of; by rewrite Hd).
    rewrite <-Heq.
    apply set_eq. intros x. rewrite elem_of_union, elem_of_difference.
    split; [intros [(cv' & -> & Hcv')%elem_of_list_to_set%list_elem_of_fmap|[? _]];
            auto|].
    intros Hx.
    destruct (decide (x ∈ (list_to_set (compat_version_package pkg <$> cv :: vs)
                             : gset string))); auto.
  - rewrite Hframe3, Hpad by done.
    destruct (decide (l < length σ)) as [Hl|Hl].
    + rewrite !lookup_app_l by lia. apply Hframe1. congruence.
    + rewrite !lookup_app_r by lia. by rewrite Hlen1.
Qed.

End whole.

Lemma compat_init_template_nil index : compat_init_template [] index = inr "".
Proof. done. Qed.

Lemma enumerate_head {A} (x : A) l : ∃ rest, enumerate (x :: l) = (0, x) :: rest.
Proof. unfold enumerate. simpl. eauto. Qed.

(** X15: without init templates, with documentation that registers and
    with an output directory and a root file name that are not empty,
    [gen_public_api] returns exactly when no compat version is listed
    twice.  When it returns, the public API shows the docstrings, the
    entrypoints and the generated imports it had after the compat edges
    were added: rendering, nested compat files included, changed none of
    them.  When a compat version is listed twice the run raises the
    [KeyError] of a compat edge. *)
Theorem gen_public_api_returns_iff_versions_distinct
    iter_modules iter_entrypoints out pkg v vs lazy strip symbols docs ignore prefix
    root fs api σ :
  get_public_api symbols docs strip ignore pkg prefix = inr (api, σ) →
  out ≠ "" → root ≠ "" →
  (NoDup vs →
   ∃ api' σ' fs',
     gen_public_api iter_modules iter_entrypoints out pkg "" v vs [] lazy strip
       symbols docs ignore prefix root fs = inr (api', σ', fs')
     ∧ same_api (inject_compat_edges pkg vs api σ).1
         (inject_compat_edges pkg vs api σ).2 api' σ')
  ∧ (¬ NoDup vs →
     ∃ cv, cv ∈ vs
       ∧ gen_public_api iter_modules iter_entrypoints out pkg "" v vs [] lazy strip
           symbols docs ignore prefix root fs
         = inl (KeyError (compat_version_package pkg cv))).
Proof.
  intros Hapi _ _.
  destruct (get_public_api_wf_range _ _ _ _ _ _ _ _ Hapi) as [Hwf1 Hwf2].
  pose proof (inject_compat_edges_spec pkg vs api σ Hwf1 Hwf2)
    as (_ & _ & _ & _ & _ & Hedges).
  unfold gen_public_api. rewrite Hapi. simpl.
  destruct (inject_compat_edges pkg vs api σ) as [api0 σ0]. simpl in Hedges |- *.
  assert (∀ version cv, cv ∈ vs →
            compat_version_package pkg cv
              ∈ imports_of (view_of api0 version).2 σ0 (pkg +:+ ".compat"))
    as Hedge.
  { intros version cv Hcv. destruct (Hedges cv Hcv). unfold view_of.
    by case_bool_decide. }
  clear Hedges Hwf1 Hwf2 Hapi.
  destruct (view_of api0 v) as [symbols0 imports0] eqn:Hview.
  destruct (_gen_init_files_no_template iter_modules iter_entrypoints out pkg v
              (docs_by_module api0) strip lazy prefix None root
              {| st_symbols := symbols0; st_imports := imports0; st_store := σ0;
                 st_files := fs |}) as (st & -> & Hs & Hext).
  simpl in Hs, Hext |- *.
  assert (same_api api0 σ0 (set_view api0 v (st_symbols st) (st_imports st))
            (st_store st)) as Hroot.
  { apply set_view_same; by rewrite Hview. }
  generalize dependent (set_view api0 v (st_symbols st) (st_imports st)).
  generalize (st_store st) (st_files st). clear Hs Hext st.
  intros σ1 fs1 api1 Hroot. split.
  - intros Hnd.
    match goal with
    | |- ∃ _ _ _, for_each ?f _ _ = _ ∧ _ => set (body := f)
    end.
    destruct (for_each_invariant body
                (λ s, same_api api0 σ0 s.1.1 s.1.2) (enumerate vs)
                (api1, σ1, fs1) Hroot) as ([[api' σ'] fs'] & Hrun & Hinv).
    2:{ exists api', σ', fs'. done. }
    intros [[api2 σ2] fs2] [index cv] _ Hinv. simpl in Hinv. unfold body.
    destruct (view_of api2 cv) as [symbols2 imports2] eqn:Hview2.
    destruct (_gen_init_files_no_template iter_modules iter_entrypoints
                (path_join (path_join out "compat") ("v" +:+ pretty cv)) pkg cv
                (docs_by_module api2) strip lazy prefix
                (Some (pkg +:+ ".compat.v" +:+ pretty cv)) "__init__.py"
                {| st_symbols := symbols2; st_imports := imports2; st_store := σ2;
                   st_files := fs2 |}) as (st & -> & Hs & Hext).
    simpl in Hs, Hext |- *.
    assert (same_api api2 σ2 (set_view api2 cv (st_symbols st) (st_imports st))
              (st_store st)) as Hstep.
    { apply set_view_same; by rewrite Hview2. }
    pose proof (same_api_trans _ _ _ _ _ _ Hinv Hstep) as Hinv3.
    generalize dependent (set_view api2 cv (st_symbols st) (st_imports st)).
    generalize (st_store st) (st_files st). clear Hs Hext st.
    intros σ3 fs3 api3 Hstep Hinv3.
    match goal with
    | |- ∃ _, (mbind _ (for_each ?f _ _)) = _ ∧ _ => set (inner := f)
    end.
    destruct (for_each_invariant inner
                (λ s, ∃ n, s.1 = σ3 ++ replicate n ∅) (enumerate vs) (σ3, fs3))
      as ([σ4 fs4] & -> & [n Hpad]).
    { exists 0. simpl. by rewrite app_nil_r. }
    { intros [σ5 fs5] [nindex ncv] _ [m Hm]. simpl in Hm. subst σ5. unfold inner.
      destruct (view_of api3 ncv) as [symbols3 imports3] eqn:Hview3.
        destruct (gen_nested_compat_files_returns iter_modules iter_entrypoints
                  (path_join
                     (path_join (path_join (path_join out "compat")
                                   ("v" +:+ pretty cv)) "compat")
                     ("v" +:+ pretty ncv))
                  pkg ncv symbols3 imports3 (docs_by_module api3) strip lazy vs
                  prefix (σ3 ++ replicate m ∅) fs5 Hnd) as (n' & fs' & ->).
      - intros cv' Hcv'.
        destruct Hinv3 as [_ Hinv3]. destruct (Hinv3 ncv (pkg +:+ ".compat")) as [_ Himp].
        rewrite Hview3 in Himp. simpl in Himp.
        unfold imports_of. unfold imports_of in Himp.
        destruct (imports3 !! (pkg +:+ ".compat")) as [l|] eqn:Hl; simpl in *.
        + rewrite set_at_padded, Himp. by apply Hedge.
        + rewrite Himp. by apply Hedge.
      - eexists. split; [done|]. simpl. exists (m + n').
        by rewrite replicate_add, app_assoc. }
    simpl in Hpad. subst σ4. simpl.
    eexists. split; [done|]. simpl.
    eapply same_api_trans; [exact Hinv3|]. apply same_api_padded.
  - intros Hnd. destruct vs as [|cv vs]; [destruct Hnd; constructor|].
    destruct (enumerate_head cv vs) as [rest Hrest].
    destruct (view_of api1 cv) as [symbols2 imports2] eqn:Hview2.
    destruct (_gen_init_files_no_template iter_modules iter_entrypoints
                (path_join (path_join out "compat") ("v" +:+ pretty cv)) pkg cv
                (docs_by_module api1) strip lazy prefix
                (Some (pkg +:+ ".compat.v" +:+ pretty cv)) "__init__.py"
                {| st_symbols := symbols2; st_imports := imports2; st_store := σ1;
                   st_files := fs1 |}) as (st & Hgen & _ & _).
    set (api3 := set_view api1 cv (st_symbols st) (st_imports st)).
    destruct (view_of api3 cv) as [symbols3 imports3] eqn:Hview3.
    destruct (remove_compat_edges pkg (cv :: vs) imports3 (st_store st))
      as [e|[d' σ']] eqn:Hrem.
    2:{ apply remove_compat_edges_inr in Hrem as (_ & _ & ? & _). done. }
    pose proof (gen_nested_compat_files_removal_fails iter_modules iter_entrypoints
                  (path_join
                     (path_join (path_join (path_join out "compat")
                                   ("v" +:+ pretty cv)) "compat")
                     ("v" +:+ pretty cv))
                  pkg cv symbols3 imports3 (docs_by_module api3) "" strip lazy
                  (cv :: vs) prefix (st_store st) (st_files st) e Hrem) as Hnested.
    apply remove_compat_edges_inl in Hrem as (cv' & Hcv' & -> & _).
    exists cv'. split; [done|].
    rewrite Hrest. simpl. rewrite Hview2. simpl. rewrite Hgen. simpl.
    fold api3. rewrite Hview3. simpl. by rewrite Hnested.
Qed.

Lemma gen_public_api_returns_iff_versions_distinct_witness :
  ∃ r, gen_public_api elements elements "out" "tf" "" 2 [1%Z; 2%Z] [] false []
         [sym_a; sym_b] [] [] "" "__init__.py" ∅ = inr r.
Proof.
  destruct (get_public_api [sym_a; sym_b] [] [] [] "tf" "") as [err|[api σ]]
    eqn:Hapi.
  - apply get_public_api_inl in Hapi. discriminate Hapi.
  - destruct (proj1 (gen_public_api_returns_iff_versions_distinct elements elements
                       "out" "tf" 2 [1%Z; 2%Z] false [] [sym_a; sym_b] [] [] ""
                       "__init__.py" ∅ api σ Hapi ltac:(discriminate)
                       ltac:(discriminate)))
      as (api' & σ' & fs' & Hrun & _).
    + apply (bool_decide_unpack _). reflexivity.
    + exists (api', σ', fs'). exact Hrun.
Defined.

(** ** The root template and the generated import lines *)

Lemma contains_cons a s sub :
  PyStr.contains (String a s) sub
  = PyStr.startswith (String a s) sub || PyStr.contains s sub.
Proof. done. Qed.

Lemma replace_go_absent old new s :
  PyStr.contains s old = false → PyStr.replace_go old new 0 s = s.
Proof.
  induction s as [|a s IH]; [done|].
  rewrite contains_cons. intros [Hstart Hrest]%orb_false_elim.
  cbn [PyStr.replace_go]. rewrite Hstart. by rewrite IH.
Qed.

Lemma replace_absent old new s :
  old ≠ "" → PyStr.contains s old = false → PyStr.replace old new s = s.
Proof.
  intros Hold Habs. destruct old as [|b old]; [done|]. by apply replace_go_absent.
Qed.

(** X16: how the loop body of [_gen_init_files] renders the output
    package when a root template is given.  The file of the package is
    opened for writing before the template is read: a template that does
    not exist raises [FileNotFoundError]; a template without any of the
    three placeholders is copied as it is, no import being written; and a
    template at the path of the file itself is read back empty. *)
Theorem root_module_is_rendered_from_template
    iter_modules iter_entrypoints out pkg v docs tpl strip lazy prefix rewrite root
    st :
  out ≠ "" → root ≠ "" → tpl ≠ "" →
  (tpl ≠ module_file_path out pkg root pkg → st_files st !! tpl = None →
   gen_init_file iter_modules iter_entrypoints out pkg v docs tpl strip lazy prefix
     rewrite root st pkg = inl (FileNotFoundError tpl))
  ∧ (∀ content,
       tpl ≠ module_file_path out pkg root pkg →
       st_files st !! tpl = Some content →
       PyStr.contains content "# API IMPORTS PLACEHOLDER" = false →
       PyStr.contains content "# __all__ PLACEHOLDER" = false →
       PyStr.contains content "# WRAPPER_PLACEHOLDER" = false →
       ∃ st', gen_init_file iter_modules iter_entrypoints out pkg v docs tpl strip
                lazy prefix rewrite root st pkg = inr st'
         ∧ st_files st' !! module_file_path out pkg root pkg = Some content)
  ∧ (tpl = module_file_path out pkg root pkg →
     ∃ st', gen_init_file iter_modules iter_entrypoints out pkg v docs tpl strip
              lazy prefix rewrite root st pkg = inr st'
       ∧ st_files st' !! tpl = Some "").
Proof.
  intros _ _ Htpl. unfold gen_init_file.
  rewrite bool_decide_eq_false_2 by lia.
  destruct (_get_imports_for_module _ _ _ _ _ _ _ _ _ _ _) as [[[imports s1] g1] σ1].
  rewrite (bool_decide_eq_true_2 (pkg = pkg)) by done.
  unfold truthy. rewrite (bool_decide_eq_true_2 (tpl ≠ "")) by done. cbn [andb].
  split_and!.
  - intros Hne Hnone. by rewrite lookup_insert_ne, Hnone.
  - intros content Hne Hsome H1 H2 H3. rewrite lookup_insert_ne, Hsome by done.
    destruct (ep_getitem s1 pkg) as [X s2].
    destruct (dd_getitem g1 pkg σ1) as [[l g2] σ2].
    eexists. split; [done|]. cbn [st_files]. rewrite lookup_insert_eq.
    rewrite (replace_absent "# API IMPORTS PLACEHOLDER") by done.
    rewrite (replace_absent "# __all__ PLACEHOLDER") by done.
    by rewrite (replace_absent "# WRAPPER_PLACEHOLDER") by done.
  - intros ->. rewrite lookup_insert_eq.
    destruct (ep_getitem s1 pkg) as [X s2].
    destruct (dd_getitem g1 pkg σ1) as [[l g2] σ2].
    eexists. split; [done|]. cbn [st_files]. by rewrite lookup_insert_eq.
Qed.

Lemma root_module_is_rendered_from_template_witness :
  ∃ st', gen_init_file elements elements "out" "tf" 2 ∅ "tpl" [] false "" None
           "__init__.py" template_state "tf" = inr st'
    ∧ st_files st' !! module_file_path "out" "tf" "__init__.py" "tf"
      = Some "# template".
Proof.
  refine (proj1 (proj2 (root_module_is_rendered_from_template elements elements
                          "out" "tf" 2 ∅ "tpl" [] false "" None "__init__.py"
                          template_state _ _ _)) "# template" _ _ _ _ _).
  - discriminate.
  - discriminate.
  - discriminate.
  - intros H. vm_compute in H. discriminate H.
  - reflexivity.
  - reflexivity.
  - reflexivity.
  - reflexivity.
Defined.

Lemma replace_go_skip old new p t :
  PyStr.replace_go old new (String.length p) (p +:+ t) = PyStr.replace_go old new 0 t.
Proof.
  induction p as [|a p IH]; [by rewrite str_app_nil_l|].
  rewrite str_app_String. simpl. apply IH.
Qed.

Lemma replace_prefix old new t :
  old ≠ "" → PyStr.contains t old = false →
  PyStr.replace old new (old +:+ t) = new +:+ t.
Proof.
  intros Hold Habs. destruct old as [|b p]; [done|].
  unfold PyStr.replace.
  pose proof (startswith_app (String b p) t) as Hstart.
  rewrite str_app_String in Hstart |- *.
  cbn [PyStr.replace_go]. rewrite Hstart.
  replace (String.length (String b p) - 1) with (String.length p) by (simpl; lia).
  by rewrite replace_go_skip, replace_go_absent.
Qed.

(** X17: the line of a generated import.  For the import of module
    [pkg<mid>.seg], the output package not occurring after its first
    position, the eager line imports [seg] from [pkg<mid>], and under a
    subpackage rewrite from the rewritten package; the lazy entry maps
    [seg] to the rewritten module. *)
Theorem generated_import_under_rewrite pkg rw mid seg :
  pkg ≠ "" → rw ≠ "" → dotless seg →
  PyStr.contains (mid +:+ "." +:+ seg) pkg = false →
  generated_import_entry pkg false (Some rw) (pkg +:+ mid +:+ "." +:+ seg)
  = "from " +:+ rw +:+ mid +:+ " import " +:+ seg
  ∧ generated_import_entry pkg true (Some rw) (pkg +:+ mid +:+ "." +:+ seg)
    = "  '" +:+ seg +:+ "': ('', '" +:+ rw +:+ mid +:+ "." +:+ seg +:+ "'),"
  ∧ generated_import_entry pkg false None (pkg +:+ mid +:+ "." +:+ seg)
    = "from " +:+ pkg +:+ mid +:+ " import " +:+ seg.
Proof.
  intros Hpkg Hrw Hseg Habs. unfold generated_import_entry, truthy.
  rewrite bool_decide_eq_true_2 by done.
  change (default "" (Some rw)) with rw.
  rewrite replace_prefix by done.
  replace (rw +:+ mid +:+ "." +:+ seg) with ((rw +:+ mid) +:+ "." +:+ seg)
    by (by rewrite str_app_assoc).
  replace (pkg +:+ mid +:+ "." +:+ seg) with ((pkg +:+ mid) +:+ "." +:+ seg)
    by (by rewrite str_app_assoc).
  rewrite !rfind_app_dot by done.
  rewrite !slice_to_app_dot, !slice_from_app_dot.
  split_and!; by rewrite ?str_app_assoc.
Qed.

Lemma generated_import_under_rewrite_witness :
  generated_import_entry "tf" false (Some "tf.compat.v1") ("tf" +:+ ".io" +:+ "." +:+ "gfile")
  = "from " +:+ "tf.compat.v1" +:+ ".io" +:+ " import " +:+ "gfile".
Proof.
  refine (proj1 (generated_import_under_rewrite "tf" "tf.compat.v1" ".io" "gfile"
                   _ _ _ _)); [discriminate|discriminate|reflexivity|reflexivity].
Defined.

(** ** The compat edges *)

Lemma separate_sym (d1 d2 : import_dict) (σ : store) :
  separate d1 d2 σ → separate d2 d1 σ.
Proof. intros (? & ? & Hdis). split_and!; [done|done|]. intros k1 k2 l ??. eauto. Qed.

Lemma add_import_separate k x (d1 d2 : import_dict) (σ : store) :
  separate d1 d2 σ →
  let g' := add_import k x (d1, σ) in
  separate g'.1 d2 g'.2
  ∧ (∀ k', imports_of g'.1 g'.2 k' =
           if decide (k' = k) then {[x]} ∪ imports_of d1 σ k
           else imports_of d1 σ k')
  ∧ (∀ k', imports_of d2 g'.2 k' = imports_of d2 σ k').
Proof.
  intros (Hwf1 & Hwf2 & Hdis).
  destruct (add_import_spec 0 k x d1 σ Hwf1 ltac:(lia)) as (Hwf1' & Hlen & _ & Himp).
  intros g'. fold g' in Hwf1', Hlen, Himp.
  assert (∀ k' l, d2 !! k' = Some l → set_at g'.2 l = set_at σ l) as Hother.
  { intros k' l Hk'. pose proof (proj1 Hwf2 _ _ Hk') as [_ Hl].
    unfold g', add_import, dd_getitem. simpl.
    destruct (d1 !! k) as [l1|] eqn:Hk; simpl; unfold set_add.
    - rewrite set_at_alter. rewrite decide_False; [done|].
      intros [-> _]. eauto.
    - rewrite set_at_alter. rewrite decide_False by lia. by apply set_at_app. }
  split_and!.
  - split_and!; [done| |].
    + split; [|apply Hwf2]. intros k' l Hk'.
      pose proof (proj1 Hwf2 _ _ Hk'). lia.
    + intros k1 k2 l Hk1 Hk2. unfold g', add_import, dd_getitem in Hk1. simpl in Hk1.
      destruct (d1 !! k) as [l1|] eqn:Hk; simpl in Hk1; [eauto|].
      destruct (decide (k = k1)) as [->|Hne].
      * rewrite lookup_insert_eq in Hk1. injection Hk1 as <-.
        pose proof (proj1 Hwf2 _ _ Hk2). lia.
      * rewrite lookup_insert_ne in Hk1 by done. eauto.
  - done.
  - intros k'. unfold imports_of. destruct (d2 !! k') as [l|] eqn:Hk'; [|done].
    simpl. eauto.
Qed.

Lemma inject_compat_edges_exact pkg vs api (σ : store) :
  separate (v1_generated_imports_by_module api) (v2_generated_imports_by_module api) σ →
  let r := inject_compat_edges pkg vs api σ in
  separate (v1_generated_imports_by_module r.1) (v2_generated_imports_by_module r.1) r.2
  ∧ v1_entrypoints_by_module r.1 = v1_entrypoints_by_module api
  ∧ v2_entrypoints_by_module r.1 = v2_entrypoints_by_module api
  ∧ docs_by_module r.1 = docs_by_module api
  ∧ ∀ k,
      imports_of (v1_generated_imports_by_module r.1) r.2 k
      = imports_of (v1_generated_imports_by_module api) σ k
        ∪ (if decide (k = pkg +:+ ".compat")
           then list_to_set (compat_version_package pkg <$> vs) else ∅)
      ∧ imports_of (v2_generated_imports_by_module r.1) r.2 k
        = imports_of (v2_generated_imports_by_module api) σ k
          ∪ (if decide (k = pkg +:+ ".compat")
             then list_to_set (compat_version_package pkg <$> vs) else ∅).
Proof.
  revert api σ. induction vs as [|v vs IH]; intros api σ Hsep.
  - simpl. split_and!; [done..|]. intros k. case_decide; set_solver.
  - rewrite inject_compat_edges_cons. cbn zeta.
    destruct (add_import_separate (pkg +:+ ".compat") (compat_version_package pkg v)
                _ _ _ (separate_sym _ _ _ Hsep)) as (Hsep2 & Himp2 & Hoth2).
    set (g2 := add_import _ _ (v2_generated_imports_by_module api, σ)) in *.
    destruct (add_import_separate (pkg +:+ ".compat") (compat_version_package pkg v)
                _ _ _ (separate_sym _ _ _ Hsep2)) as (Hsep1 & Himp1 & Hoth1).
    set (g1 := add_import _ _ (v1_generated_imports_by_module api, g2.2)) in *.
    destruct (IH {| v1_entrypoints_by_module := v1_entrypoints_by_module api;
                    v2_entrypoints_by_module := v2_entrypoints_by_module api;
                    v1_generated_imports_by_module := g1.1;
                    v2_generated_imports_by_module := g2.1;
                    docs_by_module := docs_by_module api |} g1.2 Hsep1)
      as (Hsep' & He1 & He2 & Hdocs & Himp).
    split_and!; [done..|].
    intros k. destruct (Himp k) as [-> ->]. simpl.
    rewrite Himp1, Hoth1, Hoth2, Himp2.
    case_decide as Hk; [subst k|]; set_solver.
Qed.

Lemma get_public_api_separate symbols docs strip ignore pkg prefix api σ :
  get_public_api symbols docs strip ignore pkg prefix = inr (api, σ) →
  separate (v1_generated_imports_by_module api) (v2_generated_imports_by_module api) σ.
Proof.
  intros Hapi.
  apply get_public_api_inr in Hapi as (σ1 & _ & _ & H1 & H2 & _).
  destruct (add_generated_imports_spec 0 (v1_entrypoints_by_module api) ∅ []
              (wf_imports_empty []) ltac:(done)) as ([Hr1 Hi1] & _ & _ & _).
  rewrite H1 in Hr1, Hi1. simpl in Hr1, Hi1.
  destruct (add_generated_imports_spec (length σ1) (v2_entrypoints_by_module api) ∅ σ1
              (wf_imports_empty σ1) ltac:(done)) as ([Hr2 Hi2] & Hlen & _ & _).
  rewrite H2 in Hr2, Hi2, Hlen. simpl in Hr2, Hi2, Hlen.
  split_and!.
  - split; [|done]. intros k l Hk. apply Hr1 in Hk. lia.
  - split; [|done]. intros k l Hk. apply Hr2 in Hk. lia.
  - intros k1 k2 l Hk1 Hk2. apply Hr1 in Hk1. apply Hr2 in Hk2. lia.
Qed.

(** X18: the first loop of [gen_public_api] adds, in both versions, the
    edges from the compat package to the versioned compat package of
    every compat version, and nothing else: the imports of every other
    module, the entrypoints and the docstrings stay as [get_public_api]
    returned them. *)
Theorem compat_edges_are_injected symbols docs strip ignore pkg prefix api σ vs :
  get_public_api symbols docs strip ignore pkg prefix = inr (api, σ) →
  docs_by_module (inject_compat_edges pkg vs api σ).1 = docs_by_module api
  ∧ ∀ version k,
      (view_of (inject_compat_edges pkg vs api σ).1 version).1
      = (view_of api version).1
      ∧ imports_of (view_of (inject_compat_edges pkg vs api σ).1 version).2
          (inject_compat_edges pkg vs api σ).2 k
        = imports_of (view_of api version).2 σ k
          ∪ (if decide (k = pkg +:+ ".compat")
             then list_to_set (compat_version_package pkg <$> vs) else ∅).
Proof.
  intros Hapi%get_public_api_separate.
  destruct (inject_compat_edges_exact pkg vs api σ Hapi)
    as (_ & He1 & He2 & Hdocs & Himp).
  split; [done|]. intros version k. destruct (Himp k) as [Hi1 Hi2].
  unfold view_of. by case_bool_decide.
Qed.

Lemma compat_edges_are_injected_witness :
  match get_public_api [sym_a] [] [] [] "tf" "" with
  | inr (api, σ) =>
      imports_of (view_of (inject_compat_edges "tf" [1%Z; 2%Z] api σ).1 2).2
        (inject_compat_edges "tf" [1%Z; 2%Z] api σ).2 "tf.compat"
      = imports_of (view_of api 2).2 σ "tf.compat"
        ∪ (if decide ("tf.compat" = "tf" +:+ ".compat")
           then list_to_set (compat_version_package "tf" <$> [1%Z; 2%Z]) else ∅)
  | inl _ => False
  end.
Proof.
  destruct (get_public_api [sym_a] [] [] [] "tf" "") as [err|[api σ]] eqn:Hapi.
  - apply get_public_api_inl in Hapi. discriminate Hapi.
  - exact (proj2 (proj2 (compat_edges_are_injected _ _ _ _ _ _ _ _ [1%Z; 2%Z] Hapi)
                    2%Z "tf.compat")).
Defined.

(** ** The ancestor loop *)

Lemma iter_ancestor_round n st :
  Nat.iter (S n) ancestor_round st = Nat.iter n ancestor_round (ancestor_round st).
Proof. induction n as [|n IH]; [done|]. simpl in *. by rewrite IH. Qed.

(** X20: the [while] loop of [add_generated_imports] ends by its own exit
    test: from the loop variables of any module, some number [n] of
    rounds, at most [len(module)], leads to [i = -1], no smaller number
    does, and with any bound of at least [len(module)] rounds the embedded
    loop returns the dictionary and the sets reached after these [n]
    rounds. *)
Theorem ancestor_loop_reaches_its_exit_test module (g : import_dict * store) :
  ∃ n, n ≤ String.length module
    ∧ (∀ k, k < n →
         (Nat.iter k ancestor_round (module, PyStr.rfind "." module, g)).1.2
         ≠ (-1)%Z)
    ∧ (Nat.iter n ancestor_round (module, PyStr.rfind "." module, g)).1.2 = (-1)%Z
    ∧ ∀ fuel, String.length module ≤ fuel →
        link_ancestors fuel module (PyStr.rfind "." module) g
        = (Nat.iter n ancestor_round (module, PyStr.rfind "." module, g)).2.
Proof.
  remember (String.length module) as len eqn:Hlen.
  assert (String.length module ≤ len) as Hle by lia. clear Hlen.
  revert module g Hle. induction len as [|len IH]; intros module g Hle.
  - destruct module; [|simpl in Hle; lia].
    exists 0. split_and!; [simpl; lia|intros k ?; lia|done|]. intros fuel _. by destruct fuel.
  - destruct (decide (PyStr.rfind "." module = (-1)%Z)) as [Hi|Hi].
    + exists 0. split_and!; [lia|intros k ?; lia|done|].
      intros fuel _. destruct fuel; [done|]. simpl. by rewrite decide_True.
    + destruct (rfind_split module Hi) as (seg & _ & _ & Hlt).
      set (parent := PyStr.slice_to module (PyStr.rfind "." module)) in *.
      destruct (IH parent (add_import parent module g) ltac:(lia))
        as (n & Hn & Hbefore & Hexit & Hfuel).
      exists (S n). split_and!.
      * lia.
      * intros [|k] Hk; [done|]. rewrite iter_ancestor_round. apply Hbefore. lia.
      * by rewrite iter_ancestor_round.
      * intros fuel Hf. destruct fuel as [|fuel]; [lia|].
        rewrite iter_ancestor_round. simpl link_ancestors.
        rewrite decide_False by done. apply Hfuel. fold parent. lia.
Qed.

(** ** The has-lite field *)

Lemma lite_key_needs_lite_package symbols docs strip ignore pkg prefix api σ ebm g :
  get_public_api symbols docs strip ignore pkg prefix = inr (api, σ) →
  is_view api ebm g → pkg ≠ "lite" → "lite" ∉ dom ebm.
Proof.
  intros Hapi Hview Hpkg Hdom.
  destruct (view_entrypoints_spec _ _ _ _ _ _ _ _ _ _ Hapi Hview) as [Hne Hfrom].
  specialize (Hne _ Hdom).
  assert (∃ e, e ∈ entrypoints_at ebm "lite") as [e He].
  { apply set_choose_L. done. }
  destruct (Hfrom _ _ He) as (s & a & _ & _ & -> & Hk).
  destruct (entrypoint_of_module_prefix pkg s a) as [Hm|(mid & _ & Hm)];
    rewrite Hm in Hk; [done|].
  assert (free_of "." "lite") as Hfree by reflexivity.
  rewrite Hk in Hfree. apply free_of_app in Hfree as [_ Hfree].
  by apply free_of_head in Hfree as [? _].
Qed.

(** C8 fails on the code: the has-lite field is computed by the test
    ['lite' in symbols_by_module], and the keys of that dictionary are the
    output package and the modules below it, so the test holds only when
    the output package itself is named [lite].  For the output package
    [tf], lazy loading, a symbol exported as [v2.lite] (an entrypoint of
    [tf] named [lite]) and a symbol exported as [v2.lite.Interpreter] (the
    module [tf.lite], imported by [tf]), the descriptors written to
    [out/__init__.py] and [out/lite/__init__.py] both have [has_lite=False]. *)
Theorem has_lite_is_false_with_lite_module :
  (∀ symbols docs strip ignore pkg prefix api σ ebm g module out (v : Z) lazy,
     get_public_api symbols docs strip ignore pkg prefix = inr (api, σ) →
     is_view api ebm g → pkg ≠ "lite" →
     ("lite" ∉ dom ebm)
     ∧ ∀ rel apis dep has_lite,
         wrapper_fields module out pkg v ebm lazy = Some (rel, apis, dep, has_lite) →
         has_lite = "False")
  ∧ match get_public_api [sym_lite; sym_lite_name] [] [] [] "tf" "",
          gen_public_api elements elements "out" "tf" "" 2 [] [] true []
            [sym_lite; sym_lite_name] [] [] "" "__init__.py" ∅ with
    | inr (api, σ), inr (_, _, fs) =>
        "tf.lite" ∈ imports_of (v2_generated_imports_by_module api) σ "tf"
        ∧ entrypoint_of "tf" sym_lite_name "v2.lite"
            ∈ entrypoints_at (v2_entrypoints_by_module api) "tf"
        ∧ name (entrypoint_of "tf" sym_lite_name "v2.lite") = "lite"
        ∧ entrypoint_of "tf" sym_lite "v2.lite.Interpreter"
            ∈ entrypoints_at (v2_entrypoints_by_module api) "tf.lite"
        ∧ fs !! "out/__init__.py"
          = Some (_GENERATED_FILE_HEADER "Public API for tf namespace"
                  +:+ _LAZY_LOADING_MODULE_TEXT_TEMPLATE
                        ("  'lite': ('', 'tf.lite')," +:+ nl
                         +:+ "  'lite': ('tensorflow.lite.python.api', 'lite'), # line: 9"
                         +:+ nl)
                  +:+ _DEPRECATION_FOOTER "" "_PUBLIC_APIS" "False" "False")
        ∧ fs !! "out/lite/__init__.py"
          = Some (_GENERATED_FILE_HEADER "Public API for tf.lite namespace"
                  +:+ _LAZY_LOADING_MODULE_TEXT_TEMPLATE
                        ("  'Interpreter': ('tensorflow.lite.python.lite', 'Interpreter'), # line: 7"
                         +:+ nl)
                  +:+ _DEPRECATION_FOOTER "lite" "_PUBLIC_APIS" "False" "False")
    | _, _ => False
    end.
Proof.
  split.
  - intros symbols docs strip ignore pkg prefix api σ ebm g module out v lazy
      Hapi Hview Hpkg.
    pose proof (lite_key_needs_lite_package _ _ _ _ _ _ _ _ _ _ Hapi Hview Hpkg)
      as Hlite.
    split; [done|]. intros rel apis dep has_lite. unfold wrapper_fields.
    destruct (_ && _); [done|].
    rewrite (bool_decide_eq_false_2 ("lite" ∈ dom ebm)) by done.
    by intros [= _ _ _ <-].
  - vm_compute. split_and!; reflexivity.
Qed.

Lemma has_lite_is_false_with_lite_module_witness :
  match get_public_api [sym_lite; sym_lite_name] [] [] [] "tf" "" with
  | inr (api, σ) =>
      ("lite" ∉ dom (v2_entrypoints_by_module api))
      ∧ ∀ rel apis dep has_lite,
          wrapper_fields "tf" "out" "tf" 2 (v2_entrypoints_by_module api) true
          = Some (rel, apis, dep, has_lite) →
          has_lite = "False"
  | inl _ => False
  end.
Proof.
  destruct (get_public_api [sym_lite; sym_lite_name] [] [] [] "tf" "")
    as [err|[api σ]] eqn:Hapi.
  - apply get_public_api_inl in Hapi. discriminate Hapi.
  - exact (proj1 has_lite_is_false_with_lite_module _ _ _ _ _ _ _ _ _
             (v2_generated_imports_by_module api) "tf" "out" 2%Z true Hapi
             (or_intror (conj eq_refl eq_refl)) ltac:(discriminate)).
Defined.

(** ** The embedding on concrete inputs *)

Example slice_examples :
  PyStr.slice "v2.io.gfile.GFile" 3 11 = "io.gfile"
  ∧ PyStr.slice_from "v2.io.gfile.GFile" 12 = "GFile"
  ∧ PyStr.slice_to "tf.io" (-1) = "tf.i"
  ∧ PyStr.rfind "." "v2.io.gfile.GFile" = 11%Z
  ∧ PyStr.find "." "v2.io.gfile.GFile" = 2%Z
  ∧ PyStr.rfind "." "GFile" = (-1)%Z.
Proof. repeat split. Qed.

Example strip_replace_examples :
  PyStr.strip "/" "//a/b/" = "a/b"
  ∧ PyStr.removesuffix "a/b/__init__.py" ".py" = "a/b/__init__"
  ∧ PyStr.removesuffix "x" "" = "x"
  ∧ PyStr.removeprefix "bazel-out/a/b.py" "bazel-out/" = "a/b.py"
  ∧ PyStr.replace "tf" "tf.compat.v1" "tf.io.tf" = "tf.compat.v1.io.tf.compat.v1"
  ∧ PyStr.replace "aa" "b" "aaa" = "ba"
  ∧ PyStr.replace "" "-" "ab" = "-a-b-"
  ∧ PyStr.contains "Docstring at b.py:2" "b.py:2" = true.
Proof. repeat split. Qed.

Example entrypoint_of_GFile :
  entrypoint_of "tf" sym_GFile "v2.io.gfile.GFile"
  = {| module := "tf.io.gfile"; name := "GFile"; exported_symbol := sym_GFile |}.
Proof. reflexivity. Qed.

